(** * Railway section traffic control: conflict detection, greedy schedule
      optimisation and what-if analysis

    A shallow embedding of [models.py], [conflict_detector.py] and
    [optimizer.py], followed by the properties of the engine.

    Conventions of the embedding.
    - A [datetime] is the number of microseconds since the epoch and a
      [timedelta] a number of microseconds, both unbounded integers: the
      range check of [datetime] arithmetic ([OverflowError] past the year
      9999) is not modelled. A run of the code that returns, or that raises
      one of the exceptions below, is a run of the model with the same
      outcome; the properties of outcomes are stated for such runs.
    - A Python [float] is an exact rational ([Q]); [int(x)] truncates towards
      zero and [round(x, n)] rounds half to even on the exact value, where
      Python rounds the binary float.
    - A raised exception is the [Raise] case of [result]; the exceptions of the
      engine are [KeyError], [ZeroDivisionError] and [AttributeError].
    - Identifiers drawn from the clock or from [uuid4] ([conflict_id],
      [schedule_id], [created_at]) are left out of the records: nothing in the
      engine reads them. *)

From Stdlib Require Import ZArith QArith Qround Qminmax String Permutation.
From stdpp Require Import base gmap list strings pretty.

Open Scope Z_scope.

(** ** Time *)

Definition datetime := Z.
Definition timedelta := Z.

(** [timedelta(minutes=n)] *)
Definition minutes (n : Z) : timedelta := n * 60000000.

(** [timedelta(hours=n)] *)
Definition hours (n : Z) : timedelta := minutes (60 * n).

(** [td.total_seconds()] *)
Definition total_seconds (td : timedelta) : Q := inject_Z td / 1000000.

(** [x < y] on floats *)
Definition Qltb (x y : Q) : bool :=
  match (x ?= y)%Q with
  | Lt => true
  | _ => false
  end.

(** [int(x)] on a float: truncation towards zero. *)
Definition py_int (x : Q) : Z :=
  if Qle_bool 0 x then Qfloor x else Qceiling x.

(** Round half to even on an exact rational, [round(x)]. *)
Definition round_half_even (x : Q) : Z :=
  let f := Qfloor x in
  let r := (x - inject_Z f)%Q in
  match (r ?= 1 # 2)%Q with
  | Lt => f
  | Gt => f + 1
  | Eq => if Z.even f then f else f + 1
  end.

(** [round(x, ndigits)] *)
Definition py_round (x : Q) (ndigits : nat) : Q :=
  let s := inject_Z (10 ^ Z.of_nat ndigits) in
  (inject_Z (round_half_even (x * s)) / s)%Q.

(** ** Exceptions *)

Inductive exn : Type :=
  | KeyError (key : string)
  | ZeroDivisionError
  | AttributeError (what : string).

Inductive result (A : Type) : Type :=
  | Ok (a : A)
  | Raise (e : exn).
Arguments Ok {A} a.
Arguments Raise {A} e.

(** Sequencing with exception propagation, through stdpp's monad classes:
    [x ← m; k] runs [k] on the value of [m], or re-raises. *)
#[global] Instance result_ret : MRet result := λ A a, Ok a.
#[global] Instance result_bind : MBind result := λ A B k m,
  match m with
  | Ok a => k a
  | Raise e => Raise e
  end.

#[global] Instance result_fmap : FMap result := λ A B f m,
  match m with
  | Ok a => Ok (f a)
  | Raise e => Raise e
  end.

(** [d[k]] on a dict *)
Definition getitem {V} (d : gmap string V) (k : string) : result V :=
  match d !! k with
  | Some v => Ok v
  | None => Raise (KeyError k)
  end.

(** [a / b] on floats, for a divisor that is not a literal. *)
Definition py_div (a b : Q) : result Q :=
  if Qeq_bool b 0 then Raise ZeroDivisionError else Ok (a / b)%Q.

(** [max(...)] and [min(...)] over a generator; the engine only calls them on
    non-empty lists. *)
Definition py_max (l : list Z) : Z :=
  match l with
  | [] => 0
  | x :: l' => foldl Z.max x l'
  end.

Definition py_min (l : list Z) : Z :=
  match l with
  | [] => 0
  | x :: l' => foldl Z.min x l'
  end.

(** [sum(...)] *)
Definition py_sum (l : list Z) : Z := foldl Z.add 0 l.

(** A loop whose body may raise, threading an accumulator. *)
Fixpoint foldM {A S} (body : S → A → result S) (l : list A) (s : S) : result S :=
  match l with
  | [] => Ok s
  | x :: l' => s' ← body s x; foldM body l' s'
  end.

(** ** models.py *)

Inductive TrainType := EXPRESS | LOCAL | FREIGHT | MAINTENANCE | SPECIAL.

Inductive TrainPriority := CRITICAL | HIGH | MEDIUM | LOW | LOWEST.

(** [priority.value] *)
Definition value (p : TrainPriority) : Z :=
  match p with
  | CRITICAL => 1
  | HIGH => 2
  | MEDIUM => 3
  | LOW => 4
  | LOWEST => 5
  end.

(** [priority.name] *)
Definition priority_name (p : TrainPriority) : string :=
  match p with
  | CRITICAL => "CRITICAL"
  | HIGH => "HIGH"
  | MEDIUM => "MEDIUM"
  | LOW => "LOW"
  | LOWEST => "LOWEST"
  end.

Inductive SectionType := SINGLE_LINE | DOUBLE_LINE | JUNCTION | PLATFORM.

Record TrackSection := mkTrackSection {
  section_id : string;
  name : string;
  section_type : SectionType;
  length_km : Q;
  section_max_speed_kmh : Z;
  capacity : Z;
  signal_blocks : Z
}.

Record Train := mkTrain {
  train_id : string;
  train_number : string;
  train_type : TrainType;
  priority : TrainPriority;
  route : list string;
  scheduled_arrival : datetime;
  scheduled_departure : datetime;
  current_section : option string;
  current_delay_minutes : Z;
  max_speed_kmh : Z;
  estimated_section_times : gmap string Z
}.

(** [Train.__post_init__]: an empty table of section times is replaced by
    ten minutes for every section of the route. *)
Definition post_init (t : Train) : Train :=
  if decide (estimated_section_times t = ∅) then
    mkTrain (train_id t) (train_number t) (train_type t) (priority t) (route t)
      (scheduled_arrival t) (scheduled_departure t) (current_section t)
      (current_delay_minutes t) (max_speed_kmh t)
      (foldl (λ m sid, <[sid := 10]> m) ∅ (route t))
  else t.

Definition get_actual_arrival (t : Train) : datetime :=
  scheduled_arrival t + minutes (current_delay_minutes t).

Definition get_actual_departure (t : Train) : datetime :=
  scheduled_departure t + minutes (current_delay_minutes t).

(** [train.estimated_section_times.get(section_id, 10)] *)
Definition section_time (t : Train) (sid : string) : Z :=
  default 10 (estimated_section_times t !! sid).

(** The assignment [t.current_delay_minutes = d] (on a value: the updated
    copy). *)
Definition set_delay (t : Train) (d : Z) : Train :=
  mkTrain (train_id t) (train_number t) (train_type t) (priority t) (route t)
    (scheduled_arrival t) (scheduled_departure t) (current_section t)
    d (max_speed_kmh t) (estimated_section_times t).

(** The assignment [t.priority = p]. *)
Definition set_priority (t : Train) (p : TrainPriority) : Train :=
  mkTrain (train_id t) (train_number t) (train_type t) p (route t)
    (scheduled_arrival t) (scheduled_departure t) (current_section t)
    (current_delay_minutes t) (max_speed_kmh t) (estimated_section_times t).

Record Conflict := mkConflict {
  train1 : Train;
  train2 : Train;
  conflict_section_id : string;
  conflict_start_time : datetime;
  conflict_end_time : datetime;
  severity : Z;
  resolution : option string
}.

(** [Conflict.duration_minutes] *)
Definition duration_minutes (c : Conflict) : Z :=
  py_int (total_seconds (conflict_end_time c - conflict_start_time c) / 60).

(** A slot of [Schedule.train_slots]. *)
Record Slot := mkSlot {
  slot_train_id : string;
  slot_train_number : string;
  slot_train_type : TrainType;
  slot_priority : Z;
  slot_start_time : datetime;
  slot_end_time : datetime
}.

Record Schedule := mkSchedule {
  schedule_section_id : string;
  train_slots : list Slot;
  schedule_conflicts : list Conflict;
  optimized : bool
}.

Definition add_train_slot (s : Schedule) (t : Train) (st en : datetime) : Schedule :=
  mkSchedule (schedule_section_id s)
    (train_slots s ++
       [mkSlot (train_id t) (train_number t) (train_type t) (value (priority t)) st en])
    (schedule_conflicts s) (optimized s).

Definition get_occupancy_at_time (s : Schedule) (check_time : datetime) : list string :=
  slot_train_id <$>
    filter (λ sl, slot_start_time sl ≤ check_time ∧ check_time ≤ slot_end_time sl) (train_slots s).

(** ** Sorting

    [list.sort(key=...)] is stable; insertion from the right, each element
    placed in front of the first one whose key is not smaller, is the stable
    sort. *)

Section Sort.
Context {A : Type} (leb : A → A → bool).

Fixpoint insert_sorted (x : A) (l : list A) : list A :=
  match l with
  | [] => [x]
  | y :: l' => if leb x y then x :: l else y :: insert_sorted x l'
  end.

Definition stable_sort (l : list A) : list A := foldr insert_sorted [] l.

End Sort.

(** Dictionaries whose iteration order matters are association lists in
    insertion order. *)
Fixpoint odict_append {V} (k : string) (v : V) (d : list (string * list V))
  : list (string * list V) :=
  match d with
  | [] => [(k, [v])]
  | (k', vs) :: d' =>
      if decide (k' = k) then (k', vs ++ [v]) :: d'
      else (k', vs) :: odict_append k v d'
  end.

(** [{s.section_id: s for s in sections}]: a later section replaces an earlier
    one with the same id. *)
Definition section_dict_of (sections : list TrackSection) : gmap string TrackSection :=
  foldl (λ m s, <[section_id s := s]> m) ∅ sections.

(** ** conflict_detector.py *)

(** An entry [(train, start_time, end_time)] of a section's timeline. *)
Definition Occupancy : Type := Train * datetime * datetime.

(** The values of the summary dictionary. *)
Inductive SummaryValue :=
  | VInt (n : Z)
  | VBreakdown (m : gmap Z Z)
  | VNames (s : gset string).

(** The metrics of the optimizer and the reports of the what-if analyzer. *)

Record Metrics := mkMetrics {
  total_trains : Z;
  original_conflicts : Z;
  optimized_conflicts : Z;
  conflicts_reduced : Z;
  original_total_delay : Z;
  optimized_total_delay : Z;
  additional_delay_introduced : Z;
  average_delay_per_train : Q;
  throughput_trains_per_hour : Q;
  punctuality_percentage : Q;
  optimization_effectiveness : Q
}.

Record DelayImpact := mkDelayImpact {
  additional_conflicts : Z;
  additional_system_delay : Z;
  punctuality_impact : Q
}.

Record PriorityImpact := mkPriorityImpact {
  conflicts_change : Z;
  delay_change : Z;
  punctuality_change : Q
}.

Record Report (I : Type) := mkReport {
  scenario_description : string;
  original_metrics : Metrics;
  scenario_metrics : Metrics;
  impact : I
}.
Arguments mkReport {I}.
Arguments scenario_description {I}.
Arguments original_metrics {I}.
Arguments scenario_metrics {I}.
Arguments impact {I}.

Section Engine.

(** The configuration fixed at construction, shared by the optimizer and the
    detector it builds. *)
Variable safety_margin_minutes : Z.

(** One train of [_generate_section_schedules]: walk the route from the
    effective arrival, appending an entry to each section's timeline. *)
Definition walk_step (train : Train) (st : datetime * list (string * list Occupancy))
    (sid : string) : datetime * list (string * list Occupancy) :=
  let '(current_time, section_schedules) := st in
  let section_time_minutes := section_time train sid in
  let start_time := current_time in
  let end_time := current_time + minutes section_time_minutes in
  (end_time, odict_append sid (train, start_time, end_time) section_schedules).

Definition walk_route (train : Train) (section_schedules : list (string * list Occupancy))
  : list (string * list Occupancy) :=
  snd (foldl (walk_step train) (get_actual_arrival train, section_schedules)
         (route train)).

Definition _generate_section_schedules (trains : list Train)
    (sections : gmap string TrackSection) : list (string * list Occupancy) :=
  let section_schedules := foldl (λ d train, walk_route train d) [] trains in
  (λ '(sid, train_times),
     (sid, stable_sort (λ x y : Occupancy, x.1.2 <=? y.1.2) train_times))
    <$> section_schedules.

Definition _calculate_conflict_severity (train1 train2 : Train)
    (conflict_start conflict_end : datetime) (section : TrackSection) : Z :=
  let base_severity := 2 in
  let min_priority := Z.min (value (priority train1)) (value (priority train2)) in
  let base_severity :=
    if decide (min_priority = 1) then base_severity + 2
    else if decide (min_priority = 2) then base_severity + 1
    else base_severity in
  let conflict_duration := (total_seconds (conflict_end - conflict_start)%Z / 60)%Q in
  let base_severity :=
    if Qltb 30 conflict_duration then base_severity + 1 else base_severity in
  let base_severity :=
    if Qltb 60 conflict_duration then base_severity + 1 else base_severity in
  let base_severity :=
    match section_type section with
    | JUNCTION | SINGLE_LINE => base_severity + 1
    | _ => base_severity
    end in
  Z.min base_severity 5.

Definition _create_conflict (train1 train2 : Train) (section : TrackSection)
    (start1 end1 start2 end2 : datetime) : option Conflict :=
  let conflict_start := Z.max start1 start2 in
  let conflict_end := Z.min end1 end2 in
  if decide (conflict_start >= conflict_end) then None
  else
    let severity :=
      _calculate_conflict_severity train1 train2 conflict_start conflict_end section in
    Some (mkConflict train1 train2 (section_id section) conflict_start conflict_end
            severity None).

(** The two conflicts name the same unordered pair of train ids in the same
    section. *)
Definition same_conflict (conflict new_conflict : Conflict) : bool :=
  bool_decide
    (((train_id (train1 conflict) = train_id (train1 new_conflict) ∧
       train_id (train2 conflict) = train_id (train2 new_conflict)) ∨
      (train_id (train1 conflict) = train_id (train2 new_conflict) ∧
       train_id (train2 conflict) = train_id (train1 new_conflict))) ∧
     conflict_section_id conflict = conflict_section_id new_conflict).

Definition _conflict_exists (conflicts : list Conflict) (new_conflict : Conflict) : bool :=
  existsb (λ conflict, same_conflict conflict new_conflict) conflicts.

(** The test of the inner loop: do the two windows overlap once the safety
    margin is added to both ends. *)
Definition overlaps_with_margin (start1 end1 start2 end2 : datetime) : bool :=
  let safety_margin := minutes safety_margin_minutes in
  let overlap_start := Z.max start1 start2 in
  let overlap_end := Z.min (end1 + safety_margin) (end2 + safety_margin) in
  bool_decide (overlap_start < overlap_end).

(** The inner loop over [j], from index [j] on: the entries other than [i]
    that overlap entry [i]. *)
Fixpoint overlapping_from (i j : nat) (start1 end1 : datetime)
    (train_times : list Occupancy) : list Occupancy :=
  match train_times with
  | [] => []
  | (train2, start2, end2) :: rest =>
      if decide (i = j) then overlapping_from i (S j) start1 end1 rest
      else if overlaps_with_margin start1 end1 start2 end2
           then (train2, start2, end2) :: overlapping_from i (S j) start1 end1 rest
           else overlapping_from i (S j) start1 end1 rest
  end.

(** The loop over [overlapping_trains] that appends the new conflicts. *)
Definition add_conflict_step (train1 : Train) (start1 end1 : datetime)
    (section : TrackSection) (conflicts : list Conflict) (x : Occupancy)
  : list Conflict :=
  let '(train2, start2, end2) := x in
  match _create_conflict train1 train2 section start1 end1 start2 end2 with
  | Some conflict =>
      if _conflict_exists conflicts conflict then conflicts
      else conflicts ++ [conflict]
  | None => conflicts
  end.

Definition add_conflicts (train1 : Train) (start1 end1 : datetime) (section : TrackSection)
    (overlapping_trains : list Occupancy) (conflicts : list Conflict) : list Conflict :=
  foldl (add_conflict_step train1 start1 end1 section) conflicts overlapping_trains.

(** The body of the outer loop for entry [i]. *)
Definition detect_entry (train_times : list Occupancy) (section : TrackSection)
    (conflicts : list Conflict) (ie : nat * Occupancy) : list Conflict :=
  let '(i, (train1, start1, end1)) := ie in
  let overlapping_trains := overlapping_from i 0 start1 end1 train_times in
  if decide (Z.of_nat (length overlapping_trains) >= capacity section)
  then add_conflicts train1 start1 end1 section overlapping_trains conflicts
  else conflicts.

Definition _detect_section_conflicts (train_times : list Occupancy)
    (section : TrackSection) : list Conflict :=
  foldl (detect_entry train_times section) [] (imap pair train_times).

Definition detect_conflicts (trains : list Train) (sections : list TrackSection)
  : result (list Conflict) :=
  let section_dict := section_dict_of sections in
  let section_schedules := _generate_section_schedules trains section_dict in
  foldM (λ conflicts '(sid, train_times),
           section ← getitem section_dict sid;
           Ok (conflicts ++ _detect_section_conflicts train_times section))
        section_schedules [].

(** [severity_breakdown[severity] = severity_breakdown.get(severity, 0) + 1] *)
Definition count_severity (m : gmap Z Z) (c : Conflict) : gmap Z Z :=
  <[severity c := default 0 (m !! severity c) + 1]> m.

Definition get_conflict_summary (conflicts : list Conflict) : gmap string SummaryValue :=
  match conflicts with
  | [] =>
      <["trains_affected" := VNames ∅]>
      (<["sections_affected" := VNames ∅]>
      (<["severity_breakdown" := VBreakdown ∅]>
      (<["total_conflicts" := VInt 0]> ∅)))
  | _ =>
      let severity_breakdown := foldl count_severity ∅ conflicts in
      let sections_affected : gset string :=
        foldl (λ s c, s ∪ {[conflict_section_id c]}) ∅ conflicts in
      let trains_affected : gset string :=
        foldl (λ s c, s ∪ {[train_number (train1 c)]} ∪ {[train_number (train2 c)]})
              ∅ conflicts in
      <["critical_conflicts" :=
          VInt (Z.of_nat (length (filter (λ c, severity c >= 4) conflicts)))]>
      (<["trains_affected" := VNames trains_affected]>
      (<["sections_affected" := VNames sections_affected]>
      (<["severity_breakdown" := VBreakdown severity_breakdown]>
      (<["total_conflicts" := VInt (Z.of_nat (length conflicts))]> ∅))))
  end.

(** ** optimizer.py *)

Definition _sections_overlap (start1 end1 start2 end2 : datetime)
    (safety_margin : timedelta) (section : TrackSection) : bool :=
  if decide (capacity section = 1) then
    negb (bool_decide (end1 + safety_margin ≤ start2)
          || bool_decide (end2 + safety_margin ≤ start1))
  else
    negb (bool_decide (end1 ≤ start2) || bool_decide (end2 ≤ start1)).

(** The loop that adds up the section times of the scheduled train's route
    until it reaches [section_id] ([break]). *)
Fixpoint time_to_section_loop (scheduled_train : Train) (section_id : string)
    (rt : list string) (time_to_section : Z) : Z :=
  match rt with
  | [] => time_to_section
  | route_section :: rest =>
      if decide (route_section = section_id) then time_to_section
      else time_to_section_loop scheduled_train section_id rest
             (time_to_section + section_time scheduled_train route_section)
  end.

(** The window of an already scheduled train in [section_id]. *)
Definition scheduled_window (scheduled_train : Train) (section_id : string)
  : datetime * datetime :=
  let scheduled_arrival := get_actual_arrival scheduled_train in
  let time_to_section :=
    time_to_section_loop scheduled_train section_id (route scheduled_train) 0 in
  let scheduled_section_start := scheduled_arrival + minutes time_to_section in
  let scheduled_section_duration := section_time scheduled_train section_id in
  let scheduled_section_end :=
    scheduled_section_start + minutes scheduled_section_duration in
  (scheduled_section_start, scheduled_section_end).

(** The body of the loop of [_calculate_required_delay]. *)
Definition required_delay_step (train : Train) (section_id : string)
    (planned_start planned_end : datetime) (section : TrackSection)
    (max_delay_needed : Q) (scheduled_train : Train) : Q :=
  let safety_margin := minutes safety_margin_minutes in
  if decide (section_id ∈ route scheduled_train) then
    let '(scheduled_section_start, scheduled_section_end) :=
      scheduled_window scheduled_train section_id in
    if _sections_overlap planned_start planned_end
         scheduled_section_start scheduled_section_end safety_margin section
    then
      if decide (value (priority train) > value (priority scheduled_train)) then
        let delay_needed :=
          (total_seconds (scheduled_section_end + safety_margin - planned_start)%Z / 60)%Q in
        Qmax max_delay_needed delay_needed
      else max_delay_needed
    else max_delay_needed
  else max_delay_needed.

Definition _calculate_required_delay (train : Train) (section_id : string)
    (planned_start planned_end : datetime) (scheduled_trains : list Train)
    (section : TrackSection) : Z :=
  let max_delay_needed :=
    foldl (required_delay_step train section_id planned_start planned_end section)
          0%Q scheduled_trains in
  Z.max 0 (py_int max_delay_needed).

(** The body of the loop over the route in [_optimize_single_train]; the loop
    state is [(current_arrival, total_delay_added)]. *)
Definition optimize_section (train : Train) (scheduled_trains : list Train)
    (sections : gmap string TrackSection) (st : datetime * Z) (section_id : string)
  : result (datetime * Z) :=
  let '(current_arrival, total_delay_added) := st in
  section ← getitem sections section_id;
  let section_start_time := current_arrival + minutes total_delay_added in
  let section_duration := section_time train section_id in
  let section_end_time := section_start_time + minutes section_duration in
  let required_delay :=
    _calculate_required_delay train section_id section_start_time section_end_time
      scheduled_trains section in
  if decide (required_delay > 0) then
    let total_delay_added := total_delay_added + required_delay in
    Ok (get_actual_arrival train + minutes total_delay_added, total_delay_added)
  else Ok (current_arrival, total_delay_added).

(** The delay the route loop of [_optimize_single_train] arrives at. *)
Definition route_delay (train : Train) (scheduled_trains : list Train)
    (sections : gmap string TrackSection) : result Z :=
  st ← foldM (optimize_section train scheduled_trains sections) (route train)
         (get_actual_arrival train, 0);
  Ok st.2.

Definition _optimize_single_train (train : Train) (scheduled_trains : list Train)
    (sections : gmap string TrackSection) : result Train :=
  let optimized_train := train in
  total_delay_added ← route_delay train scheduled_trains sections;
  if decide (total_delay_added > 0) then
    Ok (set_delay optimized_train (current_delay_minutes train + total_delay_added))
  else Ok optimized_train.

(** The body of the loop of [_apply_greedy_optimization] over
    [enumerate(trains)]. *)
Definition greedy_step (section_dict : gmap string TrackSection)
    (optimized_trains : list Train) (it : nat * Train) : result (list Train) :=
  let '(i, train) := it in
  if decide (i = 0%nat) then Ok (optimized_trains ++ [train])
  else
    optimized_train ← _optimize_single_train train optimized_trains section_dict;
    Ok (optimized_trains ++ [optimized_train]).

Definition _apply_greedy_optimization (trains : list Train)
    (sections : list TrackSection) : result (list Train) :=
  let section_dict := section_dict_of sections in
  foldM (greedy_step section_dict) (imap pair trains) [].

(** One train of [_generate_optimized_schedule]: replay its route and add a
    slot to the schedule of each section. *)
Definition add_route_slots (schedules : gmap string Schedule) (train : Train)
  : result (gmap string Schedule) :=
  st ← foldM (λ '(current_time, schedules) section_id,
                let section_duration := section_time train section_id in
                let start_time := current_time in
                let end_time := current_time + minutes section_duration in
                schedule ← getitem schedules section_id;
                Ok (end_time,
                    <[section_id := add_train_slot schedule train start_time end_time]>
                      schedules))
             (route train) (get_actual_arrival train, schedules);
  Ok st.2.

Definition _generate_optimized_schedule (trains : list Train)
    (sections : list TrackSection) : result (gmap string Schedule) :=
  let schedules :=
    foldl (λ m section,
             <[section_id section := mkSchedule (section_id section) [] [] true]> m)
          ∅ sections in
  foldM add_route_slots trains schedules.

(** The throughput of [_calculate_metrics], before rounding. *)
Definition throughput_of (original_trains : list Train) : result Q :=
  match original_trains with
  | [] => Ok 0%Q
  | _ =>
      let time_span :=
        py_max (get_actual_departure <$> original_trains)
        - py_min (get_actual_arrival <$> original_trains) in
      py_div (inject_Z (Z.of_nat (length original_trains)))
             (total_seconds time_span / 3600)
  end.

Definition _calculate_metrics (original_trains optimized_trains : list Train)
    (sections : list TrackSection) : result Metrics :=
  let total_original_delay := py_sum (current_delay_minutes <$> original_trains) in
  let total_optimized_delay := py_sum (current_delay_minutes <$> optimized_trains) in
  let additional_delay := total_optimized_delay - total_original_delay in
  original_conflicts ← detect_conflicts original_trains sections;
  optimized_conflicts ← detect_conflicts optimized_trains sections;
  throughput ← throughput_of original_trains;
  let on_time_trains :=
    length (filter (λ t, current_delay_minutes t ≤ 5) optimized_trains) in
  let n_optimized := inject_Z (Z.of_nat (length optimized_trains)) in
  punctuality ←
    match optimized_trains with
    | [] => Ok 0%Q
    | _ => q ← py_div (inject_Z (Z.of_nat on_time_trains)) n_optimized;
           Ok (q * 100)%Q
    end;
  let n_original := Z.of_nat (length original_conflicts) in
  let n_remaining := Z.of_nat (length optimized_conflicts) in
  average ←
    match optimized_trains with
    | [] => Ok 0%Q
    | _ => py_div (inject_Z total_optimized_delay) n_optimized
    end;
  effectiveness ←
    py_div (inject_Z (n_original - n_remaining)) (inject_Z (Z.max n_original 1));
  Ok (mkMetrics
        (Z.of_nat (length original_trains))
        n_original
        n_remaining
        (n_original - n_remaining)
        total_original_delay
        total_optimized_delay
        additional_delay
        average
        (py_round throughput 2)
        (py_round punctuality 1)
        (py_round (effectiveness * 100) 1)).

Record OptimizeResult := mkOptimizeResult {
  optimized_trains : list Train;
  schedule : gmap string Schedule;
  metrics : Metrics;
  conflicts_remaining : list Conflict
}.

(** The sort key [(t.priority.value, t.get_actual_arrival())], compared as a
    tuple. *)
Definition train_key_leb (t1 t2 : Train) : bool :=
  bool_decide (value (priority t1) < value (priority t2))
  || (bool_decide (value (priority t1) = value (priority t2))
      && bool_decide (get_actual_arrival t1 ≤ get_actual_arrival t2)).

Definition optimize_schedule (trains : list Train) (sections : list TrackSection)
  : result OptimizeResult :=
  let working_trains := stable_sort train_key_leb trains in
  optimized_trains ← _apply_greedy_optimization working_trains sections;
  schedule ← _generate_optimized_schedule optimized_trains sections;
  metrics ← _calculate_metrics trains optimized_trains sections;
  conflicts_remaining ← detect_conflicts optimized_trains sections;
  Ok (mkOptimizeResult optimized_trains schedule metrics conflicts_remaining).

(** *** WhatIfAnalyzer

    The analyzer works on [copy.deepcopy(trains)]; the loops below are its
    [for train in scenario_trains: if train.train_id == train_id: ...; break],
    on the values of the copy, for a list that holds each train object once
    (the loop on the objects themselves is [delay_first_match_refs] below). *)

Fixpoint delay_first_match (tid : string) (additional_delay_minutes : Z)
    (scenario_trains : list Train) : list Train :=
  match scenario_trains with
  | [] => []
  | train :: rest =>
      if decide (train_id train = tid) then
        set_delay train (current_delay_minutes train + additional_delay_minutes) :: rest
      else train :: delay_first_match tid additional_delay_minutes rest
  end.

(** The loop of the priority scenario also records [original_priority],
    [None] until a train matches. *)
Fixpoint reprioritise_first_match (tid : string) (new_priority : TrainPriority)
    (scenario_trains : list Train) : option TrainPriority * list Train :=
  match scenario_trains with
  | [] => (None, [])
  | train :: rest =>
      if decide (train_id train = tid) then
        (Some (priority train), set_priority train new_priority :: rest)
      else
        let '(original_priority, rest') :=
          reprioritise_first_match tid new_priority rest in
        (original_priority, train :: rest')
  end.

(** The report dictionary of [analyze_delay_scenario]. *)
Definition delay_report (tid : string) (additional_delay_minutes : Z)
    (original_result scenario_result : OptimizeResult) : Report DelayImpact :=
  mkReport
    ("Train " +:+ tid +:+ " delayed by " +:+ pretty additional_delay_minutes
       +:+ " minutes")
    (metrics original_result)
    (metrics scenario_result)
    (mkDelayImpact
       (optimized_conflicts (metrics scenario_result)
        - optimized_conflicts (metrics original_result))
       (optimized_total_delay (metrics scenario_result)
        - optimized_total_delay (metrics original_result))
       (punctuality_percentage (metrics scenario_result)
        - punctuality_percentage (metrics original_result))%Q).

Definition analyze_delay_scenario (trains : list Train) (sections : list TrackSection)
    (tid : string) (additional_delay_minutes : Z) : result (Report DelayImpact) :=
  let scenario_trains := delay_first_match tid additional_delay_minutes trains in
  original_result ← optimize_schedule trains sections;
  scenario_result ← optimize_schedule scenario_trains sections;
  Ok (delay_report tid additional_delay_minutes original_result scenario_result).

(** [original_priority.name]: an attribute of [None] is an [AttributeError]. *)
Definition name_of (original_priority : option TrainPriority) : result string :=
  match original_priority with
  | Some p => Ok (priority_name p)
  | None => Raise (AttributeError "name")
  end.

Definition analyze_priority_change (trains : list Train) (sections : list TrackSection)
    (tid : string) (new_priority : TrainPriority) : result (Report PriorityImpact) :=
  let '(original_priority, scenario_trains) :=
    reprioritise_first_match tid new_priority trains in
  original_result ← optimize_schedule trains sections;
  scenario_result ← optimize_schedule scenario_trains sections;
  original_name ← name_of original_priority;
  Ok (mkReport
        ("Train " +:+ tid +:+ " priority changed from " +:+ original_name
           +:+ " to " +:+ priority_name new_priority)
        (metrics original_result)
        (metrics scenario_result)
        (mkPriorityImpact
           (optimized_conflicts (metrics scenario_result)
            - optimized_conflicts (metrics original_result))
           (optimized_total_delay (metrics scenario_result)
            - optimized_total_delay (metrics original_result))
           (punctuality_percentage (metrics scenario_result)
            - punctuality_percentage (metrics original_result))%Q)).

End Engine.

(** ** The sample data of [models.py], with the base time taken as 0. *)

Definition sample_SEC_004 : TrackSection :=
  mkTrackSection "SEC_004" "Main Line South" SINGLE_LINE 8 100 1 1.

Definition sample_sections : list TrackSection :=
  [ mkTrackSection "SEC_001" "Platform A" PLATFORM (1 # 2) 30 2 1;
    mkTrackSection "SEC_002" "Main Line North" DOUBLE_LINE 5 120 2 1;
    mkTrackSection "SEC_003" "Junction X" JUNCTION (1 # 5) 40 1 1;
    sample_SEC_004;
    mkTrackSection "SEC_005" "Platform B" PLATFORM (1 # 2) 30 2 1 ].

Definition sample_T001 : Train :=
  post_init (mkTrain "T001" "12345" EXPRESS HIGH
    ["SEC_001"; "SEC_002"; "SEC_003"; "SEC_004"; "SEC_005"]
    (hours 1) (hours 1 + minutes 30) None 0 100
    (list_to_map [("SEC_001", 5); ("SEC_002", 15); ("SEC_003", 5);
                  ("SEC_004", 20); ("SEC_005", 5)])).

Definition sample_T002 : Train :=
  post_init (mkTrain "T002" "56789" LOCAL MEDIUM
    ["SEC_005"; "SEC_004"; "SEC_003"; "SEC_002"; "SEC_001"]
    (hours 1 + minutes 15) (hours 1 + minutes 45) None 0 100
    (list_to_map [("SEC_005", 8); ("SEC_004", 25); ("SEC_003", 8);
                  ("SEC_002", 18); ("SEC_001", 8)])).

Definition sample_T003 : Train :=
  post_init (mkTrain "T003" "FR001" FREIGHT LOW
    ["SEC_001"; "SEC_002"; "SEC_004"; "SEC_005"]
    (hours 2) (hours 3) None 0 100
    (list_to_map [("SEC_001", 10); ("SEC_002", 30); ("SEC_004", 40);
                  ("SEC_005", 10)])).

Definition sample_trains : list Train := [sample_T001; sample_T002; sample_T003].

(** ** Train objects and references

    The definitions above work on train values. Python passes references to
    mutable [Train] objects, so what the optimizer does to the objects of its
    caller is stated on a store: a heap is the list of the objects allocated
    so far, a reference is an index into it, [copy.deepcopy] allocates, and
    an attribute assignment updates the object in place. The routes and the
    tables of section times are never updated by the engine and stay values
    inside the object. The parts of the optimizer that only read train
    attributes (the route loop, the schedule, the metrics, the detector) are
    the functions above, applied to the objects read from the heap. *)

Abbreviation loc := nat.
Abbreviation heap := (list Train).

#[global] Instance Train_inhabited : Inhabited Train :=
  populate (mkTrain "" "" LOCAL MEDIUM [] 0 0 None 0 0 ∅).

(** Reading the object behind a reference. *)
Definition deref (h : heap) (l : loc) : Train := h !!! l.

(** A new object. *)
Definition alloc (t : Train) (h : heap) : loc * heap := (length h, h ++ [t]).

(** [l.current_delay_minutes = d], in place. *)
Definition store_delay (l : loc) (d : Z) (h : heap) : heap :=
  <[l := set_delay (deref h l) d]> h.

(** [copy.deepcopy(trains)] of a list of trains: every distinct object is
    copied once, and the [memo] keeps the sharing inside the list. *)
Fixpoint deepcopy_trains (trains : list loc) (memo : gmap loc loc) (h : heap)
  : list loc * heap :=
  match trains with
  | [] => ([], h)
  | l :: rest =>
      match memo !! l with
      | Some l' =>
          let '(copies, h') := deepcopy_trains rest memo h in (l' :: copies, h')
      | None =>
          let '(l', h1) := alloc (deref h l) h in
          let '(copies, h') := deepcopy_trains rest (<[l := l']> memo) h1 in
          (l' :: copies, h')
      end
  end.

(** The result of the optimizer, with references for [optimized_trains]; the
    schedule, the metrics and the remaining conflicts are computed from the
    objects as they are when the call returns. *)
Record OptimizeResultRefs := mkOptimizeResultRefs {
  optimized_train_refs : list loc;
  optimize_result : OptimizeResult
}.

Section Store.
Variable safety_margin_minutes : Z.

Definition _optimize_single_train_refs (train : loc) (scheduled_trains : list loc)
    (sections : gmap string TrackSection) (h : heap) : result loc * heap :=
  let '(optimized_train, h) := alloc (deref h train) h in
  match route_delay safety_margin_minutes (deref h train)
          (deref h <$> scheduled_trains) sections with
  | Ok total_delay_added =>
      if decide (total_delay_added > 0) then
        (Ok optimized_train,
         store_delay optimized_train
           (current_delay_minutes (deref h train) + total_delay_added) h)
      else (Ok optimized_train, h)
  | Raise e => (Raise e, h)
  end.

(** The loop of [_apply_greedy_optimization] over [enumerate(trains)]. *)
Fixpoint greedy_loop_refs (section_dict : gmap string TrackSection)
    (its : list (nat * loc)) (optimized_trains : list loc) (h : heap)
  : result (list loc) * heap :=
  match its with
  | [] => (Ok optimized_trains, h)
  | (i, train) :: rest =>
      if decide (i = 0%nat) then
        greedy_loop_refs section_dict rest (optimized_trains ++ [train]) h
      else
        match _optimize_single_train_refs train optimized_trains section_dict h with
        | (Ok optimized_train, h) =>
            greedy_loop_refs section_dict rest (optimized_trains ++ [optimized_train]) h
        | (Raise e, h) => (Raise e, h)
        end
  end.

Definition _apply_greedy_optimization_refs (trains : list loc)
    (sections : list TrackSection) (h : heap) : result (list loc) * heap :=
  greedy_loop_refs (section_dict_of sections) (imap pair trains) [] h.

Definition optimize_schedule_refs (trains : list loc) (sections : list TrackSection)
    (h : heap) : result OptimizeResultRefs * heap :=
  let '(working_trains, h) := deepcopy_trains trains ∅ h in
  let working_trains :=
    stable_sort (λ l1 l2, train_key_leb (deref h l1) (deref h l2)) working_trains in
  match _apply_greedy_optimization_refs working_trains sections h with
  | (Raise e, h) => (Raise e, h)
  | (Ok optimized_trains, h) =>
      (schedule ←
         _generate_optimized_schedule (deref h <$> optimized_trains) sections;
       metrics ←
         _calculate_metrics safety_margin_minutes (deref h <$> trains)
           (deref h <$> optimized_trains) sections;
       conflicts_remaining ←
         detect_conflicts safety_margin_minutes (deref h <$> optimized_trains) sections;
       Ok (mkOptimizeResultRefs optimized_trains
             (mkOptimizeResult (deref h <$> optimized_trains) schedule metrics
                conflicts_remaining)),
       h)
  end.

(** The loop [for train in scenario_trains: if train.train_id == train_id:
    train.current_delay_minutes += additional_delay_minutes; break], on the
    objects of the copy. *)
Fixpoint delay_first_match_refs (tid : string) (additional_delay_minutes : Z)
    (scenario_trains : list loc) (h : heap) : heap :=
  match scenario_trains with
  | [] => h
  | train :: rest =>
      if decide (train_id (deref h train) = tid) then
        store_delay train
          (current_delay_minutes (deref h train) + additional_delay_minutes) h
      else delay_first_match_refs tid additional_delay_minutes rest h
  end.

Definition analyze_delay_scenario_refs (trains : list loc)
    (sections : list TrackSection) (tid : string) (additional_delay_minutes : Z)
    (h : heap) : result (Report DelayImpact) * heap :=
  let '(scenario_trains, h) := deepcopy_trains trains ∅ h in
  let h := delay_first_match_refs tid additional_delay_minutes scenario_trains h in
  match optimize_schedule_refs trains sections h with
  | (Raise e, h) => (Raise e, h)
  | (Ok original_result, h) =>
      match optimize_schedule_refs scenario_trains sections h with
      | (Raise e, h) => (Raise e, h)
      | (Ok scenario_result, h) =>
          (Ok (delay_report tid additional_delay_minutes
                 (optimize_result original_result) (optimize_result scenario_result)),
           h)
      end
  end.

End Store.

(** The heap [h'] keeps every object of [h0] as it is. *)
Definition frame (h0 h' : heap) : Prop :=
  ∀ (l : loc) (t : Train), h0 !! l = Some t → h' !! l = Some t.

(** The reference [l] is to an object of [h'] that [h0] does not have. *)
Definition fresh_in (h0 h' : heap) (l : loc) : Prop :=
  h0 !! l = None ∧ is_Some (h' !! l).

(** ** Auxiliary definitions used in the statements *)

(** The severity before the clamp, as a sum of the four contributions. *)
Definition priority_bonus (train1 train2 : Train) : Z :=
  let min_priority := Z.min (value (priority train1)) (value (priority train2)) in
  if decide (min_priority = 1) then 2 else if decide (min_priority = 2) then 1 else 0.

Definition section_bonus section : Z :=
  match section_type section with
  | JUNCTION | SINGLE_LINE => 1
  | _ => 0
  end.

Definition duration_bonus (td : timedelta) : Z :=
  (if bool_decide (minutes 30 < td) then 1 else 0)
  + (if bool_decide (minutes 60 < td) then 1 else 0).

(** What optimization does to one train: nothing but a new, larger or equal,
    delay. *)
Definition delayed (w o : Train) : Prop :=
  o = set_delay w (current_delay_minutes o) ∧
  current_delay_minutes w ≤ current_delay_minutes o.

(** Whole minutes of a time difference, truncated towards zero. *)
Definition whole_minutes (td : timedelta) : Z := td ÷ 60000000.

(** The largest element of a list, and 0 for the empty list or when all are
    negative; the sum of a list. *)
Definition max_list_Z (l : list Z) : Z := foldr Z.max 0 l.
Definition sum_list_Z (l : list Z) : Z := foldr Z.add 0 l.

(** The already scheduled train [s] makes [train] wait in section [sid] for
    the planned window [ps, pe]: it runs through the section, the windows
    overlap by the test of [_sections_overlap], and [train] has the strictly
    greater priority ordinal. *)
Definition must_yield (margin : Z) (train : Train) (sid : string)
    (ps pe : datetime) (section : TrackSection) (s : Train) : Prop :=
  sid ∈ route s ∧
  _sections_overlap ps pe (scheduled_window s sid).1 (scheduled_window s sid).2
    (minutes margin) section = true ∧
  value (priority train) > value (priority s).

#[global] Instance must_yield_dec margin train sid ps pe section s :
  Decision (must_yield margin train sid ps pe section s).
Proof. unfold must_yield. apply _. Defined.

(** [(other.end + margin) - mine.start], in microseconds. *)
Definition wait_for (margin : Z) (sid : string) (ps : datetime) (s : Train) : timedelta :=
  (scheduled_window s sid).2 + minutes margin - ps.

(** The loop of [_calculate_required_delay], in microseconds. *)
Definition wait_step (margin : Z) (train : Train) (sid : string) (ps pe : datetime)
    (section : TrackSection) (m : timedelta) (s : Train) : timedelta :=
  if decide (must_yield margin train sid ps pe section s)
  then Z.max m (wait_for margin sid ps s) else m.

(** Some conflict of the list names the same pair and section as [c']. *)
Definition covered (conflicts : list Conflict) (c' : Conflict) : Prop :=
  ∃ c, c ∈ conflicts ∧ same_conflict c c' = true.

(** Every reference of the list is to an object of the heap. *)
Definition valid (h : heap) (ls : list loc) : Prop :=
  Forall (λ l, (l < length h)%nat) ls.

(** The required delays that the route loop of [_optimize_single_train] sees,
    section by section, when [acc] minutes have been accumulated before the
    first of them: the planned start of a section is the effective arrival
    plus twice the accumulated delay ([current_arrival] already contains it
    and [section_start_time] adds it again). *)
Fixpoint required_delays (margin : Z) (train : Train) (scheduled : list Train)
    (sd : gmap string TrackSection) (acc : Z) (rt : list string) : list Z :=
  match rt with
  | [] => []
  | sid :: rest =>
      match sd !! sid with
      | Some section =>
          let start := get_actual_arrival train + minutes (2 * acc) in
          let d :=
            _calculate_required_delay margin train sid start
              (start + minutes (section_time train sid)) scheduled section in
          d :: required_delays margin train scheduled sd (acc + d) rest
      | None => []
      end
  end.

(** The conflict [c] is emitted for the pair of entries [i], [j] of a section's
    timeline: the entries differ, overlap once the margin is added, the number
    of entries other than [i] that overlap entry [i] reaches the capacity, and
    the actual overlap window is not empty. *)
Definition emitted_by (margin : Z) (train_times : list Occupancy)
    (section : TrackSection) (c : Conflict) : Prop :=
  ∃ (i j : nat) (t1 t2 : Train) (s1 e1 s2 e2 : datetime),
    train_times !! i = Some (t1, s1, e1) ∧
    train_times !! j = Some (t2, s2, e2) ∧
    i ≠ j ∧
    overlaps_with_margin margin s1 e1 s2 e2 = true ∧
    Z.of_nat (length (overlapping_from margin i 0 s1 e1 train_times))
      >= capacity section ∧
    _create_conflict t1 t2 section s1 e1 s2 e2 = Some c.

(** No two conflicts of the list name the same unordered pair of train ids in
    the same section. *)
Definition no_duplicate_pairs (conflicts : list Conflict) : Prop :=
  ∀ (i j : nat) (ci cj : Conflict),
    conflicts !! i = Some ci → conflicts !! j = Some cj →
    same_conflict ci cj = true → i = j.

(** Reading an insertion-ordered dictionary of lists; a missing key reads as
    the empty list. *)
Fixpoint odict_get {V} (k : string) (d : list (string * list V)) : list V :=
  match d with
  | [] => []
  | (k', vs) :: d' => if decide (k' = k) then vs else odict_get k d'
  end.

(** The timeline entries that walking the route [rt] from [current_time] adds
    for section [sid]. *)
Fixpoint route_entries (train : Train) (sid : string) (current_time : datetime)
    (rt : list string) : list Occupancy :=
  match rt with
  | [] => []
  | s :: rest =>
      let end_time := current_time + minutes (section_time train s) in
      (if decide (s = sid) then [(train, current_time, end_time)] else [])
      ++ route_entries train sid end_time rest
  end.

(** Trains and sections of the worked examples. *)

Definition plain_train (tid : string) (p : TrainPriority) (rt : list string)
    (arrival departure : datetime) : Train :=
  post_init (mkTrain tid tid LOCAL p rt arrival departure None 0 100 ∅).

Definition timed_train (tid : string) (p : TrainPriority) (rt : list string)
    (arrival departure : datetime) (times : list (string * Z)) : Train :=
  post_init (mkTrain tid tid LOCAL p rt arrival departure None 0 100
               (list_to_map times)).

(** A strong train whose second section takes fifty minutes, and a weak one
    on the same route at the same time. *)
Definition slow_express : Train :=
  timed_train "A" HIGH ["S1"; "S2"] 0 (hours 1) [("S1", 10); ("S2", 50)].

Definition follower : Train :=
  plain_train "B" LOW ["S1"; "S2"] 0 (hours 1).

Definition plain_section (sid : string) (ty : SectionType) (cap : Z) : TrackSection :=
  mkTrackSection sid sid ty 1 100 cap 1.

Definition two_platforms : list TrackSection :=
  [plain_section "S1" PLATFORM 1; plain_section "S2" PLATFORM 1].

(** ** Auxiliary definitions of the further properties *)

(** What every conflict of a detection run looks like. *)
Definition well_formed_conflict (trains : list Train) (sections : list TrackSection)
    (c : Conflict) : Prop :=
  train1 c ∈ trains ∧ train2 c ∈ trains ∧
  conflict_section_id c ∈ route (train1 c) ∧
  conflict_section_id c ∈ route (train2 c) ∧
  is_Some (section_dict_of sections !! conflict_section_id c) ∧
  conflict_start_time c < conflict_end_time c ∧
  0 ≤ duration_minutes c ∧
  resolution c = None.

(** The two windows do not overlap. *)
Definition disjoint_windows (x y : Occupancy) : Prop :=
  x.2 ≤ y.1.2 ∨ y.2 ≤ x.1.2.

(** Any two entries at different positions satisfy [R]. *)
Definition pairwise {A} (R : A → A → Prop) (l : list A) : Prop :=
  ∀ (i j : nat) (a b : A), l !! i = Some a → l !! j = Some b → i ≠ j → R a b.

(** Every section on a route of the list is a section of the dictionary. *)
Definition known_routes (sd : gmap string TrackSection) (trains : list Train) : Prop :=
  ∀ t sid, t ∈ trains → sid ∈ route t → is_Some (sd !! sid).

(** The slot that [add_train_slot] records for a timeline entry. *)
Definition slot_of (x : Occupancy) : Slot :=
  mkSlot (train_id x.1.1) (train_number x.1.1) (train_type x.1.1)
    (value (priority x.1.1)) x.1.2 x.2.

(** A schedule with more slots at the end. *)
Definition extend_schedule (sch : Schedule) (slots : list Slot) : Schedule :=
  mkSchedule (schedule_section_id sch) (train_slots sch ++ slots)
    (schedule_conflicts sch) (optimized sch).

(** The entries of section [sid] that the trains of the list add, train by
    train. *)
Definition all_route_entries (trains : list Train) (sid : string) : list Occupancy :=
  concat ((λ t, route_entries t sid (get_actual_arrival t) (route t)) <$> trains).

(** A list in which every element is related to all the later ones. *)
Fixpoint ordered {A} (R : A → A → Prop) (l : list A) : Prop :=
  match l with
  | [] => True
  | x :: l' => Forall (R x) l' ∧ ordered R l'
  end.

(** The span [max(departures) - min(arrivals)] of [_calculate_metrics]. *)
Definition time_span (trains : list Train) : timedelta :=
  py_max (get_actual_departure <$> trains) - py_min (get_actual_arrival <$> trains).

(** ** conflict_detector.py: [ConflictResolver]

    [==] on two trains compares the fields of the dataclass. *)

#[global] Instance TrainType_eq_dec : EqDecision TrainType.
Proof. solve_decision. Defined.

#[global] Instance TrainPriority_eq_dec : EqDecision TrainPriority.
Proof. solve_decision. Defined.

#[global] Instance Train_eq_dec : EqDecision Train.
Proof. solve_decision. Defined.

(** The two trains that [_suggest_delay_resolution] picks. *)
Definition lower_priority_train (conflict : Conflict) : Train :=
  if decide (value (priority (train1 conflict)) < value (priority (train2 conflict)))
  then train2 conflict else train1 conflict.

Definition higher_priority_train (conflict : Conflict) : Train :=
  if decide (lower_priority_train conflict = train2 conflict)
  then train1 conflict else train2 conflict.

Definition _suggest_delay_resolution (conflict : Conflict) : list string :=
  let suggestions := [] in
  let delay_minutes := duration_minutes conflict + 5 in
  suggestions ++
    ["Delay train " +:+ train_number (lower_priority_train conflict) +:+ " by "
       +:+ pretty delay_minutes +:+ " minutes "
       +:+ "to give precedence to higher priority train "
       +:+ train_number (higher_priority_train conflict)].

Definition _suggest_route_resolution (conflict : Conflict) : list string :=
  let suggestions := [] in
  suggestions ++
    ["Consider alternative routing for one of the trains to avoid section "
       +:+ conflict_section_id conflict].

Definition _suggest_speed_resolution (conflict : Conflict) : list string :=
  let suggestions := [] in
  suggestions ++
    ["Adjust speed of trains to minimize overlap in section "
       +:+ conflict_section_id conflict].

(** The body of the loop of [suggest_resolutions]. *)
Definition suggestions_for (conflict : Conflict) : list string :=
  let suggestions := [] in
  if decide (severity conflict >= 4) then
    let suggestions := suggestions ++ _suggest_delay_resolution conflict in
    suggestions ++ _suggest_route_resolution conflict
  else
    let suggestions := suggestions ++ _suggest_speed_resolution conflict in
    suggestions ++ _suggest_delay_resolution conflict.

(** [suggest_resolutions], on conflicts given with their [conflict_id] (the
    field that the record [Conflict] leaves out): the result is keyed by the
    id, and a later conflict with the same id replaces an earlier one. *)
Definition suggest_resolutions (conflicts : list (string * Conflict))
  : gmap string (list string) :=
  foldl (λ resolutions '(conflict_id, conflict),
           <[conflict_id := suggestions_for conflict]> resolutions)
        ∅ conflicts.

(** ** models.py: [SectionController] *)

Module SectionController.

Record t := mk {
  controller_id : string;
  name : string;
  sections : list TrackSection;
  active_trains : list Train;
  schedule : option Schedule
}.

Definition add_train (c : t) (train : Train) : t :=
  mk (controller_id c) (name c) (sections c) (active_trains c ++ [train]) (schedule c).

Definition remove_train (c : t) (tid : string) : t :=
  mk (controller_id c) (name c) (sections c)
    (filter (λ train, train_id train ≠ tid) (active_trains c)) (schedule c).

(** [next((s for s in self.sections if s.section_id == section_id), None)] *)
Definition get_section_by_id (c : t) (sid : string) : option TrackSection :=
  head (filter (λ s, section_id s = sid) (sections c)).

End SectionController.

Definition create_sample_section : SectionController.t :=
  SectionController.mk "CTRL_001" "Central Section" sample_sections [] None.

(** ** Auxiliary definitions on the traversal of a timeline *)

(** The conflicts that the two loops of [_detect_section_conflicts] come to,
    in the order in which they come to them (entry [i] ascending, and for
    each [i] its overlapping entries in timeline order), before the test of
    [_conflict_exists]. *)
Definition candidate_conflicts (margin : Z) (train_times : list Occupancy)
    (section : TrackSection) : list Conflict :=
  mjoin (imap (λ (i : nat) (x : Occupancy),
                 let overlapping_trains :=
                   overlapping_from margin i 0 x.1.2 x.2 train_times in
                 if decide (Z.of_nat (length overlapping_trains) >= capacity section)
                 then omap (λ y : Occupancy,
                              _create_conflict x.1.1 y.1.1 section x.1.2 x.2 y.1.2 y.2)
                        overlapping_trains
                 else [])
              train_times).

(** The entries of a list of conflicts that no earlier entry names the same
    unordered pair of train ids and the same section as. *)
Definition first_of_each_pair (l : list Conflict) : list Conflict :=
  snd <$> filter (λ kc : nat * Conflict,
                    Forall (λ c', same_conflict c' kc.2 = false) (take kc.1 l))
            (imap pair l).

(** ** Auxiliary definitions on the objects of a delay scenario *)

(** The first object of the list whose train carries the id. *)
Definition first_with_id (h : heap) (tid : string) (trains : list loc) : option loc :=
  head (filter (λ l, train_id (deref h l) = tid) trains).

(** The number of entries of the list that are the object to which the loop
    of [analyze_delay_scenario] adds the delay: the entries that are the same
    object as the first one whose train carries the id, and none when no
    train carries it. *)
Definition delayed_entries (h : heap) (tid : string) (trains : list loc) : Z :=
  match first_with_id h tid trains with
  | Some l0 => Z.of_nat (length (filter (λ l, l = l0) trains))
  | None => 0
  end.

(** * Properties *)

(** ** Loops *)

Lemma foldl_invariant {A S} (P : S → Prop) (f : S → A → S) (l : list A) (s : S) :
  (∀ s x, x ∈ l → P s → P (f s x)) → P s → P (foldl f s l).
Proof.
  revert s; induction l as [|x l IH]; intros s Hstep Hs; simpl; [done|].
  apply IH.
  - intros s' y Hy. apply Hstep. by right.
  - apply Hstep; [by left | done].
Qed.

Lemma foldM_invariant {A S} (P : S → Prop) (body : S → A → result S)
    (l : list A) (s s' : S) :
  (∀ s x s', x ∈ l → P s → body s x = Ok s' → P s') →
  P s → foldM body l s = Ok s' → P s'.
Proof.
  revert s; induction l as [|x l IH]; intros s Hstep Hs Hrun; simpl in Hrun.
  - by injection Hrun as <-.
  - destruct (body s x) as [s1|e] eqn:Hb; simpl in Hrun; [|done].
    apply (IH s1); [| |done].
    + intros s2 y s3 Hy. apply Hstep. by right.
    + apply (Hstep s x); [by left | done | done].
Qed.

Lemma bind_Ok {A B} (m : result A) (k : A → result B) (b : B) :
  (m ≫= k) = Ok b ↔ ∃ a, m = Ok a ∧ k a = Ok b.
Proof.
  destruct m as [a|e]; simpl; split.
  - intros H. by exists a.
  - by intros (a' & [= ->] & H).
  - done.
  - by intros (a' & ? & _).
Qed.

(** ** Arithmetic of the float expressions *)

Lemma Qltb_lt (x y : Q) : Qltb x y = true ↔ (x < y)%Q.
Proof.
  unfold Qltb. rewrite Qlt_alt. destruct (x ?= y)%Q; split; congruence.
Qed.

(** [n < td.total_seconds() / 60] for a whole number [n] of minutes. *)
Lemma Qltb_duration (n : Z) (td : timedelta) :
  Qltb (inject_Z n) (total_seconds td / 60) = bool_decide (minutes n < td).
Proof.
  apply eq_true_iff_eq. rewrite Qltb_lt, bool_decide_eq_true.
  unfold Qlt, total_seconds, minutes, Qdiv, Qmult, Qinv, inject_Z; simpl. lia.
Qed.

(** ** Severity *)

Section Severity.
Implicit Types (section : TrackSection).

Lemma severity_range (train1 train2 : Train) (s e : datetime) section :
  2 ≤ _calculate_conflict_severity train1 train2 s e section ≤ 5.
Proof.
  unfold _calculate_conflict_severity.
  repeat case_decide; repeat case_match; lia.
Qed.

Lemma severity_sum (train1 train2 : Train) (s e : datetime) section :
  _calculate_conflict_severity train1 train2 s e section
  = Z.min (2 + priority_bonus train1 train2 + duration_bonus (e - s)
           + section_bonus section) 5.
Proof.
  unfold _calculate_conflict_severity, priority_bonus, duration_bonus, section_bonus.
  change 30%Q with (inject_Z 30). change 60%Q with (inject_Z 60).
  rewrite !Qltb_duration.
  repeat case_decide; repeat case_bool_decide; repeat case_match; lia.
Qed.

End Severity.

(** C9, as stated, fails at the clamp: a conflict that involves a critical
    train in a junction has severity 5 at ten minutes already, so crossing
    the thirty-minute threshold cannot add 1. *)
Lemma severity_threshold_clamped :
  let a := plain_train "A" CRITICAL ["J"] 0 0 in
  let b := plain_train "B" LOW ["J"] 0 0 in
  let j := plain_section "J" JUNCTION 1 in
  (minutes 10 - 0 ≤ minutes 30 < minutes 40 - 0) ∧
  _calculate_conflict_severity a b 0 (minutes 10) j = 5 ∧
  _calculate_conflict_severity a b 0 (minutes 40) j = 5 ∧
  ¬ (_calculate_conflict_severity a b 0 (minutes 10) j + 1
     ≤ _calculate_conflict_severity a b 0 (minutes 40) j).
Proof. vm_compute. repeat split; congruence. Qed.

(** C9 (amended): with the two trains and the section fixed, crossing the
    thirty-minute or the sixty-minute threshold never lowers the severity,
    the severity never exceeds 5, and it rises by at least 1 whenever it was
    below 5 before the threshold. *)
Theorem severity_threshold_monotone (train1 train2 : Train) (section : TrackSection)
    (s e s' e' : datetime) :
  e - s ≤ minutes 30 < e' - s' ∨
  (minutes 30 < e - s ≤ minutes 60 ∧ minutes 60 < e' - s') →
  _calculate_conflict_severity train1 train2 s e section
    ≤ _calculate_conflict_severity train1 train2 s' e' section ≤ 5 ∧
  (_calculate_conflict_severity train1 train2 s e section < 5 →
   _calculate_conflict_severity train1 train2 s e section + 1
     ≤ _calculate_conflict_severity train1 train2 s' e' section).
Proof.
  intros Hd. rewrite !severity_sum. unfold duration_bonus.
  assert (0 ≤ priority_bonus train1 train2 ≤ 2) by
    (unfold priority_bonus; repeat case_decide; lia).
  assert (0 ≤ section_bonus section ≤ 1) by
    (unfold section_bonus; repeat case_match; lia).
  unfold minutes in *. repeat case_bool_decide; lia.
Qed.

Lemma severity_threshold_monotone_witness :
  let a := plain_train "A" MEDIUM ["P"] 0 0 in
  let b := plain_train "B" LOW ["P"] 0 0 in
  let p := plain_section "P" PLATFORM 1 in
  _calculate_conflict_severity a b 0 (minutes 10) p
    ≤ _calculate_conflict_severity a b 0 (minutes 40) p ≤ 5 ∧
  (_calculate_conflict_severity a b 0 (minutes 10) p < 5 →
   _calculate_conflict_severity a b 0 (minutes 10) p + 1
     ≤ _calculate_conflict_severity a b 0 (minutes 40) p).
Proof.
  intros a b p.
  apply (severity_threshold_monotone a b p 0 (minutes 10) 0 (minutes 40)).
  left. unfold minutes. lia.
Defined.

(** ** Conflicts of the detector *)

Section Detector.
Variable margin : Z.
Implicit Types (section : TrackSection) (conflicts : list Conflict).

Lemma _create_conflict_severity (t1 t2 : Train) section (s1 e1 s2 e2 : datetime) c :
  _create_conflict t1 t2 section s1 e1 s2 e2 = Some c → 2 ≤ severity c ≤ 5.
Proof.
  unfold _create_conflict. case_decide; [done|]. intros [= <-]; simpl.
  apply severity_range.
Qed.

Lemma add_conflicts_Forall (P : Conflict → Prop) (t1 : Train) (s1 e1 : datetime)
    section (over : list Occupancy) conflicts :
  (∀ t2 s2 e2 c, (t2, s2, e2) ∈ over →
     _create_conflict t1 t2 section s1 e1 s2 e2 = Some c → P c) →
  Forall P conflicts → Forall P (add_conflicts t1 s1 e1 section over conflicts).
Proof.
  intros Hc. unfold add_conflicts. apply foldl_invariant.
  intros cs [[t2 s2] e2] Hin Hcs. unfold add_conflict_step.
  destruct (_create_conflict t1 t2 section s1 e1 s2 e2) as [c|] eqn:E; [|done].
  destruct (_conflict_exists cs c); [done|].
  apply Forall_app; split; [done|]. constructor; [|constructor]. eauto.
Qed.

Lemma _detect_section_conflicts_Forall (P : Conflict → Prop)
    (train_times : list Occupancy) section :
  (∀ t1 t2 s1 e1 s2 e2 c,
     _create_conflict t1 t2 section s1 e1 s2 e2 = Some c → P c) →
  Forall P (_detect_section_conflicts margin train_times section).
Proof.
  intros Hc. unfold _detect_section_conflicts.
  apply (foldl_invariant (Forall P)); [|constructor].
  intros cs [i [[t1 s1] e1]] _ Hcs. unfold detect_entry.
  case_decide; [|done]. apply add_conflicts_Forall; eauto.
Qed.

Lemma detect_conflicts_Forall (P : Conflict → Prop) (trains : list Train)
    (sections : list TrackSection) conflicts :
  (∀ t1 t2 section s1 e1 s2 e2 c,
     _create_conflict t1 t2 section s1 e1 s2 e2 = Some c → P c) →
  detect_conflicts margin trains sections = Ok conflicts → Forall P conflicts.
Proof.
  intros Hc. unfold detect_conflicts.
  apply (foldM_invariant (Forall P)); [|constructor].
  intros cs [sid tt] cs' _ Hcs Hb.
  apply bind_Ok in Hb as (section & _ & [= <-]).
  apply Forall_app; split; [done|].
  apply _detect_section_conflicts_Forall. eauto.
Qed.

(** C10: every conflict that [detect_conflicts] emits has a severity between
    2 and 5; the documented minimum 1 is never produced. *)
Theorem detected_severity_range (trains : list Train) (sections : list TrackSection)
    conflicts :
  detect_conflicts margin trains sections = Ok conflicts →
  Forall (λ c, 2 ≤ severity c ≤ 5) conflicts.
Proof.
  apply detect_conflicts_Forall. intros. by eapply _create_conflict_severity.
Qed.

End Detector.

Lemma detected_severity_range_witness :
  ∃ conflicts,
    detect_conflicts 5 sample_trains sample_sections = Ok conflicts ∧
    length conflicts = 1%nat ∧
    Forall (λ c, 2 ≤ severity c ≤ 5) conflicts.
Proof.
  destruct (detect_conflicts 5 sample_trains sample_sections) as [cs|e] eqn:E;
    [|by vm_compute in E].
  exists cs. split; [done|]. split.
  - vm_compute in E. by injection E as <-.
  - by apply (detected_severity_range 5 sample_trains sample_sections).
Defined.

(** ** The conflict summary *)

(** C6, on the code: the summary of an empty conflict list has the four keys
    [total_conflicts], [severity_breakdown], [sections_affected] and
    [trains_affected] but no [critical_conflicts], which every non-empty
    list gets, with the number of conflicts of severity 4 or more. *)
Theorem summary_critical_key :
  get_conflict_summary [] !! "critical_conflicts" = None ∧
  get_conflict_summary [] !! "total_conflicts" = Some (VInt 0) ∧
  get_conflict_summary [] !! "severity_breakdown" = Some (VBreakdown ∅) ∧
  get_conflict_summary [] !! "sections_affected" = Some (VNames ∅) ∧
  get_conflict_summary [] !! "trains_affected" = Some (VNames ∅) ∧
  ∀ c cs,
    get_conflict_summary (c :: cs) !! "critical_conflicts"
    = Some (VInt (Z.of_nat (length (filter (λ c, severity c >= 4) (c :: cs))))) ∧
    get_conflict_summary (c :: cs) !! "total_conflicts"
    = Some (VInt (Z.of_nat (length (c :: cs)))).
Proof.
  repeat split; done.
Qed.

(** ** Throughput *)

Lemma total_seconds_zero (td : timedelta) :
  Qeq_bool (total_seconds td / 3600) 0 = bool_decide (td = 0).
Proof.
  apply eq_true_iff_eq. rewrite Qeq_bool_iff, bool_decide_eq_true.
  unfold Qeq, total_seconds, Qdiv, Qmult, Qinv, inject_Z; simpl. lia.
Qed.

(** The one division of the metrics that can fail: a non-empty train list
    whose latest effective departure is its earliest effective arrival. *)
Lemma throughput_of_raises (trains : list Train) :
  throughput_of trains = Raise ZeroDivisionError ↔
  trains ≠ [] ∧
  py_max (get_actual_departure <$> trains) = py_min (get_actual_arrival <$> trains).
Proof.
  destruct trains as [|t l]; [by split; [|intros []]|].
  unfold throughput_of, py_div. rewrite total_seconds_zero.
  case_bool_decide; split; try done; intros; try lia.
  split; [done|lia].
Qed.

Lemma throughput_of_empty : throughput_of [] = Ok 0%Q.
Proof. done. Qed.

(** C5, on the code: for a single train whose scheduled departure equals its
    scheduled arrival the metrics computation divides by a zero span and
    [optimize_schedule] ends in [ZeroDivisionError]. *)
Theorem throughput_zero_span_raises :
  let t := plain_train "A" MEDIUM ["P"] (hours 1) (hours 1) in
  let p := plain_section "P" PLATFORM 1 in
  scheduled_departure t = scheduled_arrival t ∧
  throughput_of [t] = Raise ZeroDivisionError ∧
  optimize_schedule 5 [t] [p] = Raise ZeroDivisionError.
Proof. by vm_compute. Qed.

(** ** What-if analysis *)

Section WhatIf.
Variable margin : Z.

Lemma set_delay_same (t : Train) : set_delay t (current_delay_minutes t) = t.
Proof. by destruct t. Qed.

Lemma delay_first_match_zero (tid : string) (trains : list Train) :
  delay_first_match tid 0 trains = trains.
Proof.
  induction trains as [|t l IH]; simpl; [done|].
  case_decide; [|by rewrite IH].
  by rewrite Z.add_0_r, set_delay_same.
Qed.

Lemma delay_first_match_absent (tid : string) (extra : Z) (trains : list Train) :
  Forall (λ t, train_id t ≠ tid) trains → delay_first_match tid extra trains = trains.
Proof.
  induction 1 as [|t l Ht _ IH]; simpl; [done|].
  case_decide; [done|]. by rewrite IH.
Qed.

Lemma reprioritise_first_match_absent (tid : string) (p : TrainPriority)
    (trains : list Train) :
  Forall (λ t, train_id t ≠ tid) trains →
  reprioritise_first_match tid p trains = (None, trains).
Proof.
  induction 1 as [|t l Ht _ IH]; simpl; [done|].
  case_decide; [done|]. by rewrite IH.
Qed.

(** The report of a scenario whose train set is the original one. *)
Lemma analyze_delay_scenario_same (trains : list Train) (sections : list TrackSection)
    (tid : string) (extra : Z) :
  delay_first_match tid extra trains = trains →
  match optimize_schedule margin trains sections with
  | Ok r =>
      ∃ rep, analyze_delay_scenario margin trains sections tid extra = Ok rep ∧
             original_metrics rep = metrics r ∧
             scenario_metrics rep = metrics r ∧
             additional_conflicts (impact rep) = 0 ∧
             additional_system_delay (impact rep) = 0 ∧
             (punctuality_impact (impact rep) == 0)%Q
  | Raise e => analyze_delay_scenario margin trains sections tid extra = Raise e
  end.
Proof.
  intros Hsame. unfold analyze_delay_scenario. rewrite Hsame.
  destruct (optimize_schedule margin trains sections) as [r|e]; simpl; [|done].
  eexists; split; [done|]. simpl. repeat split; try lia. ring.
Qed.

(** C4 (amended): for a [train_id] that no train of the set carries,
    [analyze_priority_change] never returns a report (it ends in the
    optimizer's error, or in [AttributeError] on the missing original
    priority), while [analyze_delay_scenario] makes no check: it fails only
    if the optimizer fails on the unchanged set, and otherwise returns the
    comparison of that set with itself, all deltas zero. *)
Theorem unknown_train_id (trains : list Train) (sections : list TrackSection)
    (tid : string) :
  Forall (λ t, train_id t ≠ tid) trains →
  (∀ new_priority,
     analyze_priority_change margin trains sections tid new_priority
     = match optimize_schedule margin trains sections with
       | Ok _ => Raise (AttributeError "name")
       | Raise e => Raise e
       end) ∧
  (∀ extra,
     match optimize_schedule margin trains sections with
     | Ok r =>
         ∃ rep, analyze_delay_scenario margin trains sections tid extra = Ok rep ∧
                original_metrics rep = metrics r ∧
                scenario_metrics rep = metrics r ∧
                additional_conflicts (impact rep) = 0 ∧
                additional_system_delay (impact rep) = 0 ∧
                (punctuality_impact (impact rep) == 0)%Q
     | Raise e => analyze_delay_scenario margin trains sections tid extra = Raise e
     end).
Proof.
  intros Habs. split.
  - intros p. unfold analyze_priority_change.
    rewrite (reprioritise_first_match_absent _ _ _ Habs).
    by destruct (optimize_schedule margin trains sections).
  - intros extra. apply analyze_delay_scenario_same.
    by apply delay_first_match_absent.
Qed.

(** C8 (amended): with [additional_delay_minutes = 0] the scenario is the
    original train set, so whenever the optimizer succeeds on it the report
    carries the same metrics twice and its three deltas are zero, whether or
    not [train_id] names a train; when the optimizer fails, the analysis fails
    with the same error. *)
Theorem zero_delay_scenario (trains : list Train) (sections : list TrackSection)
    (tid : string) :
  match optimize_schedule margin trains sections with
  | Ok r =>
      ∃ rep, analyze_delay_scenario margin trains sections tid 0 = Ok rep ∧
             original_metrics rep = metrics r ∧
             scenario_metrics rep = metrics r ∧
             additional_conflicts (impact rep) = 0 ∧
             additional_system_delay (impact rep) = 0 ∧
             (punctuality_impact (impact rep) == 0)%Q
  | Raise e => analyze_delay_scenario margin trains sections tid 0 = Raise e
  end.
Proof. apply analyze_delay_scenario_same, delay_first_match_zero. Qed.

End WhatIf.

Lemma unknown_train_id_witness :
  Forall (λ t, train_id t ≠ "T00X") sample_trains ∧
  analyze_priority_change 5 sample_trains sample_sections "T00X" LOW
  = Raise (AttributeError "name").
Proof.
  assert (H : Forall (λ t, train_id t ≠ "T00X") sample_trains)
    by (repeat constructor; by vm_compute).
  split; [done|].
  destruct (unknown_train_id 5 sample_trains sample_sections "T00X" H) as [Hp _].
  rewrite Hp. by vm_compute.
Defined.

(** C4, as stated, fails for the delay scenario: with an id that no sample
    train carries the analysis returns a report instead of failing. *)
Lemma unknown_train_id_delay_returns :
  Forall (λ t, train_id t ≠ "T00X") sample_trains ∧
  ∃ rep, analyze_delay_scenario 5 sample_trains sample_sections "T00X" 30 = Ok rep.
Proof.
  split; [repeat constructor; by vm_compute|].
  destruct (analyze_delay_scenario 5 sample_trains sample_sections "T00X" 30)
    as [rep|e] eqn:E; [by exists rep | by vm_compute in E].
Qed.

(** C8, as stated, fails when the optimizer itself fails: a train whose route
    names a section that is not in the section set makes the zero-delay
    analysis end in [KeyError], although the train id is in the set. *)
Lemma zero_delay_scenario_unknown_section :
  let t := plain_train "A" MEDIUM ["X"] 0 (hours 1) in
  t ∈ [t] ∧
  analyze_delay_scenario 5 [t] [] (train_id t) 0 = Raise (KeyError "X").
Proof. split; [by left | by vm_compute]. Qed.

(** ** The greedy optimizer *)

Section SortFacts.
Context {A : Type} (leb : A → A → bool).

Lemma insert_sorted_perm (x : A) (l : list A) : insert_sorted leb x l ≡ₚ x :: l.
Proof.
  induction l as [|y l IH]; simpl; [done|].
  destruct (leb x y); [done|]. by rewrite IH, Permutation_swap.
Qed.

Lemma stable_sort_perm (l : list A) : stable_sort leb l ≡ₚ l.
Proof.
  induction l as [|x l IH]; simpl; [done|].
  by rewrite insert_sorted_perm, IH.
Qed.

End SortFacts.

Lemma snd_imap_pair {A B} (g : nat → B) (l : list A) :
  snd <$> imap (λ i x, (g i, x)) l = l.
Proof.
  revert g; induction l as [|x l IH]; intros g; simpl; [done|].
  f_equal. apply (IH (g ∘ S)).
Qed.

Section Optimizer.
Variable margin : Z.
Implicit Types (train : Train) (scheduled : list Train)
  (sd : gmap string TrackSection).

Lemma _calculate_required_delay_nonneg train (sid : string) (ps pe : datetime)
    scheduled (section : TrackSection) :
  0 ≤ _calculate_required_delay margin train sid ps pe scheduled section.
Proof. unfold _calculate_required_delay. lia. Qed.

Lemma optimize_section_nonneg train scheduled sd (st st' : datetime * Z)
    (sid : string) :
  optimize_section margin train scheduled sd st sid = Ok st' →
  0 ≤ st.2 → 0 ≤ st'.2.
Proof.
  destruct st as [ca total]. unfold optimize_section.
  intros (section & _ & H)%bind_Ok. revert H.
  case_decide; intros [= <-]; simpl; lia.
Qed.

Lemma route_delay_nonneg train scheduled sd (total : Z) :
  route_delay margin train scheduled sd = Ok total → 0 ≤ total.
Proof.
  unfold route_delay. intros (st & Hloop & [= <-])%bind_Ok.
  revert Hloop. apply (foldM_invariant (λ st, 0 ≤ st.2)); [|done].
  intros s x s' _ Hs Hb. by eapply optimize_section_nonneg.
Qed.

Lemma delayed_refl (t : Train) : delayed t t.
Proof. split; [by rewrite set_delay_same | lia]. Qed.

Lemma _optimize_single_train_delayed train scheduled sd (o : Train) :
  _optimize_single_train margin train scheduled sd = Ok o → delayed train o.
Proof.
  unfold _optimize_single_train.
  intros (total & Htotal%route_delay_nonneg & H)%bind_Ok. revert H.
  case_decide; intros [= <-]; [|apply delayed_refl].
  split; simpl; [done | lia].
Qed.

Lemma greedy_loop_delayed sd (l : list (nat * Train)) (acc res : list Train) :
  foldM (greedy_step margin sd) l acc = Ok res →
  ∃ out, res = acc ++ out ∧ Forall2 delayed (snd <$> l) out.
Proof.
  revert acc; induction l as [|[i t] l IH]; intros acc; simpl.
  - intros [= <-]. exists []. by rewrite app_nil_r.
  - intros (acc' & Hstep & Hrest)%bind_Ok.
    apply IH in Hrest as (out & -> & Hout).
    revert Hstep. case_decide.
    + intros [= <-]. exists (t :: out). rewrite <- app_assoc. split; [done|].
      constructor; [apply delayed_refl | done].
    + intros (o & Ho & [= <-])%bind_Ok.
      apply _optimize_single_train_delayed in Ho.
      exists (o :: out). rewrite <- app_assoc. split; [done|].
      by constructor.
Qed.

Lemma _apply_greedy_optimization_delayed (trains : list Train)
    (sections : list TrackSection) (res : list Train) :
  _apply_greedy_optimization margin trains sections = Ok res →
  Forall2 delayed trains res.
Proof.
  unfold _apply_greedy_optimization. intros H.
  apply greedy_loop_delayed in H as (out & -> & H).
  by rewrite (snd_imap_pair id) in H.
Qed.

(** C1: the optimized trains are the input trains, in the order of the
    priority sort, each changed in nothing but its [current_delay_minutes],
    which is greater than or equal to the input's. *)
Theorem delay_monotone (trains : list Train) (sections : list TrackSection)
    (r : OptimizeResult) :
  optimize_schedule margin trains sections = Ok r →
  ∃ working,
    working ≡ₚ trains ∧
    Forall2 (λ w o, o = set_delay w (current_delay_minutes o) ∧
                    current_delay_minutes w ≤ current_delay_minutes o)
            working (optimized_trains r).
Proof.
  unfold optimize_schedule.
  intros (opt & Hopt & (sch & _ & (m & _ & (cr & _ & [= <-])%bind_Ok)%bind_Ok)%bind_Ok)%bind_Ok.
  exists (stable_sort train_key_leb trains). split; [apply stable_sort_perm|].
  simpl. by apply (_apply_greedy_optimization_delayed _ sections).
Qed.

End Optimizer.


Lemma delay_monotone_witness :
  ∃ r working,
    optimize_schedule 5 sample_trains sample_sections = Ok r ∧
    current_delay_minutes <$> optimized_trains r = [0; 35; 28] ∧
    working ≡ₚ sample_trains ∧
    Forall2 (λ w o, o = set_delay w (current_delay_minutes o) ∧
                    current_delay_minutes w ≤ current_delay_minutes o)
            working (optimized_trains r).
Proof.
  destruct (optimize_schedule 5 sample_trains sample_sections) as [r|e] eqn:E;
    [|vm_compute in E; discriminate E].
  destruct (delay_monotone 5 sample_trains sample_sections r E) as (w & Hp & Hw).
  exists r, w. split; [reflexivity|]. split; [|split; assumption].
  vm_compute in E. injection E as <-. vm_compute. reflexivity.
Defined.

(** ** The required delay *)

Lemma py_int_comp (x y : Q) : (x == y)%Q → py_int x = py_int y.
Proof.
  intros H. unfold py_int.
  assert (Qle_bool 0 x = Qle_bool 0 y) as ->.
  { apply eq_true_iff_eq. rewrite !Qle_bool_iff. by rewrite H. }
  by rewrite (Qfloor_comp _ _ H), (Qceiling_comp _ _ H).
Qed.

Lemma py_int_minutes (td : timedelta) :
  py_int (total_seconds td / 60) = whole_minutes td.
Proof.
  rewrite (py_int_comp _ (td # 60000000)).
  2:{ unfold Qeq, total_seconds, Qdiv, Qmult, Qinv, inject_Z; simpl. lia. }
  unfold py_int, whole_minutes, Qceiling, Qfloor, Qopp; simpl.
  destruct (Qle_bool 0 (td # 60000000)) eqn:E.
  - apply Qle_bool_iff in E. unfold Qle in E; simpl in E.
    rewrite Z.quot_div_nonneg; lia.
  - assert (td < 0).
    { destruct (decide (td < 0)) as [|Hge]; [done|].
      assert (Qle_bool 0 (td # 60000000) = true); [|congruence].
      apply Qle_bool_iff. unfold Qle; simpl. lia. }
    replace td with (- (- td)) at 2 by lia.
    rewrite Z.quot_opp_l by lia. rewrite Z.quot_div_nonneg; lia.
Qed.

Lemma whole_minutes_mono (a b : timedelta) : a ≤ b → whole_minutes a ≤ whole_minutes b.
Proof. intros. apply Z.quot_le_mono; lia. Qed.

Lemma minutes_le_mono (a b : timedelta) :
  a ≤ b → (total_seconds a / 60 <= total_seconds b / 60)%Q.
Proof.
  intros. unfold Qle, total_seconds, Qdiv, Qmult, Qinv, inject_Z; simpl. lia.
Qed.

Lemma Qmax_minutes (q : Q) (m d : timedelta) :
  (q == total_seconds m / 60)%Q →
  (Qmax q (total_seconds d / 60) == total_seconds (Z.max m d) / 60)%Q.
Proof.
  intros ->. destruct (Z.max_spec m d) as [[Hlt ->]|[Hle ->]].
  - apply Q.max_r, minutes_le_mono. lia.
  - apply Q.max_l, minutes_le_mono. lia.
Qed.

Section RequiredDelay.
Variable margin : Z.
Variables (train : Train) (sid : string) (ps pe : datetime) (section : TrackSection).

Abbreviation stepZ := (wait_step margin train sid ps pe section).

Lemma required_delay_step_minutes (q : Q) (m : timedelta) (s : Train) :
  (q == total_seconds m / 60)%Q →
  (required_delay_step margin train sid ps pe section q s
   == total_seconds (stepZ m s) / 60)%Q.
Proof.
  intros Hq. unfold stepZ.
  destruct (decide (must_yield margin train sid ps pe section s))
    as [(Hin & Hov & Hp)|Hn]; unfold required_delay_step.
  - unfold wait_for. rewrite decide_True by done.
    destruct (scheduled_window s sid) as [ss se]; simpl in *.
    rewrite Hov, decide_True by done. by apply Qmax_minutes.
  - destruct (decide (sid ∈ route s)) as [Hin|Hin]; [|done].
    destruct (scheduled_window s sid) as [ss se] eqn:Hw.
    destruct (_sections_overlap ps pe ss se (minutes margin) section) eqn:Hov;
      [|done].
    destruct (decide (value (priority train) > value (priority s))) as [Hp|Hp];
      [|done].
    destruct Hn. unfold must_yield. by rewrite Hw.
Qed.

Lemma required_delay_loop_minutes (scheduled : list Train) (q : Q) (m : timedelta) :
  (q == total_seconds m / 60)%Q →
  (foldl (required_delay_step margin train sid ps pe section) q scheduled
   == total_seconds (foldl stepZ m scheduled) / 60)%Q.
Proof.
  revert q m; induction scheduled as [|s l IH]; intros q m Hq; simpl; [done|].
  by apply IH, required_delay_step_minutes.
Qed.

Lemma stepZ_loop_max (scheduled : list Train) (m : timedelta) :
  0 ≤ m →
  whole_minutes (foldl stepZ m scheduled)
  = Z.max (whole_minutes m)
      (max_list_Z (whole_minutes ∘ wait_for margin sid ps
                     <$> filter (must_yield margin train sid ps pe section) scheduled))
  ∧ 0 ≤ foldl stepZ m scheduled.
Proof.
  revert m; induction scheduled as [|s l IH]; intros m Hm; simpl.
  - split; [|done]. assert (0 ≤ whole_minutes m) by (apply Z.quot_pos; lia).
    unfold max_list_Z; simpl. lia.
  - unfold stepZ at 2 4. rewrite filter_cons. case_decide.
    + destruct (IH (Z.max m (wait_for margin sid ps s))) as [-> ?]; [lia|].
      split; [|done]. rewrite fmap_cons.
      set (L := _ <$> filter _ l). unfold max_list_Z, compose; simpl.
      destruct (Z.max_spec m (wait_for margin sid ps s)) as [[Hlt ->]|[Hle ->]].
      * pose proof (whole_minutes_mono m (wait_for margin sid ps s)). lia.
      * pose proof (whole_minutes_mono (wait_for margin sid ps s) m). lia.
    + by apply IH.
Qed.

(** A section's required delay is the largest wait, in whole minutes and
    never negative, that the stronger overlapping scheduled trains impose. *)
Lemma _calculate_required_delay_max (scheduled : list Train) :
  _calculate_required_delay margin train sid ps pe scheduled section
  = max_list_Z (whole_minutes ∘ wait_for margin sid ps
                  <$> filter (must_yield margin train sid ps pe section) scheduled).
Proof.
  unfold _calculate_required_delay.
  assert (H0 : (0 == total_seconds 0%Z / 60)%Q) by done.
  rewrite (py_int_comp _ _ (required_delay_loop_minutes scheduled 0%Q 0 H0)).
  rewrite py_int_minutes.
  destruct (stepZ_loop_max scheduled 0) as [-> Hnn]; [done|].
  assert (0 ≤ max_list_Z (whole_minutes ∘ wait_for margin sid ps
            <$> filter (must_yield margin train sid ps pe section) scheduled)).
  { generalize (whole_minutes ∘ wait_for margin sid ps
            <$> filter (must_yield margin train sid ps pe section) scheduled).
    intros l. induction l; unfold max_list_Z in *; simpl; lia. }
  change (whole_minutes 0) with 0. lia.
Qed.

End RequiredDelay.

Section RouteDelay.
Variable margin : Z.
Variables (train : Train) (scheduled : list Train) (sd : gmap string TrackSection).

Lemma route_loop_sum (rt : list string) (acc : Z) :
  Forall (λ sid, is_Some (sd !! sid)) rt →
  foldM (optimize_section margin train scheduled sd) rt
    (get_actual_arrival train + minutes acc, acc)
  = Ok (get_actual_arrival train
          + minutes (acc + sum_list_Z (required_delays margin train scheduled sd acc rt)),
        acc + sum_list_Z (required_delays margin train scheduled sd acc rt)).
Proof.
  intros Hrt; revert acc; induction Hrt as [|sid rt [section Hs] _ IH]; intros acc.
  - simpl. unfold sum_list_Z; simpl. by rewrite Z.add_0_r.
  - simpl. unfold getitem. rewrite Hs; simpl.
    replace (get_actual_arrival train + minutes acc + minutes acc)
      with (get_actual_arrival train + minutes (2 * acc))
      by (unfold minutes; lia).
    set (start := get_actual_arrival train + minutes (2 * acc)).
    set (d := _calculate_required_delay margin train sid start
                (start + minutes (section_time train sid)) scheduled section).
    assert (0 ≤ d) by apply _calculate_required_delay_nonneg.
    change (sum_list_Z (d :: ?l)) with (d + sum_list_Z l).
    case_decide; change (Ok ?a ≫= ?k) with (k a); cbv beta.
    + rewrite IH. by rewrite !Z.add_assoc.
    + assert (d = 0) as -> by lia. rewrite Z.add_0_r, IH. done.
Qed.

Lemma route_delay_sum :
  Forall (λ sid, is_Some (sd !! sid)) (route train) →
  route_delay margin train scheduled sd
  = Ok (sum_list_Z (required_delays margin train scheduled sd 0 (route train))).
Proof.
  intros Hrt. unfold route_delay.
  pose proof (route_loop_sum (route train) 0 Hrt) as H.
  change (minutes 0) with 0 in H. rewrite Z.add_0_r in H.
  unfold datetime, timedelta in *. by rewrite H.
Qed.

(** C3 (amended): a section's required delay is the largest, over the already
    scheduled trains that overlap there and have a strictly smaller priority
    ordinal, of [(other.end + margin) - mine.start] in whole minutes, and 0 if
    there is none; so it is 0 when no scheduled train is stronger. The delay
    added to [current_delay_minutes] once the route is evaluated is the sum of
    the required delays of the sections of the route, each evaluated with the
    delay accumulated before it, not their maximum. *)
Theorem required_delay_accumulates :
  (∀ sid ps pe section,
     _calculate_required_delay margin train sid ps pe scheduled section
     = max_list_Z (whole_minutes ∘ wait_for margin sid ps
                     <$> filter (must_yield margin train sid ps pe section) scheduled)) ∧
  (Forall (λ s, value (priority train) ≤ value (priority s)) scheduled →
   ∀ sid ps pe section,
     _calculate_required_delay margin train sid ps pe scheduled section = 0) ∧
  (Forall (λ sid, is_Some (sd !! sid)) (route train) →
   _optimize_single_train margin train scheduled sd
   = Ok (set_delay train
           (current_delay_minutes train
            + sum_list_Z (required_delays margin train scheduled sd 0 (route train))))).
Proof.
  split; [|split].
  - intros. apply _calculate_required_delay_max.
  - intros Hweak sid ps pe section. rewrite _calculate_required_delay_max.
    replace (filter (must_yield margin train sid ps pe section) scheduled)
      with (@nil Train); [done|].
    symmetry. induction Hweak as [|s l Hs _ IH]; [done|].
    rewrite filter_cons, decide_False; [done|].
    intros (_ & _ & ?). lia.
  - intros Hrt. unfold _optimize_single_train.
    rewrite (route_delay_sum Hrt); simpl.
    pose proof (route_delay_nonneg margin train scheduled sd _ (route_delay_sum Hrt)).
    case_decide; [done|].
    replace (sum_list_Z _) with 0 by lia.
    by rewrite Z.add_0_r, set_delay_same.
Qed.

End RouteDelay.

Lemma required_delay_accumulates_witness :
  Forall (λ sid, is_Some (section_dict_of two_platforms !! sid)) (route follower) ∧
  _optimize_single_train 5 follower [slow_express] (section_dict_of two_platforms)
  = Ok (set_delay follower 50).
Proof.
  assert (H : Forall (λ sid, is_Some (section_dict_of two_platforms !! sid))
                (route follower))
    by (apply (bool_decide_unpack _); vm_compute; exact I).
  split; [exact H|].
  destruct (required_delay_accumulates 5 follower [slow_express]
              (section_dict_of two_platforms)) as (_ & _ & Hsum).
  rewrite (Hsum H). vm_compute. reflexivity.
Defined.

(** C3, as stated, fails on its last part: the follower sees a required delay
    of 15 minutes in the first section and of 35 in the second, and is
    delayed by their sum, 50 minutes, not by their maximum. *)
Lemma delay_added_is_not_the_maximum :
  required_delays 5 follower [slow_express] (section_dict_of two_platforms) 0
    (route follower) = [15; 35] ∧
  _optimize_single_train 5 follower [slow_express] (section_dict_of two_platforms)
  = Ok (set_delay follower (current_delay_minutes follower + 50)) ∧
  (λ r, current_delay_minutes <$> optimized_trains r)
    <$> optimize_schedule 5 [follower; slow_express] two_platforms
  = Ok [0; 50] ∧
  50 ≠ max_list_Z [15; 35].
Proof. vm_compute. repeat split; congruence. Qed.

(** ** Emission and deduplication of conflicts *)

Lemma foldl_prefix {A B} (f : list B → A → list B) (l : list A) (s : list B) :
  (∀ s x, s `prefix_of` f s x) → s `prefix_of` foldl f s l.
Proof.
  intros Hf; revert s; induction l as [|x l IH]; intros s; simpl; [done|].
  by trans (f s x).
Qed.

Lemma foldl_covers {A B} (Q : A → list B → Prop) (f : list B → A → list B)
    (l : list A) (s : list B) :
  (∀ s x, s `prefix_of` f s x) →
  (∀ x s s', Q x s → s `prefix_of` s' → Q x s') →
  (∀ s x, Q x (f s x)) →
  ∀ x, x ∈ l → Q x (foldl f s l).
Proof.
  intros Hf Hmono Hstep; revert s; induction l as [|y l IH]; intros s x Hx; simpl.
  - by apply elem_of_nil in Hx.
  - apply elem_of_cons in Hx as [->|Hx]; [|by apply IH].
    apply (Hmono _ (f s y)); [apply Hstep | by apply foldl_prefix].
Qed.

Lemma same_conflict_refl (c : Conflict) : same_conflict c c = true.
Proof. unfold same_conflict. apply bool_decide_eq_true. tauto. Qed.

Lemma same_conflict_sym (c c' : Conflict) :
  same_conflict c c' = true → same_conflict c' c = true.
Proof.
  unfold same_conflict. rewrite !bool_decide_eq_true.
  intros [[[-> ->]|[-> ->]] ->]; tauto.
Qed.

Lemma _conflict_exists_true (conflicts : list Conflict) (c : Conflict) :
  _conflict_exists conflicts c = true ↔
  ∃ c0, c0 ∈ conflicts ∧ same_conflict c0 c = true.
Proof.
  unfold _conflict_exists. rewrite existsb_exists.
  by setoid_rewrite list_elem_of_In.
Qed.

Lemma no_duplicate_pairs_snoc (conflicts : list Conflict) (c : Conflict) :
  no_duplicate_pairs conflicts → _conflict_exists conflicts c = false →
  no_duplicate_pairs (conflicts ++ [c]).
Proof.
  intros Hnd Hnew i j ci cj Hi Hj Hsame.
  assert (Hfresh : ∀ k ck, conflicts !! k = Some ck → same_conflict ck c = true → False).
  { intros k ck Hk Hs. apply not_true_iff_false in Hnew. apply Hnew.
    apply _conflict_exists_true. exists ck. split; [|done].
    by eapply list_elem_of_lookup_2. }
  apply lookup_snoc_Some in Hi as [[Hi1 Hi2]|[-> <-]];
    apply lookup_snoc_Some in Hj as [[Hj1 Hj2]|[-> <-]].
  - by eapply Hnd.
  - destruct (Hfresh i ci); done.
  - destruct (Hfresh j cj); [done|]. by apply same_conflict_sym.
  - done.
Qed.

Section Emission.
Variable margin : Z.
Implicit Types (section : TrackSection) (conflicts : list Conflict)
  (train_times over : list Occupancy).

Lemma elem_of_overlapping_from (i j : nat) (s1 e1 : datetime) train_times
    (x : Occupancy) :
  x ∈ overlapping_from margin i j s1 e1 train_times ↔
  ∃ k, train_times !! k = Some x ∧ (j + k)%nat ≠ i ∧
       overlaps_with_margin margin s1 e1 x.1.2 x.2 = true.
Proof.
  revert j; induction train_times as [|[[t2 s2] e2] l IH]; intros j; simpl.
  - split; [by intros ?%elem_of_nil | by intros (k & ? & _)].
  - assert (Hshift : (∃ k, l !! k = Some x ∧ (S j + k)%nat ≠ i ∧
                         overlaps_with_margin margin s1 e1 x.1.2 x.2 = true) ↔
                     (∃ k, ((t2, s2, e2) :: l) !! S k = Some x ∧ (j + S k)%nat ≠ i ∧
                         overlaps_with_margin margin s1 e1 x.1.2 x.2 = true)).
    { split; intros (k & H1 & H2 & H3); exists k; repeat split; try done; lia. }
    case_decide as Hij.
    + rewrite IH, Hshift. split.
      * intros (k & ?). by exists (S k).
      * intros ([|k] & H1 & H2 & H3); [lia|]. by exists k.
    + destruct (overlaps_with_margin margin s1 e1 s2 e2) eqn:Hov.
      * rewrite elem_of_cons, IH, Hshift. split.
        -- intros [->|(k & ?)]; [|by exists (S k)].
           exists 0%nat. repeat split; [lia | done].
        -- intros ([|k] & H1 & H2 & H3); [left; by injection H1 | right; by exists k].
      * rewrite IH, Hshift. split.
        -- intros (k & ?). by exists (S k).
        -- intros ([|k] & H1 & H2 & H3); [|by exists k].
           injection H1 as <-. simpl in H3. congruence.
Qed.

Lemma add_conflict_step_prefix (t1 : Train) (s1 e1 : datetime) section conflicts x :
  conflicts `prefix_of` add_conflict_step t1 s1 e1 section conflicts x.
Proof.
  destruct x as [[t2 s2] e2]; simpl.
  destruct (_create_conflict t1 t2 section s1 e1 s2 e2); [|done].
  destruct (_conflict_exists conflicts c); [done|]. by apply prefix_app_r.
Qed.

Lemma add_conflicts_prefix (t1 : Train) (s1 e1 : datetime) section over conflicts :
  conflicts `prefix_of` add_conflicts t1 s1 e1 section over conflicts.
Proof.
  unfold add_conflicts. apply (foldl_prefix (add_conflict_step t1 s1 e1 section)).
  intros. apply add_conflict_step_prefix.
Qed.

Lemma covered_prefix conflicts conflicts' c' :
  covered conflicts c' → conflicts `prefix_of` conflicts' → covered conflicts' c'.
Proof.
  intros (c & Hc & Hs) [ext ->]. exists c. split; [|done].
  apply elem_of_app. by left.
Qed.

Lemma add_conflicts_covers (t1 : Train) (s1 e1 : datetime) section over conflicts
    (t2 : Train) (s2 e2 : datetime) (c' : Conflict) :
  (t2, s2, e2) ∈ over →
  _create_conflict t1 t2 section s1 e1 s2 e2 = Some c' →
  covered (add_conflicts t1 s1 e1 section over conflicts) c'.
Proof.
  intros Hin Hc. unfold add_conflicts.
  apply (foldl_covers
           (λ (x : Occupancy) cs, ∀ c',
              _create_conflict t1 x.1.1 section s1 e1 x.1.2 x.2 = Some c' →
              covered cs c')
           (add_conflict_step t1 s1 e1 section) over conflicts) with (x := (t2, s2, e2));
    try done.
  - intros. apply add_conflict_step_prefix.
  - intros x s s' HQ Hpre c0 Hc0. eapply covered_prefix; eauto.
  - intros s [[t s0] e0] c0; simpl. intros ->.
    destruct (_conflict_exists s c0) eqn:Hex.
    + by apply _conflict_exists_true in Hex.
    + exists c0. split; [|apply same_conflict_refl].
      apply elem_of_app. right. by left.
Qed.

Lemma add_conflicts_no_duplicate (t1 : Train) (s1 e1 : datetime) section over
    conflicts :
  no_duplicate_pairs conflicts →
  no_duplicate_pairs (add_conflicts t1 s1 e1 section over conflicts).
Proof.
  unfold add_conflicts. apply foldl_invariant.
  intros cs [[t2 s2] e2] _ Hcs. unfold add_conflict_step.
  destruct (_create_conflict t1 t2 section s1 e1 s2 e2) as [c|]; [|done].
  destruct (_conflict_exists cs c) eqn:Hex; [done|].
  by apply no_duplicate_pairs_snoc.
Qed.

Lemma detect_entry_prefix train_times section conflicts (ie : nat * Occupancy) :
  conflicts `prefix_of` detect_entry margin train_times section conflicts ie.
Proof.
  destruct ie as [i [[t1 s1] e1]]. unfold detect_entry.
  case_decide; [apply add_conflicts_prefix | done].
Qed.

Lemma _detect_section_conflicts_sound train_times section :
  Forall (emitted_by margin train_times section)
    (_detect_section_conflicts margin train_times section).
Proof.
  unfold _detect_section_conflicts.
  apply (foldl_invariant (Forall (emitted_by margin train_times section)));
    [|constructor].
  intros cs [i [[t1 s1] e1]] Hie Hcs.
  apply elem_of_lookup_imap in Hie as (i' & e' & [= <- <-] & Hi).
  unfold detect_entry. case_decide as Hcap; [|done].
  apply add_conflicts_Forall; [|done].
  intros t2 s2 e2 c Hin Hc.
  apply elem_of_overlapping_from in Hin as (j & Hj & Hne & Hov).
  exists i, j, t1, t2, s1, e1, s2, e2. repeat split; try done; lia.
Qed.

Lemma _detect_section_conflicts_complete train_times section (c' : Conflict) :
  emitted_by margin train_times section c' →
  ∃ c, c ∈ _detect_section_conflicts margin train_times section ∧
       same_conflict c c' = true.
Proof.
  intros (i & j & t1 & t2 & s1 & e1 & s2 & e2 & Hi & Hj & Hne & Hov & Hcap & Hc).
  unfold _detect_section_conflicts.
  set (Q := λ (ie : nat * Occupancy) (cs : list Conflict),
              Z.of_nat (length (overlapping_from margin ie.1 0 ie.2.1.2 ie.2.2
                                  train_times)) >= capacity section →
              ∀ (x : Occupancy) c',
                x ∈ overlapping_from margin ie.1 0 ie.2.1.2 ie.2.2 train_times →
                _create_conflict ie.2.1.1 x.1.1 section ie.2.1.2 ie.2.2
                  x.1.2 x.2 = Some c' →
                covered cs c').
  assert (HQ : Q (i, (t1, s1, e1))
                 (foldl (detect_entry margin train_times section) []
                    (imap pair train_times))).
  { apply foldl_covers.
    - intros. apply detect_entry_prefix.
    - intros x s s' HQ Hpre Hc0 y c0 Hy Hcy. eapply covered_prefix; eauto.
    - intros s [i0 [[t0 s0] e0]]; unfold Q; simpl.
      intros Hcap0 [[ty sy] ey] c0 Hy Hcy.
      unfold detect_entry. rewrite decide_True by done.
      by eapply add_conflicts_covers.
    - apply elem_of_lookup_imap. by exists i, (t1, s1, e1). }
  apply (HQ Hcap (t2, s2, e2) c'); [|done].
  apply elem_of_overlapping_from. exists j.
  split; [done|]. split; [simpl; lia | done].
Qed.

Lemma _detect_section_conflicts_no_duplicate train_times section :
  no_duplicate_pairs (_detect_section_conflicts margin train_times section).
Proof.
  unfold _detect_section_conflicts. apply (foldl_invariant no_duplicate_pairs).
  - intros cs [i [[t1 s1] e1]] _ Hcs. unfold detect_entry.
    case_decide; [by apply add_conflicts_no_duplicate | done].
  - intros i j ci cj Hi. by rewrite lookup_nil in Hi.
Qed.

End Emission.

Section TwoTrains.
Variable margin : Z.
Hypothesis margin_nonneg : 0 ≤ margin.

Lemma overlap_implies_margin_overlap (s1 e1 s2 e2 : datetime) :
  Z.max s1 s2 < Z.min e1 e2 → overlaps_with_margin margin s1 e1 s2 e2 = true.
Proof.
  intros. unfold overlaps_with_margin. apply bool_decide_eq_true.
  unfold minutes. lia.
Qed.

Lemma severity_sym (t1 t2 : Train) (s e : datetime) (section : TrackSection) :
  _calculate_conflict_severity t1 t2 s e section
  = _calculate_conflict_severity t2 t1 s e section.
Proof.
  unfold _calculate_conflict_severity.
  by rewrite (Z.min_comm (value (priority t1))).
Qed.

(** Two entries that really overlap in a section of capacity 1: one conflict,
    its first train the first entry of the timeline. *)
Lemma two_entries_one_conflict (t1 t2 : Train) (s1 e1 s2 e2 : datetime)
    (section : TrackSection) :
  capacity section = 1 → Z.max s1 s2 < Z.min e1 e2 →
  _detect_section_conflicts margin [(t1, s1, e1); (t2, s2, e2)] section
  = [mkConflict t1 t2 (section_id section) (Z.max s1 s2) (Z.min e1 e2)
       (_calculate_conflict_severity t1 t2 (Z.max s1 s2) (Z.min e1 e2) section)
       None].
Proof.
  intros Hcap Hov.
  assert (Hov' : Z.max s2 s1 < Z.min e2 e1) by lia.
  unfold _detect_section_conflicts, detect_entry; simpl.
  rewrite (overlap_implies_margin_overlap _ _ _ _ Hov),
          (overlap_implies_margin_overlap _ _ _ _ Hov'); simpl.
  rewrite Hcap. rewrite !decide_True by lia.
  unfold add_conflicts, _create_conflict; simpl.
  rewrite !decide_False by lia; simpl.
  unfold same_conflict; simpl. rewrite bool_decide_true by tauto. done.
Qed.

End TwoTrains.

(** C2, as stated, fails on the count: in a section of capacity 2 two trains
    on the same window make the count of overlapping entries, the entry itself
    included, reach the capacity, and their windows overlap, yet no Conflict
    is emitted: the code counts the other entries only. *)
Lemma capacity_reached_no_conflict :
  let a := plain_train "A" HIGH ["P"] 0 (hours 1) in
  let b := plain_train "B" LOW ["P"] 0 (hours 1) in
  let p := plain_section "P" PLATFORM 2 in
  let train_times := [(a, 0, minutes 10); (b, 0, minutes 10)] in
  Z.of_nat (length (overlapping_from 5 0 0 0 (minutes 10) train_times)) + 1
    >= capacity p ∧
  _create_conflict a b p 0 (minutes 10) 0 (minutes 10) ≠ None ∧
  _detect_section_conflicts 5 train_times p = [] ∧
  detect_conflicts 5 [a; b] [p] = Ok [].
Proof.
  intros a b p tt. split; [by vm_compute|]. split; [by vm_compute|].
  split; vm_compute; reflexivity.
Qed.

(** ** The caller's objects *)

Lemma frame_length (h0 h : heap) : frame h0 h → (length h0 ≤ length h)%nat.
Proof.
  intros Hf. apply lookup_ge_None.
  destruct (h0 !! length h) as [t|] eqn:E; [|done].
  apply Hf, lookup_lt_Some in E. lia.
Qed.

Lemma frame_alloc (h0 h : heap) (t : Train) : frame h0 h → frame h0 (h ++ [t]).
Proof. intros Hf l t0 Hl. apply lookup_app_l_Some. by apply Hf. Qed.

Lemma fresh_in_mono (h0 h h' : heap) (l : loc) :
  fresh_in h0 h l → (length h ≤ length h')%nat → fresh_in h0 h' l.
Proof.
  intros [Hnone Hsome] Hlen. split; [done|].
  apply lookup_lt_is_Some in Hsome. apply lookup_lt_is_Some. lia.
Qed.

Lemma fresh_alloc (h0 h : heap) (t : Train) :
  frame h0 h → fresh_in h0 (h ++ [t]) (length h).
Proof.
  intros Hf%frame_length. split.
  - apply lookup_ge_None. lia.
  - apply lookup_lt_is_Some. rewrite length_app; simpl. lia.
Qed.

Lemma frame_store_delay (h0 h : heap) (l : loc) (d : Z) :
  frame h0 h → h0 !! l = None → frame h0 (store_delay l d h).
Proof.
  intros Hf Hl l0 t Hl0. unfold store_delay.
  rewrite list_lookup_insert_ne by congruence. by apply Hf.
Qed.

Lemma length_store_delay (h : heap) (l : loc) (d : Z) :
  length (store_delay l d h) = length h.
Proof. apply length_insert. Qed.

Section StoreFacts.
Variable margin : Z.
Implicit Types (h : heap) (sd : gmap string TrackSection).

Lemma deepcopy_trains_frame (h0 : heap) (trains : list loc) (memo : gmap loc loc)
    h (copies : list loc) (h' : heap) :
  frame h0 h → map_Forall (λ _ l', fresh_in h0 h l') memo →
  deepcopy_trains trains memo h = (copies, h') →
  frame h0 h' ∧ (length h ≤ length h')%nat ∧ Forall (fresh_in h0 h') copies.
Proof.
  revert memo h copies h'.
  induction trains as [|l rest IH]; intros memo h copies h' Hf Hmemo; simpl.
  - intros [= <- <-]. by repeat split.
  - destruct (memo !! l) as [l'|] eqn:Hl.
    + destruct (deepcopy_trains rest memo h) as [cs h1] eqn:Hrec.
      intros [= <- <-].
      destruct (IH _ _ _ _ Hf Hmemo Hrec) as (Hf1 & Hlen & Hcs).
      repeat split; try done. constructor; [|done].
      eapply fresh_in_mono; [by eapply (Hmemo l) | done].
    + unfold alloc.
      destruct (deepcopy_trains rest (<[l:=length h]> memo) (h ++ [deref h l]))
        as [cs h1] eqn:Hrec.
      intros [= <- <-].
      assert (Hlen1 : (length h ≤ length (h ++ [deref h l]))%nat)
        by (rewrite length_app; lia).
      assert (Hmemo1 : map_Forall (λ _ l', fresh_in h0 (h ++ [deref h l]) l')
                         (<[l:=length h]> memo)).
      { apply map_Forall_insert_2; [by apply fresh_alloc|].
        intros k v Hkv. eapply fresh_in_mono; [by eapply Hmemo | done]. }
      destruct (IH _ _ _ _ (frame_alloc _ _ (deref h l) Hf) Hmemo1 Hrec)
        as (Hf1 & Hlen & Hcs).
      repeat split; try done; [lia|]. constructor; [|done].
      eapply fresh_in_mono; [by apply fresh_alloc | done].
Qed.

Lemma _optimize_single_train_refs_frame (h0 : heap) (train : loc)
    (scheduled : list loc) sd h (r : result loc) (h' : heap) :
  frame h0 h →
  _optimize_single_train_refs margin train scheduled sd h = (r, h') →
  frame h0 h' ∧ (length h ≤ length h')%nat ∧ ∀ l, r = Ok l → fresh_in h0 h' l.
Proof.
  intros Hf. unfold _optimize_single_train_refs, alloc.
  pose proof (frame_alloc _ _ (deref h train) Hf) as Hf1.
  pose proof (fresh_alloc _ _ (deref h train) Hf) as Hfresh.
  assert (Hlen : (length h ≤ length (h ++ [deref h train]))%nat)
    by (rewrite length_app; lia).
  destruct (route_delay margin _ _ sd) as [total|e].
  - case_decide; intros [= <- <-].
    + split; [apply frame_store_delay; [done | apply Hfresh]|].
      rewrite length_store_delay. split; [done|].
      intros ? [= <-]. eapply fresh_in_mono; [done|].
      by rewrite length_store_delay.
    + split; [done|]. split; [done|]. by intros ? [= <-].
  - intros [= <- <-]. split; [done|]. split; [done|]. by intros ?.
Qed.

Lemma greedy_loop_refs_frame (h0 : heap) sd (its : list (nat * loc))
    (opt : list loc) h (r : result (list loc)) (h' : heap) :
  frame h0 h → Forall (fresh_in h0 h) (snd <$> its) → Forall (fresh_in h0 h) opt →
  greedy_loop_refs margin sd its opt h = (r, h') →
  frame h0 h' ∧ ∀ res, r = Ok res → Forall (fresh_in h0 h') res.
Proof.
  revert opt h; induction its as [|[i l] its IH]; intros opt h Hf Hits Hopt; simpl.
  - intros [= <- <-]. split; [done|]. by intros res [= <-].
  - apply Forall_cons in Hits as [Hl Hits]. case_decide.
    + apply IH; try done. apply Forall_app. split; [done|]. by constructor.
    + destruct (_optimize_single_train_refs margin l opt sd h) as [[o|e] h1] eqn:Hone.
      * destruct (_optimize_single_train_refs_frame _ _ _ _ _ _ _ Hf Hone)
          as (Hf1 & Hlen & Ho).
        apply IH; try done.
        -- eapply Forall_impl; [done|]. intros ? ?. by eapply fresh_in_mono.
        -- apply Forall_app. split.
           ++ eapply Forall_impl; [done|]. intros ? ?. by eapply fresh_in_mono.
           ++ constructor; [by apply Ho | done].
      * intros [= <- <-].
        destruct (_optimize_single_train_refs_frame _ _ _ _ _ _ _ Hf Hone)
          as (Hf1 & _ & _).
        split; [done|]. by intros res.
Qed.

Lemma frame_refl (h : heap) : frame h h.
Proof. by intros l t. Qed.

Lemma frame_trans (h0 h1 h2 : heap) : frame h0 h1 → frame h1 h2 → frame h0 h2.
Proof. intros H01 H12 l t Hl. by apply H12, H01. Qed.

Lemma optimize_schedule_refs_frame (trains : list loc) (sections : list TrackSection)
    h (r : result OptimizeResultRefs) (h' : heap) :
  optimize_schedule_refs margin trains sections h = (r, h') →
  frame h h' ∧ ∀ res, r = Ok res → Forall (fresh_in h h') (optimized_train_refs res).
Proof.
  unfold optimize_schedule_refs, _apply_greedy_optimization_refs.
  destruct (deepcopy_trains trains ∅ h) as [working h1] eqn:Hcopy.
  destruct (deepcopy_trains_frame h trains ∅ h working h1 (frame_refl h)
              (map_Forall_empty _) Hcopy) as (Hf1 & Hlen1 & Hw).
  set (sorted := stable_sort _ working).
  assert (Hsorted : Forall (fresh_in h h1) (snd <$> imap pair sorted)).
  { rewrite (snd_imap_pair id). unfold sorted. by rewrite stable_sort_perm. }
  destruct (greedy_loop_refs margin (section_dict_of sections) (imap pair sorted) [] h1)
    as [[opt|e] h2] eqn:Hloop;
    destruct (greedy_loop_refs_frame h _ _ _ _ _ _ Hf1 Hsorted (Forall_nil_2 _) Hloop)
      as (Hf2 & Hopt);
    intros [= <- <-]; (split; [exact Hf2|]); intros res Hres; [|done].
  specialize (Hopt opt eq_refl).
  assert (optimized_train_refs res = opt) as ->; [|done].
  destruct (_generate_optimized_schedule _ sections); [|done].
  destruct (_calculate_metrics margin _ _ sections); [|done].
  destruct (detect_conflicts margin _ sections); [|done].
  simpl in Hres. by injection Hres as <-.
Qed.

Lemma delay_first_match_refs_frame (h0 : heap) (tid : string) (extra : Z)
    (scenario : list loc) h :
  frame h0 h → Forall (fresh_in h0 h) scenario →
  frame h0 (delay_first_match_refs tid extra scenario h).
Proof.
  intros Hf. induction 1 as [|l rest [Hl _] _ IH]; simpl; [done|].
  case_decide; [by apply frame_store_delay | done].
Qed.

(** The delay scenario of the analyzer, too, only writes to its own copy. *)
Lemma analyze_delay_scenario_refs_frame (trains : list loc)
    (sections : list TrackSection) (tid : string) (extra : Z) h :
  frame h (analyze_delay_scenario_refs margin trains sections tid extra h).2.
Proof.
  unfold analyze_delay_scenario_refs.
  destruct (deepcopy_trains trains ∅ h) as [scenario h1] eqn:Hcopy.
  destruct (deepcopy_trains_frame h trains ∅ h scenario h1 (frame_refl h)
              (map_Forall_empty _) Hcopy) as (Hf1 & _ & Hs).
  pose proof (delay_first_match_refs_frame h tid extra scenario h1 Hf1 Hs) as Hf2.
  destruct (optimize_schedule_refs margin trains sections _) as [r3 h3] eqn:H3.
  apply optimize_schedule_refs_frame in H3 as [Hf3 _].
  pose proof (frame_trans _ _ _ Hf2 Hf3) as Hf03.
  destruct r3 as [res3|e3]; [|done].
  destruct (optimize_schedule_refs margin scenario sections h3) as [r4 h4] eqn:H4.
  apply optimize_schedule_refs_frame in H4 as [Hf4 _].
  pose proof (frame_trans _ _ _ Hf03 Hf4) as Hf04.
  by destruct r4.
Qed.

(** C7: [optimize_schedule] leaves every train object that exists when it is
    called as it is, whether it returns or raises, and every train of the
    returned [optimized_trains] is an object allocated during the call, so
    none of them is an object of the caller. *)
Theorem optimize_schedule_frame (trains : list loc) (sections : list TrackSection)
    h (r : result OptimizeResultRefs) (h' : heap) :
  optimize_schedule_refs margin trains sections h = (r, h') →
  (∀ l t, h !! l = Some t → h' !! l = Some t) ∧
  (∀ res l, r = Ok res → l ∈ optimized_train_refs res →
            h !! l = None ∧ is_Some (h' !! l)).
Proof.
  intros [Hf Hfresh]%optimize_schedule_refs_frame. split; [exact Hf|].
  intros res l Hres Hl. by apply (proj1 (Forall_forall _ _) (Hfresh res Hres)).
Qed.

End StoreFacts.

Lemma optimize_schedule_frame_witness :
  ∃ res h',
    optimize_schedule_refs 5 [0; 1; 2]%nat sample_sections sample_trains = (Ok res, h') ∧
    optimized_train_refs res = [3; 6; 7]%nat ∧
    (∀ l t, sample_trains !! l = Some t → h' !! l = Some t) ∧
    (∀ l, l ∈ optimized_train_refs res →
          sample_trains !! l = None ∧ is_Some (h' !! l)).
Proof.
  destruct (optimize_schedule_refs 5 [0; 1; 2]%nat sample_sections sample_trains)
    as [r h'] eqn:E.
  destruct (optimize_schedule_frame 5 _ _ _ _ _ E) as [Hframe Hfresh].
  assert (Hr : match r with
               | Ok res => optimized_train_refs res = [3; 6; 7]%nat
               | Raise _ => False
               end).
  { apply (f_equal fst) in E. simpl in E. rewrite <- E. vm_compute. reflexivity. }
  destruct r as [res|e]; [|destruct Hr].
  exists res, h'. split; [reflexivity|]. split; [exact Hr|].
  split; [exact Hframe|]. intros l Hl. exact (Hfresh res l eq_refl Hl).
Defined.

(** ** The store model and the value model agree *)

Lemma deref_app_l (h : heap) (t : Train) (l : loc) :
  (l < length h)%nat → deref (h ++ [t]) l = deref h l.
Proof. intros. unfold deref. by rewrite lookup_total_app_l. Qed.

Lemma deref_alloc (h : heap) (t : Train) : deref (h ++ [t]) (length h) = t.
Proof. unfold deref. by rewrite list_lookup_total_middle. Qed.

Lemma deref_store_delay_ne (h : heap) (l l0 : loc) (d : Z) :
  l ≠ l0 → deref (store_delay l d h) l0 = deref h l0.
Proof.
  intros. unfold deref, store_delay.
  by rewrite !list_lookup_total_alt, list_lookup_insert_ne.
Qed.

Lemma deref_store_delay_eq (h : heap) (l : loc) (d : Z) :
  (l < length h)%nat → deref (store_delay l d h) l = set_delay (deref h l) d.
Proof.
  intros. unfold store_delay. unfold deref at 1.
  by rewrite list_lookup_total_alt, list_lookup_insert_eq.
Qed.

Lemma fmap_deref_ext (h h' : heap) (ls : list loc) :
  (∀ l, (l < length h)%nat → deref h' l = deref h l) →
  Forall (λ l, (l < length h)%nat) ls → deref h' <$> ls = deref h <$> ls.
Proof.
  intros Hext Hls. apply Forall_fmap_ext. eapply Forall_impl; [done|]. apply Hext.
Qed.

Lemma insert_sorted_fmap {A B} (f : A → B) (leb : B → B → bool) (x : A) (s : list A) :
  f <$> insert_sorted (λ a b, leb (f a) (f b)) x s = insert_sorted leb (f x) (f <$> s).
Proof.
  induction s as [|y s IHs]; simpl; [done|].
  destruct (leb (f x) (f y)); simpl; [done|]. f_equal. apply IHs.
Qed.

Lemma stable_sort_fmap {A B} (f : A → B) (leb : B → B → bool) (l : list A) :
  f <$> stable_sort (λ a b, leb (f a) (f b)) l = stable_sort leb (f <$> l).
Proof.
  unfold stable_sort. induction l as [|x l IH]; [done|].
  rewrite fmap_cons. cbn [foldr]. rewrite <- IH. apply insert_sorted_fmap.
Qed.

Lemma imap_tag_fmap {A B} (f : A → B) (g : nat → nat) (l : list A) :
  prod_map id f <$> imap (λ i x, (g i, x)) l = imap (λ i y, (g i, y)) (f <$> l).
Proof.
  revert g; induction l as [|x l IH]; intros g; simpl; [done|].
  f_equal. apply (IH (g ∘ S)).
Qed.

Lemma imap_pair_fmap {A B} (f : A → B) (l : list A) :
  prod_map id f <$> imap pair l = imap pair (f <$> l).
Proof. exact (imap_tag_fmap f id l). Qed.

Section StoreValues.
Variable margin : Z.
Implicit Types (h : heap) (sd : gmap string TrackSection).

Lemma valid_mono h h' (ls : list loc) :
  valid h ls → (length h ≤ length h')%nat → valid h' ls.
Proof. intros Hv Hlen. eapply Forall_impl; [done|]. simpl. lia. Qed.

Lemma deepcopy_trains_values (trains : list loc) (memo : gmap loc loc) h
    (copies : list loc) (h' : heap) :
  valid h trains →
  map_Forall (λ l l', (l < length h)%nat ∧ (l' < length h)%nat ∧
                      deref h l' = deref h l) memo →
  deepcopy_trains trains memo h = (copies, h') →
  (length h ≤ length h')%nat ∧
  (∀ l, (l < length h)%nat → deref h' l = deref h l) ∧
  valid h' copies ∧
  deref h' <$> copies = deref h <$> trains.
Proof.
  revert memo h copies h'.
  induction trains as [|l rest IH]; intros memo h copies h' Hv Hmemo; simpl.
  - intros [= <- <-]. repeat split; done.
  - apply Forall_cons in Hv as [Hl Hv].
    destruct (memo !! l) as [l'|] eqn:Hml.
    + destruct (deepcopy_trains rest memo h) as [cs h1] eqn:Hrec.
      intros [= <- <-].
      destruct (IH _ _ _ _ Hv Hmemo Hrec) as (Hlen & Hext & Hcs & Hvals).
      destruct (Hmemo _ _ Hml) as (_ & Hl' & Hsame).
      split; [done|]. split; [done|]. split.
      * constructor; [lia | done].
      * rewrite !fmap_cons, Hvals. f_equal. by rewrite Hext.
    + unfold alloc.
      destruct (deepcopy_trains rest (<[l:=length h]> memo) (h ++ [deref h l]))
        as [cs h1] eqn:Hrec.
      intros [= <- <-].
      assert (Hlen1 : length (h ++ [deref h l]) = S (length h))
        by (rewrite length_app; simpl; lia).
      assert (Hmemo1 :
        map_Forall (λ k k', (k < length (h ++ [deref h l]))%nat ∧
                            (k' < length (h ++ [deref h l]))%nat ∧
                            deref (h ++ [deref h l]) k' = deref (h ++ [deref h l]) k)
          (<[l:=length h]> memo)).
      { apply map_Forall_insert_2.
        - rewrite Hlen1. split; [lia|]. split; [lia|].
          by rewrite deref_alloc, deref_app_l.
        - intros k k' Hk. destruct (Hmemo _ _ Hk) as (Hk1 & Hk2 & Hk3).
          rewrite Hlen1. split; [lia|]. split; [lia|].
          by rewrite !deref_app_l. }
      assert (Hv1 : valid (h ++ [deref h l]) rest)
        by (eapply valid_mono; [done | lia]).
      destruct (IH _ _ _ _ Hv1 Hmemo1 Hrec) as (Hlen & Hext & Hcs & Hvals).
      assert (Hext' : ∀ l0, (l0 < length h)%nat → deref h1 l0 = deref h l0).
      { intros l0 Hl0. rewrite Hext by lia. by apply deref_app_l. }
      split; [lia|]. split; [done|]. split.
      * constructor; [lia | done].
      * rewrite !fmap_cons, Hvals. f_equal.
        -- rewrite Hext by lia. apply deref_alloc.
        -- apply fmap_deref_ext; [|done]. intros. by apply deref_app_l.
Qed.

Lemma _optimize_single_train_refs_values (train : loc) (scheduled : list loc) sd h
    (r : result loc) (h' : heap) :
  (train < length h)%nat → valid h scheduled →
  _optimize_single_train_refs margin train scheduled sd h = (r, h') →
  (length h ≤ length h')%nat ∧
  (∀ l, (l < length h)%nat → deref h' l = deref h l) ∧
  (∀ l, r = Ok l → (l < length h')%nat) ∧
  deref h' <$> r
  = _optimize_single_train margin (deref h train) (deref h <$> scheduled) sd.
Proof.
  intros Ht Hs. unfold _optimize_single_train_refs, _optimize_single_train, alloc.
  assert (Hlen1 : length (h ++ [deref h train]) = S (length h))
    by (rewrite length_app; simpl; lia).
  rewrite (deref_app_l h _ train Ht).
  rewrite (fmap_deref_ext h (h ++ [deref h train]) scheduled);
    [|intros; by apply deref_app_l | done].
  destruct (route_delay margin _ _ sd) as [total|e]; simpl.
  - case_decide; intros [= <- <-].
    + rewrite length_store_delay, Hlen1. split; [lia|]. split; [|split].
      * intros l Hl. rewrite deref_store_delay_ne by lia. by apply deref_app_l.
      * intros ? [= <-]. lia.
      * simpl. f_equal. rewrite deref_store_delay_eq by lia.
        by rewrite deref_alloc.
    + rewrite Hlen1. split; [lia|]. split; [|split].
      * intros l Hl. by apply deref_app_l.
      * intros ? [= <-]. lia.
      * simpl. f_equal. apply deref_alloc.
  - intros [= <- <-]. rewrite Hlen1. split; [lia|]. split; [|split]; try done.
    intros l Hl. by apply deref_app_l.
Qed.

Lemma greedy_loop_refs_values sd (its : list (nat * loc)) (opt : list loc) h
    (r : result (list loc)) (h' : heap) :
  valid h (snd <$> its) → valid h opt →
  greedy_loop_refs margin sd its opt h = (r, h') →
  (∀ l, (l < length h)%nat → deref h' l = deref h l) ∧
  (fmap (M:=list) (deref h')) <$> r
  = foldM (greedy_step margin sd) (prod_map id (deref h) <$> its) (deref h <$> opt).
Proof.
  revert opt h; induction its as [|[i l] its IH]; intros opt h Hits Hopt.
  - simpl. intros [= <- <-]. by split.
  - rewrite fmap_cons in Hits. apply Forall_cons in Hits as [Hl Hits].
    change ((i, l).2) with l in Hl.
    assert (Hsnoc : ∀ h1 o, (length h ≤ length h1)%nat → (o < length h1)%nat →
                            valid h1 (opt ++ [o])).
    { intros h1 o Hlen Ho. apply Forall_app. split; [by eapply valid_mono|].
      by constructor. }
    simpl. case_decide.
    + intros Hloop.
      destruct (IH _ _ Hits (Hsnoc h l (le_n _) Hl) Hloop) as [Hext Hr].
      split; [done|]. by rewrite Hr, fmap_app.
    + destruct (_optimize_single_train_refs margin l opt sd h) as [[o|e] h1] eqn:Hone;
        destruct (_optimize_single_train_refs_values _ _ _ _ _ _ Hl Hopt Hone)
          as (Hlen & Hext1 & Ho & Hval); rewrite <- Hval; simpl.
      * intros Hloop. specialize (Ho o eq_refl).
        assert (Hits1 : valid h1 (snd <$> its)) by (by eapply valid_mono).
        destruct (IH _ _ Hits1 (Hsnoc h1 o Hlen Ho) Hloop) as [Hext Hr].
        split; [intros l0 Hl0; rewrite Hext by lia; by apply Hext1|].
        rewrite Hr, fmap_app; simpl. f_equal.
        -- apply Forall_fmap_ext.
           apply Forall_fmap in Hits. eapply Forall_impl; [exact Hits|].
           intros [i0 l0] Hl0; simpl in *. unfold prod_map; simpl. f_equal.
           by apply Hext1.
        -- f_equal. by apply fmap_deref_ext.
      * intros [= <- <-]. by split.
Qed.

(** The store model computes, on the objects of the heap, what the value
    model computes on their values. *)
Lemma optimize_schedule_refs_values (trains : list loc) (sections : list TrackSection)
    h (r : result OptimizeResultRefs) (h' : heap) :
  valid h trains →
  optimize_schedule_refs margin trains sections h = (r, h') →
  optimize_result <$> r = optimize_schedule margin (deref h <$> trains) sections ∧
  (∀ res, r = Ok res →
     deref h' <$> optimized_train_refs res = optimized_trains (optimize_result res)).
Proof.
  intros Hv. unfold optimize_schedule_refs, optimize_schedule,
    _apply_greedy_optimization_refs, _apply_greedy_optimization.
  destruct (deepcopy_trains trains ∅ h) as [working h1] eqn:Hcopy.
  destruct (deepcopy_trains_values trains ∅ h working h1 Hv (map_Forall_empty _) Hcopy)
    as (Hlen1 & Hext1 & Hw & Hvals).
  set (sorted := stable_sort _ working).
  assert (Hsorted : valid h1 (snd <$> imap pair sorted)).
  { rewrite (snd_imap_pair id). unfold sorted, valid. by rewrite stable_sort_perm. }
  destruct (greedy_loop_refs margin (section_dict_of sections) (imap pair sorted) [] h1)
    as [ro h2] eqn:Hloop.
  destruct (greedy_loop_refs_values _ _ _ _ _ _ Hsorted (Forall_nil_2 _) Hloop)
    as [Hext2 Hr].
  rewrite imap_pair_fmap in Hr.
  unfold sorted in Hr.
  rewrite (stable_sort_fmap (deref h1) train_key_leb), Hvals in Hr. simpl in Hr.
  rewrite <- Hr.
  assert (Htrains : deref h2 <$> trains = deref h <$> trains).
  { apply fmap_deref_ext; [|done]. intros l Hl. rewrite Hext2 by lia. by apply Hext1. }
  destruct ro as [opt|e]; intros [= <- <-]; simpl; [|by split].
  rewrite Htrains. split.
  - destruct (_generate_optimized_schedule _ sections); simpl; [|done].
    destruct (_calculate_metrics margin _ _ sections); simpl; [|done].
    by destruct (detect_conflicts margin _ sections).
  - intros res.
    destruct (_generate_optimized_schedule _ sections); simpl; [|done].
    destruct (_calculate_metrics margin _ _ sections); simpl; [|done].
    destruct (detect_conflicts margin _ sections); simpl; [|done].
    by intros [= <-].
Qed.

End StoreValues.

(** ** The default section time *)

(** [__post_init__] does not change any section time the engine reads: a
    train built without a table takes ten minutes in every section, on its
    route or not. *)
Lemma section_time_post_init (t : Train) (sid : string) :
  section_time (post_init t) sid = section_time t sid.
Proof.
  unfold post_init. case_decide as He; [|done].
  unfold section_time; simpl. rewrite He, lookup_empty; simpl.
  assert (H : map_Forall (λ _ v, v = 10)
                (foldl (λ m s, <[s := 10]> m) (∅ : gmap string Z) (route t))).
  { apply (foldl_invariant (map_Forall (λ _ v, v = 10))); [|apply map_Forall_empty].
    intros m s _ Hm. by apply map_Forall_insert_2. }
  destruct (foldl _ _ _ !! sid) as [v|] eqn:E; [|done].
  simpl. by apply H in E.
Qed.

(** ** Timelines of whole routes *)

Lemma odict_get_append {V} (k k' : string) (v : V) (d : list (string * list V)) :
  odict_get k' (odict_append k v d)
  = if decide (k = k') then odict_get k' d ++ [v] else odict_get k' d.
Proof.
  induction d as [|[k0 vs] d IH]; simpl.
  - by repeat case_decide.
  - destruct (decide (k0 = k)) as [->|Hk0]; simpl.
    + by repeat case_decide.
    + rewrite IH. repeat case_decide; congruence.
Qed.

Lemma odict_keys_append_in {V} (k : string) (v : V) (d : list (string * list V)) :
  k ∈ d.*1 → (odict_append k v d).*1 = d.*1.
Proof.
  induction d as [|[k0 vs] d IH]; intros Hin.
  - by apply elem_of_nil in Hin.
  - cbn [odict_append]. destruct (decide (k0 = k)) as [->|Hk0]; [done|].
    rewrite !fmap_cons. f_equal. apply IH.
    rewrite fmap_cons in Hin. apply elem_of_cons in Hin as [?|?]; [|done].
    simpl in *; congruence.
Qed.

Lemma odict_keys_append_new {V} (k : string) (v : V) (d : list (string * list V)) :
  k ∉ d.*1 → (odict_append k v d).*1 = d.*1 ++ [k].
Proof.
  induction d as [|[k0 vs] d IH]; intros Hin; [done|].
  rewrite fmap_cons in Hin. apply not_elem_of_cons in Hin as [Hne Hin].
  cbn [odict_append]. simpl in Hne. rewrite decide_False by congruence.
  rewrite !fmap_cons, IH by done. done.
Qed.

Lemma odict_get_absent {V} (k : string) (d : list (string * list V)) :
  k ∉ d.*1 → odict_get k d = [].
Proof.
  induction d as [|[k0 vs] d IH]; simpl; [done|].
  intros Hk. apply not_elem_of_cons in Hk as [Hne Hk].
  rewrite decide_False by congruence. by apply IH.
Qed.

Lemma odict_get_fmap {V W} (f : list V → list W) (k : string)
    (d : list (string * list V)) :
  f [] = [] →
  odict_get k ((λ '(sid, vs), (sid, f vs)) <$> d) = f (odict_get k d).
Proof.
  intros Hf. induction d as [|[k0 vs] d IH]; simpl; [done|].
  by case_decide.
Qed.

Lemma odict_keys_fmap {V W} (f : list V → list W) (d : list (string * list V)) :
  ((λ '(sid, vs), (sid, f vs)) <$> d).*1 = d.*1.
Proof. induction d as [|[k0 vs] d IH]; simpl; [done|]. by f_equal. Qed.

Section Timelines.
Implicit Types (train : Train) (d : list (string * list Occupancy)).

Lemma walk_get train (sid : string) (rt : list string) (ct : datetime) d :
  odict_get sid (foldl (walk_step train) (ct, d) rt).2
  = odict_get sid d ++ route_entries train sid ct rt.
Proof.
  revert ct d; induction rt as [|s rest IH]; intros ct d; simpl.
  - by rewrite app_nil_r.
  - rewrite IH, odict_get_append.
    case_decide; [|done]. by rewrite <- app_assoc.
Qed.

Lemma walk_keys (P : string → Prop) train (rt : list string) (ct : datetime) d :
  Forall P d.*1 → Forall P rt → Forall P (foldl (walk_step train) (ct, d) rt).2.*1.
Proof.
  revert ct d; induction rt as [|s rest IH]; intros ct d Hd Hrt; simpl; [done|].
  apply Forall_cons in Hrt as [Hs Hrt].
  apply IH; [|done]. destruct (decide (s ∈ d.*1)) as [Hin|Hin].
  - by rewrite odict_keys_append_in.
  - rewrite odict_keys_append_new by done.
    apply Forall_app. split; [done|]. by constructor.
Qed.

Lemma walk_keys_NoDup train (rt : list string) (ct : datetime) d :
  NoDup d.*1 → NoDup (foldl (walk_step train) (ct, d) rt).2.*1.
Proof.
  revert ct d; induction rt as [|s rest IH]; intros ct d Hd; simpl; [done|].
  apply IH. destruct (decide (s ∈ d.*1)) as [Hin|Hin].
  - by rewrite odict_keys_append_in.
  - rewrite odict_keys_append_new by done. apply NoDup_app. split; [done|].
    split; [|apply NoDup_singleton].
    intros k Hk ->%list_elem_of_singleton. done.
Qed.

Lemma time_to_section_loop_acc train (sid : string) (rt : list string) (acc : Z) :
  time_to_section_loop train sid rt acc
  = acc + time_to_section_loop train sid rt 0.
Proof.
  revert acc; induction rt as [|s rest IH]; intros acc; simpl; [lia|].
  case_decide; [lia|]. rewrite IH, (IH (0 + _)). lia.
Qed.

Lemma route_entries_absent train (sid : string) (ct : datetime) (rt : list string) :
  sid ∉ rt → route_entries train sid ct rt = [].
Proof.
  revert ct; induction rt as [|s rest IH]; intros ct Hin; simpl; [done|].
  apply not_elem_of_cons in Hin as [Hne Hin].
  rewrite decide_False by congruence. by apply IH.
Qed.

(** On a route without repetition the section has one entry, at the time the
    preceding sections take. *)
Lemma route_entries_once train (sid : string) (ct : datetime) (rt : list string) :
  NoDup rt → sid ∈ rt →
  route_entries train sid ct rt
  = [(train, ct + minutes (time_to_section_loop train sid rt 0),
             ct + minutes (time_to_section_loop train sid rt 0)
                + minutes (section_time train sid))].
Proof.
  revert ct; induction rt as [|s rest IH]; intros ct Hnd Hin; simpl.
  - by apply elem_of_nil in Hin.
  - apply NoDup_cons in Hnd as [Hs Hnd]. case_decide as Heq.
    + subst s. rewrite route_entries_absent by done. simpl.
      change (minutes 0) with 0. by rewrite Z.add_0_r.
    + apply elem_of_cons in Hin as [?|Hin]; [congruence|].
      rewrite IH by done. simpl.
      rewrite (time_to_section_loop_acc _ _ _ (0 + _)).
      f_equal. f_equal; [f_equal|f_equal]; unfold minutes; lia.
Qed.

Lemma walk_route_window train (sid : string) d :
  NoDup (route train) → sid ∈ route train →
  odict_get sid (walk_route train d)
  = odict_get sid d
    ++ [(train, (scheduled_window train sid).1, (scheduled_window train sid).2)].
Proof.
  intros Hnd Hin. unfold scheduled_window; simpl.
  rewrite <- (route_entries_once train sid (get_actual_arrival train)) by done.
  exact (walk_get train sid (route train) (get_actual_arrival train) d).
Qed.

Lemma walk_route_keys (P : string → Prop) train d :
  Forall P d.*1 → Forall P (route train) → Forall P (walk_route train d).*1.
Proof. apply walk_keys. Qed.

Lemma walk_route_keys_NoDup train d : NoDup d.*1 → NoDup (walk_route train d).*1.
Proof. apply walk_keys_NoDup. Qed.

End Timelines.

(** ** Two trains in a shared section *)

Lemma section_dict_of_id (sections : list TrackSection) (k : string)
    (section : TrackSection) :
  section_dict_of sections !! k = Some section → section_id section = k.
Proof.
  revert k section. change (map_Forall (λ k s, section_id s = k) (section_dict_of sections)).
  unfold section_dict_of.
  apply (foldl_invariant (map_Forall (λ k s, section_id s = k)));
    [|apply map_Forall_empty].
  intros m s _ Hm. by apply map_Forall_insert_2.
Qed.

Lemma filter_all {A} (P : A → Prop) `{!∀ x, Decision (P x)} (l : list A) :
  Forall P l → filter P l = l.
Proof.
  induction 1 as [|x l Hx _ IH]; [done|].
  by rewrite filter_cons, decide_True, IH.
Qed.

Lemma filter_none {A} (P : A → Prop) `{!∀ x, Decision (P x)} (l : list A) :
  Forall (λ x, ¬ P x) l → filter P l = [].
Proof.
  induction 1 as [|x l Hx _ IH]; [done|].
  by rewrite filter_cons, decide_False, IH.
Qed.

Section SharedSection.
Variable margin : Z.
Hypothesis margin_nonneg : 0 ≤ margin.
Implicit Types (section : TrackSection) (d : list (string * list Occupancy)).

Lemma _detect_section_conflicts_section_id (train_times : list Occupancy) section :
  Forall (λ c, conflict_section_id c = section_id section)
    (_detect_section_conflicts margin train_times section).
Proof.
  apply _detect_section_conflicts_Forall.
  intros t1 t2 s1 e1 s2 e2 c. unfold _create_conflict.
  case_decide; [done|]. by intros [= <-].
Qed.

(** The loop of [detect_conflicts] over the timelines: when every key is a
    known section it returns, and the conflicts it adds for section [sid] are
    those of the timeline of [sid]. *)
Lemma detect_loop_section (sections : list TrackSection) (sid : string) section d
    (acc : list Conflict) :
  NoDup d.*1 →
  Forall (λ k, is_Some (section_dict_of sections !! k)) d.*1 →
  section_dict_of sections !! sid = Some section →
  ∃ cs,
    foldM (λ conflicts '(k, train_times),
             section ← getitem (section_dict_of sections) k;
             Ok (conflicts ++ _detect_section_conflicts margin train_times section))
          d acc = Ok cs ∧
    filter (λ c, conflict_section_id c = sid) cs
    = filter (λ c, conflict_section_id c = sid) acc
      ++ _detect_section_conflicts margin (odict_get sid d) section.
Proof.
  intros Hnd Hkeys Hsid. revert acc.
  induction d as [|[k tt] d IH]; intros acc.
  - exists acc. split; [done|]. by rewrite app_nil_r.
  - rewrite fmap_cons in Hnd, Hkeys.
    apply NoDup_cons in Hnd as [Hk Hnd]. apply Forall_cons in Hkeys as [[s Hs] Hkeys].
    simpl in Hk, Hs.
    destruct (IH Hnd Hkeys (acc ++ _detect_section_conflicts margin tt s))
      as (cs & Hcs & Hfilter).
    exists cs. split.
    { simpl. unfold getitem. rewrite Hs. simpl. exact Hcs. }
    rewrite Hfilter, filter_app, <- app_assoc. f_equal.
    pose proof (_detect_section_conflicts_section_id tt s) as Hids.
    rewrite (section_dict_of_id _ _ _ Hs) in Hids.
    simpl. destruct (decide (k = sid)) as [->|Hne].
    + assert (s = section) as -> by congruence.
      rewrite (odict_get_absent sid d) by done.
      rewrite filter_all by done. apply app_nil_r.
    + rewrite filter_none; [done|].
      eapply Forall_impl; [exact Hids|]. simpl. congruence.
Qed.

Lemma two_trains_timeline (x y : Train) (sid : string)
    (sd : gmap string TrackSection) :
  NoDup (route x) → NoDup (route y) → sid ∈ route x → sid ∈ route y →
  odict_get sid (_generate_section_schedules [x; y] sd)
  = if (scheduled_window x sid).1 <=? (scheduled_window y sid).1
    then [(x, (scheduled_window x sid).1, (scheduled_window x sid).2);
          (y, (scheduled_window y sid).1, (scheduled_window y sid).2)]
    else [(y, (scheduled_window y sid).1, (scheduled_window y sid).2);
          (x, (scheduled_window x sid).1, (scheduled_window x sid).2)].
Proof.
  intros Hx Hy Hinx Hiny. unfold _generate_section_schedules.
  rewrite (odict_get_fmap (stable_sort (λ a b : Occupancy, a.1.2 <=? b.1.2))) by done.
  simpl. rewrite !walk_route_window by done. simpl. done.
Qed.

Lemma two_trains_keys (P : string → Prop) (x y : Train)
    (sd : gmap string TrackSection) :
  Forall P (route x ++ route y) →
  NoDup (_generate_section_schedules [x; y] sd).*1 ∧
  Forall P (_generate_section_schedules [x; y] sd).*1.
Proof.
  intros [Hx Hy]%Forall_app. unfold _generate_section_schedules.
  rewrite (odict_keys_fmap (stable_sort (λ a b : Occupancy, a.1.2 <=? b.1.2))).
  simpl. split.
  - apply walk_route_keys_NoDup, walk_route_keys_NoDup. constructor.
  - apply walk_route_keys; [|done]. apply walk_route_keys; [constructor | done].
Qed.

(** Two trains whose windows really overlap in a section of capacity 1 that
    both routes run through: the detector returns, and exactly one of its
    conflicts is in that section. *)
Lemma two_trains_shared_section (x y : Train) (sid : string) section
    (sections : list TrackSection) :
  NoDup (route x) → NoDup (route y) → sid ∈ route x → sid ∈ route y →
  Forall (λ s, is_Some (section_dict_of sections !! s)) (route x ++ route y) →
  section_dict_of sections !! sid = Some section → capacity section = 1 →
  Z.max (scheduled_window x sid).1 (scheduled_window y sid).1
    < Z.min (scheduled_window x sid).2 (scheduled_window y sid).2 →
  ∃ cs c,
    detect_conflicts margin [x; y] sections = Ok cs ∧
    filter (λ c, conflict_section_id c = sid) cs = [c] ∧
    ((train1 c = x ∧ train2 c = y) ∨ (train1 c = y ∧ train2 c = x)) ∧
    conflict_section_id c = sid ∧
    conflict_start_time c
    = Z.max (scheduled_window x sid).1 (scheduled_window y sid).1 ∧
    conflict_end_time c
    = Z.min (scheduled_window x sid).2 (scheduled_window y sid).2 ∧
    severity c
    = _calculate_conflict_severity x y (conflict_start_time c)
        (conflict_end_time c) section.
Proof.
  intros Hx Hy Hinx Hiny Hroutes Hsid Hcap Hov.
  destruct (two_trains_keys _ x y (section_dict_of sections) Hroutes) as [Hnd Hkeys].
  destruct (detect_loop_section sections sid section _ [] Hnd Hkeys Hsid)
    as (cs & Hcs & Hfilter).
  rewrite two_trains_timeline, filter_nil, app_nil_l in Hfilter by done.
  pose proof (section_dict_of_id _ _ _ Hsid) as Hid.
  exists cs. revert Hfilter.
  destruct ((scheduled_window x sid).1 <=? (scheduled_window y sid).1).
  - rewrite (two_entries_one_conflict margin margin_nonneg) by done.
    intros Hfilter. eexists. split; [exact Hcs|]. split; [exact Hfilter|]. simpl.
    repeat split; try done. tauto.
  - rewrite (two_entries_one_conflict margin margin_nonneg) by lia.
    intros Hfilter. eexists. split; [exact Hcs|]. split; [exact Hfilter|]. simpl.
    repeat split; try done; try tauto; try lia. apply severity_sym.
Qed.

End SharedSection.

(** * Further properties of the engine *)

(** ** Timelines of a train list *)

Lemma odict_append_Forall {V} (P : string → V → Prop) (k : string) (v : V)
    (d : list (string * list V)) :
  P k v → Forall (λ kv, Forall (P kv.1) kv.2) d →
  Forall (λ kv, Forall (P kv.1) kv.2) (odict_append k v d).
Proof.
  intros Hv. induction 1 as [|[k0 vs] d Hk0 Hd IH]; simpl.
  - by repeat constructor.
  - case_decide as Hk; constructor; try done. simpl in *. subst k0.
    apply Forall_app. split; [done|]. by constructor.
Qed.

Lemma odict_keys_append_elem {V} (k k' : string) (v : V) (d : list (string * list V)) :
  k' ∈ (odict_append k v d).*1 ↔ k' = k ∨ k' ∈ d.*1.
Proof.
  destruct (decide (k ∈ d.*1)) as [Hin|Hin].
  - rewrite odict_keys_append_in by done. split; [by right|]. by intros [->|?].
  - rewrite odict_keys_append_new by done.
    rewrite elem_of_app, list_elem_of_singleton. tauto.
Qed.

Section TrainTimelines.
Implicit Types (train : Train) (d : list (string * list Occupancy))
  (trains : list Train).

(** The dictionary of [_generate_section_schedules] before the sort. *)
Lemma walk_keys_elem train (rt : list string) (ct : datetime) d (k : string) :
  k ∈ (foldl (walk_step train) (ct, d) rt).2.*1 ↔ k ∈ rt ∨ k ∈ d.*1.
Proof.
  revert ct d; induction rt as [|s rest IH]; intros ct d; simpl.
  - split; [by right|]. by intros [?%elem_of_nil|?].
  - rewrite IH, odict_keys_append_elem, elem_of_cons. tauto.
Qed.

Lemma walk_entries (P : string → Occupancy → Prop) train (rt : list string)
    (ct : datetime) d :
  (∀ k s, k ∈ rt → P k (train, s, s + minutes (section_time train k))) →
  Forall (λ kv, Forall (P kv.1) kv.2) d →
  Forall (λ kv, Forall (P kv.1) kv.2) (foldl (walk_step train) (ct, d) rt).2.
Proof.
  revert ct d; induction rt as [|s rest IH]; intros ct d HP Hd; simpl; [done|].
  apply IH.
  - intros k s0 Hk. apply HP. by right.
  - apply odict_append_Forall; [|done]. apply HP. by left.
Qed.

Lemma raw_schedules_keys_elem trains d (k : string) :
  k ∈ (foldl (λ d train, walk_route train d) d trains).*1 ↔
  (∃ t, t ∈ trains ∧ k ∈ route t) ∨ k ∈ d.*1.
Proof.
  revert d; induction trains as [|t trains IH]; intros d; simpl.
  - split; [by right|]. intros [(t & Ht%elem_of_nil & _)|?]; done.
  - rewrite IH. unfold walk_route. rewrite walk_keys_elem. split.
    + intros [(t' & Ht' & Hk)|[Hk|Hk]]; [| |by right].
      * left. exists t'. split; [by right | done].
      * left. exists t. split; [by left | done].
    + intros [(t' & Ht' & Hk)|Hk]; [|by right; right].
      apply elem_of_cons in Ht' as [->|Ht']; [by right; left|].
      left. by exists t'.
Qed.

Lemma raw_schedules_keys_NoDup trains d :
  NoDup d.*1 → NoDup (foldl (λ d train, walk_route train d) d trains).*1.
Proof.
  revert d; induction trains as [|t trains IH]; intros d Hd; simpl; [done|].
  by apply IH, walk_route_keys_NoDup.
Qed.

Lemma raw_schedules_entries (P : string → Occupancy → Prop) trains d :
  (∀ t k s, t ∈ trains → k ∈ route t →
            P k (t, s, s + minutes (section_time t k))) →
  Forall (λ kv, Forall (P kv.1) kv.2) d →
  Forall (λ kv, Forall (P kv.1) kv.2)
    (foldl (λ d train, walk_route train d) d trains).
Proof.
  revert d; induction trains as [|t trains IH]; intros d HP Hd; simpl; [done|].
  apply IH.
  - intros t' k s Ht'. apply HP. by right.
  - apply walk_entries; [|done]. intros k s Hk. apply HP; [by left | done].
Qed.

Lemma raw_schedules_get trains d (sid : string) :
  odict_get sid (foldl (λ d train, walk_route train d) d trains)
  = odict_get sid d
    ++ concat ((λ t, route_entries t sid (get_actual_arrival t) (route t)) <$> trains).
Proof.
  revert d; induction trains as [|t trains IH]; intros d; simpl.
  - by rewrite app_nil_r.
  - rewrite IH. unfold walk_route. rewrite walk_get. by rewrite <- app_assoc.
Qed.

(** The keys of the timelines are the sections on the routes, each once. *)
Lemma section_schedules_keys trains (sd : gmap string TrackSection) (k : string) :
  k ∈ (_generate_section_schedules trains sd).*1 ↔ ∃ t, t ∈ trains ∧ k ∈ route t.
Proof.
  unfold _generate_section_schedules.
  rewrite (odict_keys_fmap (stable_sort (λ a b : Occupancy, a.1.2 <=? b.1.2))).
  rewrite raw_schedules_keys_elem. split; [|by left].
  intros [?|?%elem_of_nil]; done.
Qed.

Lemma section_schedules_keys_NoDup trains (sd : gmap string TrackSection) :
  NoDup (_generate_section_schedules trains sd).*1.
Proof.
  unfold _generate_section_schedules.
  rewrite (odict_keys_fmap (stable_sort (λ a b : Occupancy, a.1.2 <=? b.1.2))).
  apply raw_schedules_keys_NoDup. constructor.
Qed.

(** Every entry of a timeline is a train of the list in a section of its
    route, for the time the train takes there. *)
Lemma section_schedules_entries trains (sd : gmap string TrackSection) :
  Forall (λ kv : string * list Occupancy,
            Forall (λ x : Occupancy,
                      x.1.1 ∈ trains ∧ kv.1 ∈ route x.1.1 ∧
                      x.2 = x.1.2 + minutes (section_time x.1.1 kv.1)) kv.2)
    (_generate_section_schedules trains sd).
Proof.
  unfold _generate_section_schedules. apply Forall_fmap.
  eapply Forall_impl.
  - apply (raw_schedules_entries
             (λ k (x : Occupancy), x.1.1 ∈ trains ∧ k ∈ route x.1.1 ∧
                                   x.2 = x.1.2 + minutes (section_time x.1.1 k))).
    + intros t k s Ht Hk. by simpl.
    + constructor.
  - intros [k tt] Htt. simpl in *. by rewrite stable_sort_perm.
Qed.

Lemma section_schedules_get trains (sd : gmap string TrackSection) (sid : string) :
  odict_get sid (_generate_section_schedules trains sd)
  ≡ₚ concat ((λ t, route_entries t sid (get_actual_arrival t) (route t)) <$> trains).
Proof.
  unfold _generate_section_schedules.
  rewrite (odict_get_fmap (stable_sort (λ a b : Occupancy, a.1.2 <=? b.1.2))) by done.
  by rewrite stable_sort_perm, raw_schedules_get.
Qed.

End TrainTimelines.

(** ** The detector on a train list *)

Lemma no_duplicate_pairs_app (cs cs' : list Conflict) :
  no_duplicate_pairs cs → no_duplicate_pairs cs' →
  (∀ c c', c ∈ cs → c' ∈ cs' → conflict_section_id c ≠ conflict_section_id c') →
  no_duplicate_pairs (cs ++ cs').
Proof.
  intros Hcs Hcs' Hsec i j ci cj Hi Hj Hsame.
  assert (Hid : conflict_section_id ci = conflict_section_id cj).
  { unfold same_conflict in Hsame. apply bool_decide_eq_true in Hsame. tauto. }
  apply lookup_app_Some in Hi as [Hi|[Hi1 Hi2]];
    apply lookup_app_Some in Hj as [Hj|[Hj1 Hj2]].
  - by eapply Hcs.
  - destruct (Hsec ci cj); [by eapply list_elem_of_lookup_2.. | done].
  - destruct (Hsec cj ci); [by eapply list_elem_of_lookup_2.. | done].
  - assert ((i - length cs)%nat = (j - length cs)%nat) by (by eapply Hcs'). lia.
Qed.

Section DetectorOnTrains.
Variable margin : Z.
Implicit Types (trains : list Train) (sections : list TrackSection)
  (d : list (string * list Occupancy)).

(** The loop of [detect_conflicts] over any dictionary of timelines. *)
Lemma detect_loop_outcome sections d (acc : list Conflict) :
  match foldM (λ conflicts '(k, train_times),
                 section ← getitem (section_dict_of sections) k;
                 Ok (conflicts ++ _detect_section_conflicts margin train_times section))
              d acc with
  | Ok _ => Forall (λ k, is_Some (section_dict_of sections !! k)) d.*1
  | Raise e => ∃ k, e = KeyError k ∧ k ∈ d.*1 ∧ section_dict_of sections !! k = None
  end.
Proof.
  revert acc; induction d as [|[k tt] d IH]; intros acc; simpl; [constructor|].
  unfold getitem. destruct (section_dict_of sections !! k) as [s|] eqn:Hk; simpl.
  - specialize (IH (acc ++ _detect_section_conflicts margin tt s)).
    destruct (foldM _ d _) as [cs|e].
    + constructor; [by eexists | done].
    + destruct IH as (k' & -> & Hin & Hnone). exists k'. split; [done|].
      split; [by right | done].
  - exists k. split; [done|]. split; [by left | done].
Qed.

Lemma detect_conflicts_outcome trains sections :
  match detect_conflicts margin trains sections with
  | Ok _ =>
      ∀ t sid, t ∈ trains → sid ∈ route t →
               is_Some (section_dict_of sections !! sid)
  | Raise e =>
      ∃ t sid, e = KeyError sid ∧ t ∈ trains ∧ sid ∈ route t ∧
               section_dict_of sections !! sid = None
  end.
Proof.
  unfold detect_conflicts.
  pose proof (detect_loop_outcome sections
                (_generate_section_schedules trains (section_dict_of sections)) [])
    as H.
  cbv zeta. destruct (foldM _ _ _) as [cs|e].
  - intros t sid Ht Hsid.
    apply (proj1 (Forall_forall _ _) H), section_schedules_keys. by exists t.
  - destruct H as (k & -> & Hk & Hnone).
    apply section_schedules_keys in Hk as (t & Ht & Hk). by exists t, k.
Qed.

Lemma detect_conflicts_total trains sections :
  (∀ t sid, t ∈ trains → sid ∈ route t →
            is_Some (section_dict_of sections !! sid)) →
  ∃ cs, detect_conflicts margin trains sections = Ok cs.
Proof.
  intros Hknown. pose proof (detect_conflicts_outcome trains sections) as H.
  destruct (detect_conflicts margin trains sections) as [cs|e]; [by exists cs|].
  destruct H as (t & sid & _ & Ht & Hsid & Hnone).
  destruct (Hknown t sid Ht Hsid) as [s Hs]. congruence.
Qed.

(** The conflicts of the sections processed so far. *)
Lemma detect_loop_invariant (P : string → Occupancy → Prop)
    (Q : Conflict → Prop) sections d (cs : list Conflict) :
  Forall (λ kv, Forall (P kv.1) kv.2) d →
  (∀ k section (x y : Occupancy) c,
     section_dict_of sections !! k = Some section → P k x → P k y →
     _create_conflict x.1.1 y.1.1 section x.1.2 x.2 y.1.2 y.2 = Some c → Q c) →
  foldM (λ conflicts '(k, train_times),
           section ← getitem (section_dict_of sections) k;
           Ok (conflicts ++ _detect_section_conflicts margin train_times section))
        d [] = Ok cs →
  Forall Q cs.
Proof.
  intros Hd HQ. apply (foldM_invariant (Forall Q)); [|constructor].
  intros acc [k tt] acc' Hin Hacc Hbody.
  apply bind_Ok in Hbody as (section & Hs & [= <-]).
  unfold getitem in Hs. destruct (section_dict_of sections !! k) as [s|] eqn:Hk; [|done].
  injection Hs as ->.
  apply Forall_app. split; [done|].
  pose proof (proj1 (Forall_forall _ _) Hd _ Hin) as Htt. simpl in Htt.
  eapply Forall_impl; [apply _detect_section_conflicts_sound|].
  intros c (i & j & t1 & t2 & s1 & e1 & s2 & e2 & Hi & Hj & _ & _ & _ & Hc).
  apply (HQ k section (t1, s1, e1) (t2, s2, e2) c); try done.
  - apply (proj1 (Forall_forall _ _) Htt). by eapply list_elem_of_lookup_2.
  - apply (proj1 (Forall_forall _ _) Htt). by eapply list_elem_of_lookup_2.
Qed.

Lemma duration_minutes_nonneg (c : Conflict) :
  conflict_start_time c ≤ conflict_end_time c → 0 ≤ duration_minutes c.
Proof.
  intros. unfold duration_minutes. rewrite py_int_minutes.
  apply Z.quot_pos; lia.
Qed.

Lemma detect_conflicts_well_formed trains sections (cs : list Conflict) :
  detect_conflicts margin trains sections = Ok cs →
  Forall (well_formed_conflict trains sections) cs.
Proof.
  unfold detect_conflicts. cbv zeta.
  apply (detect_loop_invariant
           (λ k (x : Occupancy), x.1.1 ∈ trains ∧ k ∈ route x.1.1 ∧
                                 x.2 = x.1.2 + minutes (section_time x.1.1 k))).
  - apply section_schedules_entries.
  - intros k section [[t1 s1] e1] [[t2 s2] e2] c Hs (Ht1 & Hk1 & _) (Ht2 & Hk2 & _).
    simpl in *. unfold _create_conflict. case_decide as Hw; [done|].
    intros [= <-]. pose proof (section_dict_of_id _ _ _ Hs) as Hid.
    unfold well_formed_conflict; simpl. rewrite Hid.
    repeat split; try done; try lia.
    apply duration_minutes_nonneg. simpl. lia.
Qed.

(** The conflicts of the processed sections carry the ids of those sections,
    and no pair twice. *)
Lemma detect_loop_no_duplicate sections d (acc cs : list Conflict) :
  NoDup d.*1 →
  no_duplicate_pairs acc →
  Forall (λ c, conflict_section_id c ∉ d.*1) acc →
  foldM (λ conflicts '(k, train_times),
           section ← getitem (section_dict_of sections) k;
           Ok (conflicts ++ _detect_section_conflicts margin train_times section))
        d acc = Ok cs →
  no_duplicate_pairs cs.
Proof.
  revert acc; induction d as [|[k tt] d IH]; intros acc Hnd Hacc Hids; simpl.
  - by intros [= <-].
  - rewrite fmap_cons in Hnd, Hids. apply NoDup_cons in Hnd as [Hk Hnd]. simpl in Hk.
    intros (acc' & Hbody & Hrest)%bind_Ok.
    apply bind_Ok in Hbody as (section & Hs & [= <-]).
    unfold getitem in Hs.
    destruct (section_dict_of sections !! k) as [s|] eqn:Hsk; [|done].
    injection Hs as ->.
    pose proof (_detect_section_conflicts_section_id margin tt section) as Hnew.
    rewrite (section_dict_of_id _ _ _ Hsk) in Hnew.
    apply (IH (acc ++ _detect_section_conflicts margin tt section)); try done.
    + apply no_duplicate_pairs_app; [done|..].
      * apply _detect_section_conflicts_no_duplicate.
      * intros c c' Hc Hc' Heq.
        apply (proj1 (Forall_forall _ _) Hids) in Hc.
        apply (proj1 (Forall_forall _ _) Hnew) in Hc'. simpl in Hc.
        apply Hc. rewrite Heq, Hc'. by left.
    + apply Forall_app. split.
      * eapply Forall_impl; [exact Hids|]. intros c Hc Hin. apply Hc. by right.
      * eapply Forall_impl; [exact Hnew|]. intros c -> Hin. done.
Qed.

Lemma detect_conflicts_no_duplicate trains sections (cs : list Conflict) :
  detect_conflicts margin trains sections = Ok cs → no_duplicate_pairs cs.
Proof.
  unfold detect_conflicts. cbv zeta. apply detect_loop_no_duplicate.
  - apply section_schedules_keys_NoDup.
  - intros i j ci cj Hi. by rewrite lookup_nil in Hi.
  - constructor.
Qed.

End DetectorOnTrains.

(** ** A train alone *)

Lemma pairwise_perm {A} (R : A → A → Prop) (l k : list A) :
  l ≡ₚ k → pairwise R l → pairwise R k.
Proof.
  intros Hp Hl. symmetry in Hp. apply Permutation_inj in Hp as (_ & f & Hinj & Hf).
  intros i j a b Hi Hj Hne. rewrite Hf in Hi, Hj.
  apply (Hl (f i) (f j)); try done. intros Heq. by apply Hinj in Heq.
Qed.

Lemma odict_get_elem {V} (k : string) (vs : list V) (d : list (string * list V)) :
  NoDup d.*1 → (k, vs) ∈ d → odict_get k d = vs.
Proof.
  induction d as [|[k0 vs0] d IH]; intros Hnd Hin.
  - by apply elem_of_nil in Hin.
  - rewrite fmap_cons in Hnd. apply NoDup_cons in Hnd as [Hk0 Hnd]. simpl in *.
    apply elem_of_cons in Hin as [[= <- <-]|Hin].
    + by rewrite decide_True.
    + rewrite decide_False; [by apply IH|].
      intros ->. apply Hk0. apply list_elem_of_fmap. by exists (k, vs).
Qed.

Section TrainAlone.
Variable margin : Z.
Variable t : Train.
Hypothesis times_nonneg : ∀ sid, sid ∈ route t → 0 ≤ section_time t sid.

Lemma route_entries_bounds (sid : string) (ct : datetime) (rt : list string) :
  rt ⊆ route t →
  Forall (λ x : Occupancy, ct ≤ x.1.2 ∧ x.1.2 ≤ x.2) (route_entries t sid ct rt).
Proof.
  revert ct; induction rt as [|s rest IH]; intros ct Hsub; simpl; [constructor|].
  assert (0 ≤ section_time t s) by (apply times_nonneg, Hsub; by left).
  assert (Hrest : rest ⊆ route t) by (intros x Hx; apply Hsub; by right).
  apply Forall_app. split.
  - case_decide; [|constructor]. constructor; [|constructor]. simpl.
    unfold minutes. lia.
  - eapply Forall_impl; [by apply IH|]. intros x. simpl. unfold minutes. lia.
Qed.

Lemma route_entries_ordered (sid : string) (ct : datetime) (rt : list string)
    (i j : nat) (a b : Occupancy) :
  rt ⊆ route t →
  route_entries t sid ct rt !! i = Some a → route_entries t sid ct rt !! j = Some b →
  (i < j)%nat → a.2 ≤ b.1.2.
Proof.
  revert ct i j; induction rt as [|s rest IH]; intros ct i j Hsub; simpl; [done|].
  assert (Hrest : rest ⊆ route t) by (intros x Hx; apply Hsub; by right).
  case_decide; simpl; [|by apply IH].
  destruct i as [|i], j as [|j]; simpl; try lia.
  - intros [= <-] Hb _. simpl.
    pose proof (route_entries_bounds sid (ct + minutes (section_time t s)) rest Hrest)
      as Hbounds.
    apply list_elem_of_lookup_2 in Hb.
    apply (proj1 (Forall_forall _ _) Hbounds) in Hb. lia.
  - intros Ha Hb Hij. apply (IH _ i j Hrest Ha Hb). lia.
Qed.

Lemma route_entries_pairwise (sid : string) :
  pairwise disjoint_windows (route_entries t sid (get_actual_arrival t) (route t)).
Proof.
  intros i j a b Ha Hb Hne. unfold disjoint_windows.
  destruct (decide (i < j)%nat).
  - left. by eapply (route_entries_ordered sid _ (route t) i j).
  - right. eapply (route_entries_ordered sid _ (route t) j i); try done. lia.
Qed.

(** A single train whose section times are not negative has no conflict,
    whatever its route, when the sections of the route are known. *)
Lemma detect_conflicts_alone (sections : list TrackSection) :
  (∀ sid, sid ∈ route t → is_Some (section_dict_of sections !! sid)) →
  detect_conflicts margin [t] sections = Ok [].
Proof.
  intros Hknown.
  destruct (detect_conflicts_total margin [t] sections) as [cs Hcs].
  { intros t' sid ->%list_elem_of_singleton. apply Hknown. }
  rewrite Hcs. f_equal.
  assert (Hnone : Forall (λ _, False) cs); [|by destruct Hnone].
  revert Hcs. unfold detect_conflicts. cbv zeta.
  apply (foldM_invariant (Forall (λ _, False))); [|constructor].
  intros acc [k tt] acc' Hin Hacc Hbody.
  apply bind_Ok in Hbody as (section & _ & [= <-]).
  apply Forall_app. split; [done|].
  assert (Htt : pairwise disjoint_windows tt).
  { apply (pairwise_perm _
             (route_entries t k (get_actual_arrival t) (route t)));
      [|apply route_entries_pairwise].
    rewrite <- (odict_get_elem k tt _ (section_schedules_keys_NoDup [t] _) Hin).
    rewrite section_schedules_get. simpl. by rewrite app_nil_r. }
  eapply Forall_impl; [apply _detect_section_conflicts_sound|].
  intros c (i & j & t1 & t2 & s1 & e1 & s2 & e2 & Hi & Hj & Hne & _ & _ & Hc).
  unfold _create_conflict in Hc. case_decide as Hw; [done|].
  destruct (Htt i j _ _ Hi Hj Hne) as [?|?]; simpl in *; lia.
Qed.

End TrainAlone.

(** ** The summary of a conflict list *)

Lemma count_severity_fold (conflicts : list Conflict) (m : gmap Z Z) (s : Z) :
  default 0 (foldl count_severity m conflicts !! s)
  = default 0 (m !! s)
    + Z.of_nat (length (filter (λ c, severity c = s) conflicts)).
Proof.
  revert m; induction conflicts as [|c cs IH]; intros m; simpl; [lia|].
  rewrite IH, filter_cons. unfold count_severity.
  destruct (decide (severity c = s)) as [->|Hne].
  - rewrite lookup_insert_eq. simpl. lia.
  - rewrite lookup_insert_ne by done. lia.
Qed.

Lemma sections_affected_fold (conflicts : list Conflict) (S0 : gset string)
    (x : string) :
  x ∈ foldl (λ s c, s ∪ {[conflict_section_id c]}) S0 conflicts ↔
  x ∈ S0 ∨ ∃ c, c ∈ conflicts ∧ conflict_section_id c = x.
Proof.
  revert S0; induction conflicts as [|c cs IH]; intros S0; simpl.
  - split; [by left|]. intros [?|(c & Hc%elem_of_nil & _)]; done.
  - rewrite IH, elem_of_union, elem_of_singleton. split.
    + intros [[?| ->]|(c' & Hc' & <-)]; [by left| |].
      * right. exists c. split; [by left | done].
      * right. exists c'. split; [by right | done].
    + intros [?|(c' & Hc' & <-)]; [by left; left|].
      apply elem_of_cons in Hc' as [-> |Hc']; [by left; right|].
      right. by exists c'.
Qed.

Lemma trains_affected_fold (conflicts : list Conflict) (S0 : gset string)
    (x : string) :
  x ∈ foldl (λ s c, s ∪ {[train_number (train1 c)]} ∪ {[train_number (train2 c)]})
        S0 conflicts ↔
  x ∈ S0 ∨ ∃ c, c ∈ conflicts ∧
                (train_number (train1 c) = x ∨ train_number (train2 c) = x).
Proof.
  revert S0; induction conflicts as [|c cs IH]; intros S0; simpl.
  - split; [by left|]. intros [?|(c & Hc%elem_of_nil & _)]; done.
  - rewrite IH, !elem_of_union, !elem_of_singleton. split.
    + intros [[[?| ->]| ->]|(c' & Hc' & Hx)]; [by left| | |].
      * right. exists c. split; [by left | by left].
      * right. exists c. split; [by left | by right].
      * right. exists c'. split; [by right | done].
    + intros [?|(c' & Hc' & Hx)]; [by left; left; left|].
      apply elem_of_cons in Hc' as [-> |Hc'].
      * destruct Hx as [<- | <-]; [by left; left; right | by left; right].
      * right. by exists c'.
Qed.

(** X6: the summary of any conflict list: the total is the length, the breakdown
    counts the conflicts of each severity, and the affected sections and
    trains are exactly the section ids and the train numbers that occur; for
    a non-empty list the critical count is at most the total. *)
Theorem summary_contents (conflicts : list Conflict) :
  get_conflict_summary conflicts !! "total_conflicts"
    = Some (VInt (Z.of_nat (length conflicts))) ∧
  (∃ m, get_conflict_summary conflicts !! "severity_breakdown" = Some (VBreakdown m) ∧
        ∀ s, default 0 (m !! s)
             = Z.of_nat (length (filter (λ c, severity c = s) conflicts))) ∧
  (∃ S, get_conflict_summary conflicts !! "sections_affected" = Some (VNames S) ∧
        ∀ x, x ∈ S ↔ ∃ c, c ∈ conflicts ∧ conflict_section_id c = x) ∧
  (∃ T, get_conflict_summary conflicts !! "trains_affected" = Some (VNames T) ∧
        ∀ x, x ∈ T ↔ ∃ c, c ∈ conflicts ∧
                          (train_number (train1 c) = x ∨ train_number (train2 c) = x)) ∧
  match get_conflict_summary conflicts !! "critical_conflicts" with
  | Some v =>
      conflicts ≠ [] ∧
      ∃ n, v = VInt n ∧ 0 ≤ n ≤ Z.of_nat (length conflicts) ∧
           n = Z.of_nat (length (filter (λ c, severity c >= 4) conflicts))
  | None => conflicts = []
  end.
Proof.
  destruct conflicts as [|c cs].
  - split; [done|]. split; [|split; [|split]].
    + exists ∅. split; [done|]. intros s. by rewrite lookup_empty.
    + exists ∅. split; [done|]. intros x. split; [by intros ?%not_elem_of_empty|].
      by intros (c & ?%elem_of_nil & _).
    + exists ∅. split; [done|]. intros x. split; [by intros ?%not_elem_of_empty|].
      by intros (c & ?%elem_of_nil & _).
    + done.
  - assert (Hcrit : get_conflict_summary (c :: cs) !! "critical_conflicts"
                    = Some (VInt (Z.of_nat (length (filter (λ c, severity c >= 4)
                                                      (c :: cs)))))) by done.
    rewrite Hcrit. clear Hcrit.
    set (l := c :: cs). unfold get_conflict_summary. fold l.
    split; [done|]. split; [|split; [|split]].
    + eexists. split; [done|]. intros s.
      rewrite count_severity_fold, lookup_empty. simpl. lia.
    + eexists. split; [done|]. intros x. rewrite sections_affected_fold.
      split; [intros [?%not_elem_of_empty|?]; done | by right].
    + eexists. split; [done|]. intros x. rewrite trains_affected_fold.
      split; [intros [?%not_elem_of_empty|?]; done | by right].
    + split; [done|]. eexists. split; [done|].
      split; [|done]. pose proof (length_filter (λ c, severity c >= 4) l). lia.
Qed.

(** ** The two overlap tests *)

(** X7: in a section of capacity 1 the detector's test with margin implies the
    optimizer's, and they agree on windows that end (with the margin) after
    they start; in a section of any other capacity the optimizer's test
    ignores the margin: it holds whenever [_create_conflict] finds a conflict
    window, and only then when neither window is empty. The optimizer's test
    is symmetric. *)
Theorem overlap_tests_agree (margin : Z) (s1 e1 s2 e2 : datetime)
    (section : TrackSection) (t1 t2 : Train) :
  (capacity section = 1 →
   (overlaps_with_margin margin s1 e1 s2 e2 = true →
    _sections_overlap s1 e1 s2 e2 (minutes margin) section = true) ∧
   (s1 < e1 + minutes margin → s2 < e2 + minutes margin →
    overlaps_with_margin margin s1 e1 s2 e2
    = _sections_overlap s1 e1 s2 e2 (minutes margin) section)) ∧
  (capacity section ≠ 1 →
   (is_Some (_create_conflict t1 t2 section s1 e1 s2 e2) →
    _sections_overlap s1 e1 s2 e2 (minutes margin) section = true) ∧
   (s1 < e1 → s2 < e2 →
    (_sections_overlap s1 e1 s2 e2 (minutes margin) section = true ↔
     is_Some (_create_conflict t1 t2 section s1 e1 s2 e2)))) ∧
  _sections_overlap s1 e1 s2 e2 (minutes margin) section
  = _sections_overlap s2 e2 s1 e1 (minutes margin) section.
Proof.
  unfold overlaps_with_margin, _sections_overlap, _create_conflict.
  split; [|split].
  - intros ->. rewrite decide_True by done. split.
    + rewrite bool_decide_eq_true, negb_true_iff, orb_false_iff,
        !bool_decide_eq_false. lia.
    + intros H1 H2. apply eq_true_iff_eq.
      rewrite bool_decide_eq_true, negb_true_iff, orb_false_iff,
        !bool_decide_eq_false. lia.
  - intros Hcap. rewrite (decide_False (P := capacity section = 1)) by done.
    rewrite negb_true_iff, orb_false_iff, !bool_decide_eq_false.
    case_decide as Hw; (split; [|intros H1 H2; split]).
    + intros [x Hx]. discriminate Hx.
    + intros H'. lia.
    + intros [x Hx]. discriminate Hx.
    + intros _. lia.
    + intros _. by eexists.
    + intros _. lia.
  - case_decide; f_equal; apply orb_comm.
Qed.

Lemma overlap_tests_agree_witness :
  overlaps_with_margin 5 0 (minutes 20) (minutes 22) (minutes 30)
  = _sections_overlap 0 (minutes 20) (minutes 22) (minutes 30) (minutes 5)
      sample_SEC_004 ∧
  (_sections_overlap 0 (minutes 20) (minutes 10) (minutes 30) (minutes 5)
     (plain_section "P" PLATFORM 2) = true ↔
   is_Some (_create_conflict sample_T001 sample_T002 (plain_section "P" PLATFORM 2)
              0 (minutes 20) (minutes 10) (minutes 30))).
Proof.
  split.
  - destruct (overlap_tests_agree 5 0 (minutes 20) (minutes 22) (minutes 30)
                sample_SEC_004 sample_T001 sample_T002) as (H1 & _ & _).
    apply H1; [reflexivity | unfold minutes; lia | unfold minutes; lia].
  - destruct (overlap_tests_agree 5 0 (minutes 20) (minutes 10) (minutes 30)
                (plain_section "P" PLATFORM 2) sample_T001 sample_T002)
      as (_ & H2 & _).
    apply H2; [simpl; lia | unfold minutes; lia | unfold minutes; lia].
Defined.

(** ** When the optimizer returns *)

Lemma delayed_route (w o : Train) : delayed w o → route o = route w.
Proof. by intros [-> _]. Qed.

Lemma delayed_priority (w o : Train) : delayed w o → priority o = priority w.
Proof. by intros [-> _]. Qed.

Lemma py_div_Ok (a b : Q) : ¬ (b == 0)%Q → py_div a b = Ok (a / b)%Q.
Proof.
  intros Hb. unfold py_div. destruct (Qeq_bool b 0) eqn:E; [|done].
  by apply Qeq_bool_iff in E.
Qed.

Lemma inject_Z_nonzero (z : Z) : z ≠ 0 → ¬ (inject_Z z == 0)%Q.
Proof. intros Hz. unfold Qeq, inject_Z; simpl. lia. Qed.

Section OptimizerOutcome.
Variable margin : Z.
Implicit Types (trains : list Train) (sections : list TrackSection)
  (sd : gmap string TrackSection).

Lemma known_routes_perm sd trains trains' :
  trains ≡ₚ trains' → known_routes sd trains → known_routes sd trains'.
Proof. intros Hp Hk t sid Ht. apply Hk. by rewrite Hp. Qed.

Lemma known_routes_delayed sd trains trains' :
  Forall2 delayed trains trains' → known_routes sd trains → known_routes sd trains'.
Proof.
  intros Hd Hk o sid Ho Hsid.
  apply list_elem_of_lookup in Ho as [i Ho].
  destruct (Forall2_lookup_r _ _ _ _ _ Hd Ho) as (w & Hw & Hwo).
  apply (Hk w sid); [by eapply list_elem_of_lookup_2|].
  by rewrite <- (delayed_route _ _ Hwo).
Qed.

Lemma _optimize_single_train_total (train : Train) (scheduled : list Train) sd :
  (∀ sid, sid ∈ route train → is_Some (sd !! sid)) →
  ∃ o, _optimize_single_train margin train scheduled sd = Ok o.
Proof.
  intros Hk. unfold _optimize_single_train.
  rewrite (route_delay_sum margin train scheduled sd)
    by (by apply Forall_forall).
  simpl. case_decide; by eexists.
Qed.

Lemma greedy_loop_total sd (its : list (nat * Train)) (acc : list Train) :
  known_routes sd (snd <$> its) →
  ∃ res, foldM (greedy_step margin sd) its acc = Ok res.
Proof.
  revert acc; induction its as [|[i t] its IH]; intros acc Hk; simpl.
  - by eexists.
  - assert (Hk' : known_routes sd (snd <$> its)).
    { intros t' sid Ht'. apply Hk. rewrite fmap_cons. by right. }
    case_decide; simpl; [by apply IH|].
    destruct (_optimize_single_train_total t acc sd) as [o ->]; [|simpl; by apply IH].
    intros sid. apply Hk. rewrite fmap_cons. by left.
Qed.

Lemma _apply_greedy_optimization_total trains sections :
  known_routes (section_dict_of sections) trains →
  ∃ res, _apply_greedy_optimization margin trains sections = Ok res.
Proof.
  intros Hk. apply greedy_loop_total. by rewrite (snd_imap_pair id).
Qed.

End OptimizerOutcome.

(** ** The schedule of the optimized trains *)

Lemma getitem_Some {V} (d : gmap string V) (k : string) (v : V) :
  d !! k = Some v → getitem d k = Ok v.
Proof. intros H. unfold getitem. by rewrite H. Qed.

Lemma getitem_None {V} (d : gmap string V) (k : string) :
  d !! k = None → getitem d k = Raise (KeyError k).
Proof. intros H. unfold getitem. by rewrite H. Qed.

Lemma extend_schedule_nil (sch : Schedule) : extend_schedule sch [] = sch.
Proof. destruct sch. unfold extend_schedule; simpl. by rewrite app_nil_r. Qed.

Lemma extend_schedule_app (sch : Schedule) (a b : list Slot) :
  extend_schedule (extend_schedule sch a) b = extend_schedule sch (a ++ b).
Proof. unfold extend_schedule; simpl. by rewrite app_assoc. Qed.

Lemma add_route_slots_loop (train : Train) (rt : list string) (ct : datetime)
    (schedules : gmap string Schedule) :
  (∀ sid, sid ∈ rt → is_Some (schedules !! sid)) →
  ∃ res,
    foldM (λ '(current_time, schedules) section_id,
             let section_duration := section_time train section_id in
             let start_time := current_time in
             let end_time := current_time + minutes section_duration in
             schedule ← getitem schedules section_id;
             Ok (end_time,
                 <[section_id := add_train_slot schedule train start_time end_time]>
                   schedules))
          rt (ct, schedules) = Ok res ∧
    ∀ k, res.2 !! k
         = (λ sch, extend_schedule sch (slot_of <$> route_entries train k ct rt))
             <$> schedules !! k.
Proof.
  cbv zeta.
  revert ct schedules; induction rt as [|sid rest IH]; intros ct schedules Hk.
  - eexists. split; [done|]. intros k. simpl.
    destruct (schedules !! k) as [sch|]; simpl; [|done].
    by rewrite extend_schedule_nil.
  - destruct (Hk sid) as [sch Hsch]; [by left|].
    cbn [foldM]. rewrite (getitem_Some _ _ _ Hsch).
    cbn [mbind result_bind].
    edestruct (IH (ct + minutes (section_time train sid))
                 (<[sid := add_train_slot sch train ct
                             (ct + minutes (section_time train sid))]> schedules))
      as (res & Hfold & Hres).
    { intros sid' Hsid'. destruct (decide (sid = sid')) as [->|Hne].
      - rewrite lookup_insert_eq. by eexists.
      - rewrite lookup_insert_ne by done. apply Hk. by right. }
    exists res. split; [exact Hfold|]. intros k. rewrite Hres.
    destruct (decide (sid = k)) as [->|Hne].
    + rewrite lookup_insert_eq, Hsch. simpl. f_equal.
      change (add_train_slot sch train ct (ct + minutes (section_time train k)))
        with (extend_schedule sch
                [slot_of (train, ct, ct + minutes (section_time train k))]).
      rewrite extend_schedule_app. cbn [route_entries]. cbv zeta.
      destruct (decide (k = k)) as [_|Hkk]; [|done].
      by rewrite fmap_app.
    + rewrite lookup_insert_ne by done. cbn [route_entries]. cbv zeta.
      by destruct (decide (sid = k)) as [Heq|_].
Qed.

Lemma add_route_slots_spec (train : Train) (schedules : gmap string Schedule) :
  (∀ sid, sid ∈ route train → is_Some (schedules !! sid)) →
  ∃ res, add_route_slots schedules train = Ok res ∧
    ∀ k, res !! k
         = (λ sch, extend_schedule sch
                     (slot_of <$> route_entries train k (get_actual_arrival train)
                                    (route train)))
             <$> schedules !! k.
Proof.
  intros Hk. unfold add_route_slots. cbv zeta.
  pose proof (add_route_slots_loop train (route train) (get_actual_arrival train)
                schedules Hk) as Hloop.
  cbv zeta in Hloop. destruct Hloop as (res & Hfold & Hres).
  exists res.2. split; [|exact Hres].
  unfold datetime in *. by rewrite Hfold.
Qed.

Lemma schedule_loop_spec (trains : list Train) (schedules : gmap string Schedule) :
  (∀ t sid, t ∈ trains → sid ∈ route t → is_Some (schedules !! sid)) →
  ∃ res, foldM add_route_slots trains schedules = Ok res ∧
    ∀ k, res !! k
         = (λ sch, extend_schedule sch (slot_of <$> all_route_entries trains k))
             <$> schedules !! k.
Proof.
  revert schedules; induction trains as [|t trains IH]; intros schedules Hk.
  - exists schedules. split; [done|]. intros k.
    destruct (schedules !! k) as [sch|]; simpl; [|done].
    by rewrite extend_schedule_nil.
  - destruct (add_route_slots_spec t schedules) as (s1 & Hs1 & Hs1k).
    { intros sid. apply Hk. by left. }
    destruct (IH s1) as (res & Hres & Hresk).
    { intros t' sid Ht' Hsid. rewrite Hs1k.
      destruct (Hk t' sid) as [sch ->]; [by right | done | by eexists]. }
    exists res. split; [simpl; by rewrite Hs1|].
    intros k. rewrite Hresk, Hs1k.
    destruct (schedules !! k) as [sch|]; simpl; [|done].
    rewrite extend_schedule_app. unfold all_route_entries. simpl.
    by rewrite fmap_app.
Qed.

Lemma empty_schedules_fmap (sections : list TrackSection)
    (m : gmap string TrackSection) :
  foldl (λ (m : gmap string Schedule) section,
           <[section_id section := mkSchedule (section_id section) [] [] true]> m)
        ((λ s, mkSchedule (section_id s) [] [] true) <$> m) sections
  = (λ s, mkSchedule (section_id s) [] [] true)
      <$> foldl (λ m section, <[section_id section := section]> m) m sections.
Proof.
  revert m; induction sections as [|s sections IH]; intros m; simpl; [done|].
  rewrite <- IH. by rewrite fmap_insert.
Qed.

Lemma empty_schedules_lookup (sections : list TrackSection) (k : string) :
  foldl (λ (m : gmap string Schedule) section,
           <[section_id section := mkSchedule (section_id section) [] [] true]> m)
        ∅ sections !! k
  = (λ s, mkSchedule (section_id s) [] [] true) <$> section_dict_of sections !! k.
Proof.
  unfold section_dict_of. rewrite <- lookup_fmap, <- empty_schedules_fmap.
  by rewrite fmap_empty.
Qed.

Lemma _generate_optimized_schedule_spec (trains : list Train)
    (sections : list TrackSection) :
  known_routes (section_dict_of sections) trains →
  ∃ res, _generate_optimized_schedule trains sections = Ok res ∧
    ∀ k, res !! k
         = (λ s, mkSchedule k (slot_of <$> all_route_entries trains k) [] true)
             <$> section_dict_of sections !! k.
Proof.
  intros Hk. unfold _generate_optimized_schedule. cbv zeta.
  edestruct (schedule_loop_spec trains) as (res & -> & Hres).
  { intros t sid Ht Hsid. rewrite empty_schedules_lookup.
    destruct (Hk t sid Ht Hsid) as [s ->]. by eexists. }
  exists res. split; [done|]. intros k.
  rewrite Hres, empty_schedules_lookup.
  destruct (section_dict_of sections !! k) as [s|] eqn:Hs; simpl; [|done].
  by rewrite (section_dict_of_id _ _ _ Hs).
Qed.

Lemma get_occupancy_slot_of (sch : Schedule) (x : Occupancy) (ct : datetime) :
  slot_of x ∈ train_slots sch → x.1.2 ≤ ct ≤ x.2 →
  train_id x.1.1 ∈ get_occupancy_at_time sch ct.
Proof.
  intros Hin Hct. unfold get_occupancy_at_time.
  apply list_elem_of_fmap. exists (slot_of x). split; [done|].
  apply list_elem_of_filter. split; [|done]. simpl. lia.
Qed.

(** ** The result of the optimizer *)

Lemma py_sum_acc (l : list Z) (a : Z) : foldl Z.add a l = a + sum_list_Z l.
Proof.
  revert a; induction l as [|x l IH]; intros a; simpl.
  - unfold sum_list_Z; simpl. lia.
  - rewrite IH. unfold sum_list_Z; simpl. lia.
Qed.

Lemma py_sum_sum (l : list Z) : py_sum l = sum_list_Z l.
Proof. unfold py_sum. by rewrite py_sum_acc. Qed.

Lemma sum_list_Z_perm (l l' : list Z) : l ≡ₚ l' → sum_list_Z l = sum_list_Z l'.
Proof.
  unfold sum_list_Z. induction 1; simpl; lia.
Qed.

Lemma delayed_sum (ws os : list Train) :
  Forall2 delayed ws os →
  sum_list_Z (current_delay_minutes <$> ws) ≤ sum_list_Z (current_delay_minutes <$> os).
Proof.
  unfold sum_list_Z. induction 1 as [|w o ws os [_ Hle] _ IH]; [done|].
  rewrite !fmap_cons. cbn [foldr]. lia.
Qed.

Lemma Forall2_delayed_length (ws os : list Train) :
  Forall2 delayed ws os → length os = length ws.
Proof. intros H. symmetry. by eapply Forall2_length. Qed.

Section OptimizerResult.
Variable margin : Z.

Lemma optimize_schedule_Ok trains sections (r : OptimizeResult) :
  optimize_schedule margin trains sections = Ok r ↔
  ∃ opt sch m cr,
    _apply_greedy_optimization margin (stable_sort train_key_leb trains) sections = Ok opt ∧
    _generate_optimized_schedule opt sections = Ok sch ∧
    _calculate_metrics margin trains opt sections = Ok m ∧
    detect_conflicts margin opt sections = Ok cr ∧
    r = mkOptimizeResult opt sch m cr.
Proof.
  unfold optimize_schedule. cbv zeta. split.
  - intros (opt & Hopt & (sch & Hsch & (m & Hm & (cr & Hcr & [= <-])%bind_Ok)%bind_Ok)%bind_Ok)%bind_Ok.
    by exists opt, sch, m, cr.
  - intros (opt & sch & m & cr & H1 & H2 & H3 & H4 & ->).
    rewrite H1; cbn [mbind result_bind]. rewrite H2; cbn [mbind result_bind].
    rewrite H3; cbn [mbind result_bind]. by rewrite H4.
Qed.

Lemma _calculate_metrics_Ok original optimized sections (m : Metrics) :
  _calculate_metrics margin original optimized sections = Ok m →
  ∃ oc rc th,
    detect_conflicts margin original sections = Ok oc ∧
    detect_conflicts margin optimized sections = Ok rc ∧
    throughput_of original = Ok th ∧
    total_trains m = Z.of_nat (length original) ∧
    original_conflicts m = Z.of_nat (length oc) ∧
    optimized_conflicts m = Z.of_nat (length rc) ∧
    original_total_delay m = py_sum (current_delay_minutes <$> original) ∧
    optimized_total_delay m = py_sum (current_delay_minutes <$> optimized) ∧
    additional_delay_introduced m
    = py_sum (current_delay_minutes <$> optimized)
      - py_sum (current_delay_minutes <$> original) ∧
    punctuality_percentage m
    = py_round
        match optimized with
        | [] => 0
        | _ => inject_Z (Z.of_nat (length (filter (λ t, current_delay_minutes t ≤ 5)
                                             optimized)))
               / inject_Z (Z.of_nat (length optimized)) * 100
        end 1.
Proof.
  unfold _calculate_metrics. cbv zeta.
  intros (oc & Hoc & (rc & Hrc & (th & Hth & (pu & Hpu & (av & _ &
            (ef & _ & [= <-])%bind_Ok)%bind_Ok)%bind_Ok)%bind_Ok)%bind_Ok)%bind_Ok.
  exists oc, rc, th. repeat (split; [done|]). simpl.
  destruct optimized as [|o os]; [by injection Hpu as <-|].
  apply bind_Ok in Hpu as (q & Hq & [= <-]).
  unfold py_div in Hq. destruct (Qeq_bool _ 0); [done|]. by injection Hq as <-.
Qed.

Lemma _calculate_metrics_total original optimized sections oc rc th :
  detect_conflicts margin original sections = Ok oc →
  detect_conflicts margin optimized sections = Ok rc →
  throughput_of original = Ok th →
  ∃ m, _calculate_metrics margin original optimized sections = Ok m.
Proof.
  intros Hoc Hrc Hth. unfold _calculate_metrics. cbv zeta.
  rewrite Hoc, Hrc, Hth. cbn [mbind result_bind].
  assert (Hn : optimized ≠ [] →
               ¬ (inject_Z (Z.of_nat (length optimized)) == 0)%Q).
  { intros Hne. apply inject_Z_nonzero. destruct optimized; [done|simpl; lia]. }
  rewrite (py_div_Ok _ (inject_Z (Z.max (Z.of_nat (length oc)) 1)))
    by (apply inject_Z_nonzero; lia).
  destruct optimized as [|o os]; [by eexists|].
  rewrite !py_div_Ok by (by apply Hn).
  by eexists.
Qed.

Lemma throughput_of_Ok (trains : list Train) :
  trains = [] ∨ time_span trains ≠ 0 → ∃ th, throughput_of trains = Ok th.
Proof.
  intros H. destruct (throughput_of trains) as [th|e] eqn:E; [by exists th|].
  assert (e = ZeroDivisionError) as ->.
  { revert E. destruct trains as [|t l]; [done|].
    unfold throughput_of, py_div. cbv zeta.
    destruct (Qeq_bool _ 0); congruence. }
  apply throughput_of_raises in E as [Hne Hspan].
  destruct H as [->|H]; [done|]. unfold time_span in H. lia.
Qed.

(** In the model, whose clock has no end, the optimizer returns exactly when
    every route section is known and the list is empty or spans a time that
    is not zero. *)
Lemma optimize_schedule_total (trains : list Train) (sections : list TrackSection) :
  ((∃ r, optimize_schedule margin trains sections = Ok r) ↔
   known_routes (section_dict_of sections) trains ∧
   (trains = [] ∨ time_span trains ≠ 0)) ∧
  (known_routes (section_dict_of sections) trains ∧ trains ≠ [] ∧ time_span trains = 0 →
   optimize_schedule margin trains sections = Raise ZeroDivisionError).
Proof.
  assert (Hparts : known_routes (section_dict_of sections) trains →
            ∃ opt sch oc rc,
              _apply_greedy_optimization margin (stable_sort train_key_leb trains)
                sections = Ok opt ∧
              _generate_optimized_schedule opt sections = Ok sch ∧
              detect_conflicts margin trains sections = Ok oc ∧
              detect_conflicts margin opt sections = Ok rc).
  { intros Hk.
    assert (Hks : known_routes (section_dict_of sections)
                    (stable_sort train_key_leb trains)).
    { eapply known_routes_perm; [|exact Hk]. symmetry. apply stable_sort_perm. }
    destruct (_apply_greedy_optimization_total margin _ _ Hks) as [opt Hopt].
    assert (Hko : known_routes (section_dict_of sections) opt).
    { eapply known_routes_delayed; [|exact Hks].
      by eapply _apply_greedy_optimization_delayed. }
    destruct (_generate_optimized_schedule_spec opt sections Hko) as (sch & Hsch & _).
    destruct (detect_conflicts_total margin trains sections Hk) as [oc Hoc].
    destruct (detect_conflicts_total margin opt sections Hko) as [rc Hrc].
    by exists opt, sch, oc, rc. }
  split; [split|].
  - intros [r (opt & sch & m & cr & _ & _ & Hm & _ & _)%optimize_schedule_Ok].
    apply _calculate_metrics_Ok in Hm as (oc & rc & th & Hoc & _ & Hth & _).
    split.
    + pose proof (detect_conflicts_outcome margin trains sections) as H.
      rewrite Hoc in H. exact H.
    + destruct trains as [|t l]; [by left|]. right. intros Hspan.
      assert (throughput_of (t :: l) = Raise ZeroDivisionError) as Hr.
      { apply throughput_of_raises. split; [done|]. unfold time_span in Hspan. lia. }
      congruence.
  - intros [Hk Hspan].
    destruct (Hparts Hk) as (opt & sch & oc & rc & Hopt & Hsch & Hoc & Hrc).
    destruct (throughput_of_Ok trains Hspan) as [th Hth].
    destruct (_calculate_metrics_total trains opt sections oc rc th Hoc Hrc Hth)
      as [m Hm].
    exists (mkOptimizeResult opt sch m rc). apply optimize_schedule_Ok.
    by exists opt, sch, m, rc.
  - intros (Hk & Hne & Hspan).
    destruct (Hparts Hk) as (opt & sch & oc & rc & Hopt & Hsch & Hoc & Hrc).
    assert (throughput_of trains = Raise ZeroDivisionError) as Hth.
    { apply throughput_of_raises. split; [done|]. unfold time_span in Hspan. lia. }
    unfold optimize_schedule. cbv zeta.
    rewrite Hopt; cbn [mbind result_bind]. rewrite Hsch; cbn [mbind result_bind].
    unfold _calculate_metrics. cbv zeta.
    rewrite Hoc; cbn [mbind result_bind]. rewrite Hrc; cbn [mbind result_bind].
    by rewrite Hth.
Qed.

Lemma round_half_even_bounds (y : Q) (a b : Z) :
  (inject_Z a <= y)%Q → (y <= inject_Z b)%Q → a ≤ round_half_even y ≤ b.
Proof.
  intros Ha Hb.
  assert (Hfa : a ≤ Qfloor y).
  { rewrite <- (Qfloor_Z a). by apply Qfloor_resp_le. }
  assert (Hfb : Qfloor y ≤ b).
  { rewrite <- (Qfloor_Z b). by apply Qfloor_resp_le. }
  assert (Hup : (0 < y - inject_Z (Qfloor y))%Q → Qfloor y + 1 ≤ b).
  { intros Hr. apply Z.le_succ_l. rewrite Zlt_Qlt.
    eapply Qlt_le_trans; [|exact Hb]. by apply Qlt_minus_iff. }
  unfold round_half_even. cbv zeta.
  destruct (y - inject_Z (Qfloor y) ?= 1 # 2)%Q eqn:E.
  - apply Qeq_alt in E.
    destruct (Z.even (Qfloor y)); [lia|].
    split; [lia|]. apply Hup. by rewrite E.
  - lia.
  - apply Qgt_alt in E. split; [lia|]. apply Hup.
    eapply Qlt_trans; [|exact E]. done.
Qed.

Lemma py_round_1_bounds (x : Q) (a b : Z) :
  (inject_Z a <= x)%Q → (x <= inject_Z b)%Q →
  (inject_Z a <= py_round x 1)%Q ∧ (py_round x 1 <= inject_Z b)%Q.
Proof.
  intros Ha Hb. unfold py_round. cbv zeta.
  change (inject_Z (10 ^ Z.of_nat 1)) with (inject_Z 10).
  destruct (round_half_even_bounds (x * inject_Z 10) (a * 10) (b * 10)) as [H1 H2].
  - rewrite inject_Z_mult. by apply Qmult_le_compat_r.
  - rewrite inject_Z_mult. by apply Qmult_le_compat_r.
  - split.
    + apply Qle_shift_div_l; [done|]. rewrite <- inject_Z_mult. by rewrite <- Zle_Qle.
    + apply Qle_shift_div_r; [done|]. rewrite <- inject_Z_mult. by rewrite <- Zle_Qle.
Qed.

Lemma punctuality_bounds (on_time n : Z) :
  0 ≤ on_time ≤ n → 0 < n →
  (inject_Z 0 <= inject_Z on_time / inject_Z n * 100)%Q ∧
  (inject_Z on_time / inject_Z n * 100 <= inject_Z 100)%Q.
Proof.
  intros [H0 Hn] Hpos.
  assert (Hq : (0 < inject_Z n)%Q) by (by rewrite <- (Zlt_Qlt 0)).
  split.
  - apply Qmult_le_0_compat; [|done].
    apply Qle_shift_div_l; [done|]. rewrite Qmult_0_l. by rewrite <- (Zle_Qle 0).
  - change (inject_Z 100) with (1 * 100)%Q. apply Qmult_le_compat_r; [|done].
    apply Qle_shift_div_r; [done|]. rewrite Qmult_1_l. by rewrite <- Zle_Qle.
Qed.

(** X10: what the metrics of a returned result say: the train count is the number
    of optimized trains and of input trains, the count of remaining conflicts
    is the length of [conflicts_remaining], the two delay totals are the sums
    over the input and over the optimized trains, the optimizer has taken no
    delay away in total, and the punctuality lies between 0 and 100. *)
Theorem optimize_schedule_metrics (trains : list Train) (sections : list TrackSection)
    (r : OptimizeResult) :
  optimize_schedule margin trains sections = Ok r →
  total_trains (metrics r) = Z.of_nat (length trains) ∧
  length (optimized_trains r) = length trains ∧
  optimized_conflicts (metrics r) = Z.of_nat (length (conflicts_remaining r)) ∧
  original_total_delay (metrics r) = sum_list_Z (current_delay_minutes <$> trains) ∧
  optimized_total_delay (metrics r)
  = sum_list_Z (current_delay_minutes <$> optimized_trains r) ∧
  optimized_total_delay (metrics r)
  = original_total_delay (metrics r) + additional_delay_introduced (metrics r) ∧
  0 ≤ additional_delay_introduced (metrics r) ∧
  (0 <= punctuality_percentage (metrics r))%Q ∧
  (punctuality_percentage (metrics r) <= 100)%Q.
Proof.
  intros (opt & sch & m & cr & Hopt & _ & Hm & Hcr & ->)%optimize_schedule_Ok.
  apply _apply_greedy_optimization_delayed in Hopt.
  apply _calculate_metrics_Ok in Hm
    as (oc & rc & th & Hoc & Hrc & _ & Htt & _ & Hn & Hod & Hpd & Had & Hpu).
  assert (rc = cr) as -> by congruence.
  cbn [metrics optimized_trains conflicts_remaining].
  rewrite Htt, Hn, Hod, Hpd, Had, Hpu, !py_sum_sum.
  pose proof (delayed_sum _ _ Hopt) as Hsum.
  rewrite (sum_list_Z_perm (current_delay_minutes <$> stable_sort train_key_leb trains)
             (current_delay_minutes <$> trains)) in Hsum
    by (apply fmap_Permutation, stable_sort_perm).
  pose proof (Forall2_delayed_length _ _ Hopt) as Hlen.
  rewrite (Permutation_length (stable_sort_perm train_key_leb trains)) in Hlen.
  repeat (split; [done || lia|]).
  change 0%Q with (inject_Z 0). change 100%Q with (inject_Z 100).
  apply py_round_1_bounds.
  - destruct opt as [|o os]; [done|]. apply punctuality_bounds; [|simpl; lia].
    split; [lia|]. apply inj_le, length_filter.
  - destruct opt as [|o os]; [done|]. apply punctuality_bounds; [|simpl; lia].
    split; [lia|]. apply inj_le, length_filter.
Qed.

(** X9: with no trains the optimizer returns for every section set: no optimized
    trains, no conflicts left, an empty schedule for every section id of the
    set and for nothing else, and the counts and totals at zero. *)
Theorem optimize_schedule_no_trains (sections : list TrackSection) :
  ∃ r, optimize_schedule margin [] sections = Ok r ∧
       optimized_trains r = [] ∧ conflicts_remaining r = [] ∧
       (∀ k, schedule r !! k
             = (λ s, mkSchedule k [] [] true) <$> section_dict_of sections !! k) ∧
       total_trains (metrics r) = 0 ∧
       original_conflicts (metrics r) = 0 ∧ optimized_conflicts (metrics r) = 0 ∧
       conflicts_reduced (metrics r) = 0 ∧
       original_total_delay (metrics r) = 0 ∧ optimized_total_delay (metrics r) = 0 ∧
       additional_delay_introduced (metrics r) = 0 ∧
       (average_delay_per_train (metrics r) == 0)%Q ∧
       (throughput_trains_per_hour (metrics r) == 0)%Q ∧
       (punctuality_percentage (metrics r) == 0)%Q ∧
       (optimization_effectiveness (metrics r) == 0)%Q.
Proof.
  destruct (_generate_optimized_schedule_spec [] sections) as (sch & Hsch & Hk).
  { by intros t sid ?%elem_of_nil. }
  eexists. split.
  - apply optimize_schedule_Ok. eexists [], sch, _, []. repeat split; [exact Hsch|..];
      reflexivity.
  - cbn [optimized_trains conflicts_remaining schedule metrics].
    repeat split; try reflexivity. exact Hk.
Qed.

(** *** Precedence *)

Lemma required_delay_loop_unchanged (train : Train) (sid : string)
    (ps pe : datetime) (section : TrackSection) (scheduled : list Train) (acc : Q) :
  (∀ s, s ∈ scheduled → value (priority train) ≤ value (priority s)) →
  foldl (required_delay_step margin train sid ps pe section) acc scheduled = acc.
Proof.
  revert acc; induction scheduled as [|s l IH]; intros acc Hle; [done|].
  cbn [foldl]. rewrite IH by (intros s' Hs'; apply Hle; by right).
  unfold required_delay_step. cbv zeta.
  destruct (decide (sid ∈ route s)); [|done].
  destruct (scheduled_window s sid) as [ss se].
  destruct (_sections_overlap _ _ _ _ _ _); [|done].
  destruct (decide (value (priority train) > value (priority s))) as [Hgt|]; [|done].
  assert (value (priority train) ≤ value (priority s)) by (apply Hle; by left). lia.
Qed.

Lemma _optimize_single_train_unchanged (train : Train) (scheduled : list Train)
    (sd : gmap string TrackSection) (o : Train) :
  (∀ s, s ∈ scheduled → value (priority train) ≤ value (priority s)) →
  _optimize_single_train margin train scheduled sd = Ok o → o = train.
Proof.
  intros Hle.
  assert (Hloop : ∀ rt st st',
            foldM (optimize_section margin train scheduled sd) rt st = Ok st' →
            st' = st).
  { induction rt as [|sid rt IH]; intros st st'; cbn [foldM]; [by intros [= <-]|].
    intros (st1 & Hstep & Hrest)%bind_Ok. apply IH in Hrest as ->.
    revert Hstep. unfold optimize_section. destruct st as [ca total].
    intros (section & _ & Hstep)%bind_Ok. revert Hstep. cbv zeta.
    unfold _calculate_required_delay. cbv zeta.
    rewrite required_delay_loop_unchanged by done.
    change (Z.max 0 (py_int 0)) with 0.
    destruct (decide (0 > 0)); [lia|]. by intros [= <-]. }
  unfold _optimize_single_train, route_delay. cbv zeta.
  intros (total & (st & ->%Hloop & [= <-])%bind_Ok & H)%bind_Ok. revert H.
  cbn [snd]. destruct (decide (0 > 0)); [lia|]. by intros [= <-].
Qed.

Lemma greedy_loop_unchanged sd (its : list (nat * Train)) (acc res : list Train) :
  foldM (greedy_step margin sd) its acc = Ok res →
  ∃ out, res = acc ++ out ∧
    Forall2 (λ w o, (∀ p, p ∈ priority <$> acc ++ (snd <$> its) →
                          value (priority w) ≤ value p) → o = w)
            (snd <$> its) out.
Proof.
  revert acc; induction its as [|[i t] its IH]; intros acc; cbn [foldM].
  - intros [= <-]. exists []. by rewrite app_nil_r.
  - intros (acc' & Hstep & Hrest)%bind_Ok.
    apply IH in Hrest as (out & -> & Hout).
    assert (∃ o, acc' = acc ++ [o] ∧ priority o = priority t ∧
                 ((∀ s, s ∈ acc → value (priority t) ≤ value (priority s)) → o = t))
      as (o & -> & Hprio & Hsame).
    { revert Hstep. unfold greedy_step. destruct (decide (i = 0%nat)).
      - intros [= <-]. by exists t.
      - intros (o & Ho & [= <-])%bind_Ok. exists o. split; [done|]. split.
        + by apply (delayed_priority t o), (_optimize_single_train_delayed margin _ _ _ _ Ho).
        + intros Hle. by apply (_optimize_single_train_unchanged _ _ _ _ Hle Ho). }
    exists (o :: out). rewrite <- app_assoc. split; [done|].
    rewrite fmap_cons. cbn [snd]. constructor.
    + intros Hle. apply Hsame. intros s Hs. apply Hle.
      rewrite fmap_app. apply elem_of_app. left. by apply list_elem_of_fmap_2.
    + eapply Forall2_impl; [exact Hout|]. intros w o' Himp Hle. apply Himp.
      intros p Hp. apply Hle. revert Hp.
      rewrite <- app_assoc, !fmap_app, !fmap_cons, fmap_nil, Hprio. done.
Qed.

(** X11: a train is given a delay only if a train with a strictly smaller priority
    value is in the list: an optimized train whose priority value no train of
    the input undercuts is its input train, unchanged. In particular a
    [CRITICAL] train is never delayed. *)
Theorem strongest_trains_unchanged (trains : list Train) (sections : list TrackSection)
    (r : OptimizeResult) :
  optimize_schedule margin trains sections = Ok r →
  Forall2 (λ w o, (∀ s, s ∈ trains → value (priority w) ≤ value (priority s)) → o = w)
          (stable_sort train_key_leb trains) (optimized_trains r).
Proof.
  intros (opt & sch & m & cr & Hopt & _ & _ & _ & ->)%optimize_schedule_Ok.
  cbn [optimized_trains]. unfold _apply_greedy_optimization in Hopt. cbv zeta in Hopt.
  apply greedy_loop_unchanged in Hopt as (out & -> & Hout).
  rewrite (snd_imap_pair id) in Hout. rewrite app_nil_l in *.
  eapply Forall2_impl; [exact Hout|]. intros w o Himp Hle. apply Himp.
  intros p (s & -> & Hs)%list_elem_of_fmap. apply Hle.
  by rewrite <- (stable_sort_perm train_key_leb trains).
Qed.

(** X12: trains of one priority never delay each other: when all trains of the
    input have the same priority, the optimized trains are the input trains in
    sorted order, with their delays as given. *)
Theorem equal_priority_no_delay (trains : list Train) (sections : list TrackSection)
    (r : OptimizeResult) (p : TrainPriority) :
  optimize_schedule margin trains sections = Ok r →
  Forall (λ t, priority t = p) trains →
  optimized_trains r = stable_sort train_key_leb trains ∧
  additional_delay_introduced (metrics r) = 0.
Proof.
  intros Hr Hp.
  assert (Hopt : optimized_trains r = stable_sort train_key_leb trains).
  { apply optimize_schedule_Ok in Hr as (opt & sch & m & cr & Hopt & _ & _ & _ & ->).
    cbn [optimized_trains]. unfold _apply_greedy_optimization in Hopt.
    cbv zeta in Hopt.
    apply greedy_loop_unchanged in Hopt as (out & -> & Hout).
    rewrite (snd_imap_pair id) in Hout. rewrite app_nil_l in *.
    assert (Hall : Forall (λ t, priority t = p) (stable_sort train_key_leb trains)).
    { by rewrite (stable_sort_perm train_key_leb trains). }
    assert (Hout' : Forall2 (λ w o, priority w = p → o = w)
                      (stable_sort train_key_leb trains) out).
    { eapply Forall2_impl; [exact Hout|]. intros w o Himp Hw. apply Himp.
      intros q (s & -> & Hs)%list_elem_of_fmap.
      rewrite Hw, (proj1 (Forall_forall _ _) Hall s Hs). lia. }
    clear Hout. revert Hall.
    induction Hout' as [|w o ws os Himp _ IH]; [done|].
    intros [Hw Hall]%Forall_cons. by rewrite Himp, IH. }
  split; [done|].
  apply optimize_schedule_Ok in Hr as (opt & sch & m & cr & _ & _ & Hm & _ & ->).
  cbn [optimized_trains metrics] in *. subst opt.
  apply _calculate_metrics_Ok
    in Hm as (_ & _ & _ & _ & _ & _ & _ & _ & _ & _ & _ & Had & _).
  rewrite Had, !py_sum_sum.
  rewrite (sum_list_Z_perm (current_delay_minutes <$> stable_sort train_key_leb trains)
             (current_delay_minutes <$> trains))
    by (apply fmap_Permutation, stable_sort_perm).
  lia.
Qed.

End OptimizerResult.

(** *** The order of the optimized trains *)

Section SortOrder.
Context {A : Type} (leb : A → A → bool).
Hypothesis leb_total : ∀ x y, leb x y = false → leb y x = true.
Hypothesis leb_trans : ∀ x y z, leb x y = true → leb y z = true → leb x z = true.

Lemma insert_sorted_ordered (x : A) (l : list A) :
  ordered (λ a b, leb a b = true) l →
  ordered (λ a b, leb a b = true) (insert_sorted leb x l).
Proof.
  induction l as [|y l IH]; [done|]. intros [Hy Hl]. cbn [insert_sorted].
  destruct (leb x y) eqn:E.
  - split; [|by split]. constructor; [done|].
    eapply Forall_impl; [exact Hy|]. intros z Hz. by eapply leb_trans.
  - split; [|by apply IH].
    rewrite (insert_sorted_perm leb x l). constructor; [by apply leb_total | done].
Qed.

Lemma stable_sort_ordered (l : list A) :
  ordered (λ a b, leb a b = true) (stable_sort leb l).
Proof.
  induction l as [|x l IH]; [done|]. by apply insert_sorted_ordered.
Qed.

End SortOrder.

Lemma ordered_impl {A} (R R' : A → A → Prop) (l : list A) :
  (∀ a b, R a b → R' a b) → ordered R l → ordered R' l.
Proof.
  intros HR. induction l as [|x l IH]; [done|]. intros [Hx Hl].
  split; [|by apply IH]. eapply Forall_impl; [exact Hx|]. apply HR.
Qed.

Lemma ordered_fmap {A B} (f : A → B) (R : B → B → Prop) (l : list A) :
  ordered R (f <$> l) ↔ ordered (λ a b, R (f a) (f b)) l.
Proof.
  induction l as [|x l IH]; [done|]. rewrite fmap_cons. cbn [ordered].
  by rewrite IH, Forall_fmap.
Qed.

Lemma ordered_lookup {A} (R : A → A → Prop) (l : list A) (i j : nat) (a b : A) :
  ordered R l → (i < j)%nat → l !! i = Some a → l !! j = Some b → R a b.
Proof.
  revert i j; induction l as [|x l IH]; intros i j; [done|]. intros [Hx Hl] Hij.
  destruct j as [|j]; [lia|]. destruct i as [|i]; simpl.
  - intros [= <-] Hb. apply (proj1 (Forall_forall _ _) Hx).
    by eapply list_elem_of_lookup_2.
  - apply IH; [done | lia].
Qed.

Lemma train_key_leb_total (x y : Train) :
  train_key_leb x y = false → train_key_leb y x = true.
Proof.
  unfold train_key_leb.
  repeat case_bool_decide; simpl; try done; lia.
Qed.

Lemma train_key_leb_trans (x y z : Train) :
  train_key_leb x y = true → train_key_leb y z = true → train_key_leb x z = true.
Proof.
  unfold train_key_leb.
  repeat case_bool_decide; simpl; try done; lia.
Qed.

Lemma train_key_leb_priority (x y : Train) :
  train_key_leb x y = true → value (priority x) ≤ value (priority y).
Proof.
  unfold train_key_leb.
  repeat case_bool_decide; simpl; try done; lia.
Qed.

Lemma delayed_priorities (ws os : list Train) :
  Forall2 delayed ws os → priority <$> os = priority <$> ws.
Proof.
  induction 1 as [|w o ws os Hd _ IH]; [done|].
  rewrite !fmap_cons. f_equal; [by apply delayed_priority | done].
Qed.

(** X13: the working list is sorted by the key (priority value, actual arrival),
    and the optimized trains come in the order of their priority values: of
    two optimized trains, the earlier one has the smaller or the same
    priority value. *)
Theorem optimized_trains_by_priority (margin : Z) (trains : list Train)
    (sections : list TrackSection) (r : OptimizeResult) :
  optimize_schedule margin trains sections = Ok r →
  ordered (λ a b, train_key_leb a b = true) (stable_sort train_key_leb trains) ∧
  ∀ i j a b, (i < j)%nat →
             optimized_trains r !! i = Some a → optimized_trains r !! j = Some b →
             value (priority a) ≤ value (priority b).
Proof.
  intros (opt & sch & m & cr & Hopt & _ & _ & _ & ->)%optimize_schedule_Ok.
  cbn [optimized_trains].
  pose proof (stable_sort_ordered train_key_leb train_key_leb_total
                train_key_leb_trans trains) as Hsorted.
  split; [done|].
  apply _apply_greedy_optimization_delayed, delayed_priorities in Hopt.
  assert (Hord : ordered (λ a b, value (priority a) ≤ value (priority b)) opt).
  { apply (ordered_fmap priority (λ p q, value p ≤ value q)). rewrite Hopt.
    apply ordered_fmap. eapply ordered_impl; [|exact Hsorted].
    apply train_key_leb_priority. }
  intros i j a b.
  exact (ordered_lookup (λ a b, value (priority a) ≤ value (priority b))
           opt i j a b Hord).
Qed.

(** *** The schedule that is returned *)

Lemma add_route_slots_loop_outcome (train : Train) (rt : list string) (ct : datetime)
    (schedules : gmap string Schedule) :
  match foldM (λ '(current_time, schedules) section_id,
                 let section_duration := section_time train section_id in
                 let start_time := current_time in
                 let end_time := current_time + minutes section_duration in
                 schedule ← getitem schedules section_id;
                 Ok (end_time,
                     <[section_id := add_train_slot schedule train start_time end_time]>
                       schedules))
              rt (ct, schedules) with
  | Ok _ => ∀ sid, sid ∈ rt → is_Some (schedules !! sid)
  | Raise e => ∃ sid, e = KeyError sid ∧ sid ∈ rt ∧ schedules !! sid = None
  end.
Proof.
  cbv zeta.
  revert ct schedules; induction rt as [|sid rest IH]; intros ct schedules.
  - cbn [foldM]. by intros sid ?%elem_of_nil.
  - cbn [foldM]. destruct (schedules !! sid) as [sch|] eqn:Hsch.
    + rewrite (getitem_Some _ _ _ Hsch). cbn [mbind result_bind].
      specialize (IH (ct + minutes (section_time train sid))
                    (<[sid := add_train_slot sch train ct
                                (ct + minutes (section_time train sid))]> schedules)).
      destruct (foldM _ rest _) as [res|e].
      * intros sid' [->|Hin]%elem_of_cons; [by eexists|].
        specialize (IH sid' Hin). destruct (decide (sid = sid')) as [->|Hne].
        -- by eexists.
        -- by rewrite lookup_insert_ne in IH.
      * destruct IH as (sid' & -> & Hin & Hnone). exists sid'.
        split; [done|]. split; [by right|].
        destruct (decide (sid = sid')) as [->|Hne].
        -- by rewrite lookup_insert_eq in Hnone.
        -- by rewrite lookup_insert_ne in Hnone.
    + rewrite (getitem_None _ _ Hsch). cbn [mbind result_bind].
      exists sid. split; [done|]. split; [by left | done].
Qed.

Lemma schedule_loop_outcome (trains : list Train) (schedules : gmap string Schedule) :
  match foldM add_route_slots trains schedules with
  | Ok _ => ∀ t sid, t ∈ trains → sid ∈ route t → is_Some (schedules !! sid)
  | Raise e => ∃ t sid, e = KeyError sid ∧ t ∈ trains ∧ sid ∈ route t ∧
                        schedules !! sid = None
  end.
Proof.
  revert schedules; induction trains as [|t trains IH]; intros schedules.
  - cbn [foldM]. by intros t sid ?%elem_of_nil.
  - cbn [foldM].
    pose proof (add_route_slots_loop_outcome t (route t) (get_actual_arrival t)
                  schedules) as Hloop.
    destruct (add_route_slots schedules t) as [s1|e] eqn:E.
    + assert (Hk : ∀ sid, sid ∈ route t → is_Some (schedules !! sid)).
      { revert E Hloop. unfold add_route_slots. cbv zeta.
        unfold datetime in *. by destruct (foldM _ (route t) _). }
      destruct (add_route_slots_spec t schedules Hk) as (s1' & Hs1' & Hs1k).
      assert (s1' = s1) as -> by congruence.
      cbn [mbind result_bind]. specialize (IH s1).
      destruct (foldM add_route_slots trains s1) as [res|e'].
      * intros t' sid [->|Hin]%elem_of_cons Hsid; [by apply Hk|].
        specialize (IH t' sid Hin Hsid). rewrite Hs1k in IH.
        by apply fmap_is_Some in IH.
      * destruct IH as (t' & sid & -> & Hin & Hsid & Hnone).
        exists t', sid. split; [done|]. split; [by right|]. split; [done|].
        rewrite Hs1k in Hnone. by apply fmap_None in Hnone.
    + cbn [mbind result_bind].
      revert E Hloop. unfold add_route_slots. cbv zeta. unfold datetime in *.
      destruct (foldM _ (route t) _) as [res|e']; [done|].
      intros [= <-] (sid & -> & Hin & Hnone).
      exists t, sid. split; [done|]. split; [by left | done].
Qed.

Lemma _generate_optimized_schedule_outcome (trains : list Train) (sections : list TrackSection) :
  match _generate_optimized_schedule trains sections with
  | Ok sch =>
      known_routes (section_dict_of sections) trains ∧
      (∀ k, sch !! k
            = (λ s, mkSchedule k (slot_of <$> all_route_entries trains k) [] true)
                <$> section_dict_of sections !! k) ∧
      (∀ k s check_time tid,
         sch !! k = Some s →
         tid ∈ get_occupancy_at_time s check_time ↔
         ∃ x, x ∈ all_route_entries trains k ∧ train_id x.1.1 = tid ∧
              x.1.2 ≤ check_time ∧ check_time ≤ x.2)
  | Raise e =>
      ∃ t sid, e = KeyError sid ∧ t ∈ trains ∧ sid ∈ route t ∧
               section_dict_of sections !! sid = None
  end.
Proof.
  pose proof (schedule_loop_outcome trains
                (foldl (λ (m : gmap string Schedule) section,
                          <[section_id section
                            := mkSchedule (section_id section) [] [] true]> m)
                       ∅ sections)) as Hout.
  destruct (_generate_optimized_schedule trains sections) as [sch|e] eqn:E.
  - assert (Hk : known_routes (section_dict_of sections) trains).
    { unfold _generate_optimized_schedule in E. cbv zeta in E. rewrite E in Hout.
      intros t sid Ht Hsid. specialize (Hout t sid Ht Hsid).
      rewrite empty_schedules_lookup in Hout. by apply fmap_is_Some in Hout. }
    destruct (_generate_optimized_schedule_spec trains sections Hk)
      as (sch' & Hsch' & Hlook).
    assert (sch' = sch) as -> by congruence.
    split; [done|]. split; [done|].
    intros k s check_time tid Hs. rewrite Hlook in Hs.
    apply fmap_Some in Hs as (sec & _ & ->).
    unfold get_occupancy_at_time. cbn [train_slots].
    rewrite list_elem_of_fmap. split.
    + intros (sl & -> & [Hsl (x & -> & Hx)%list_elem_of_fmap]%list_elem_of_filter).
      exists x. by repeat split; try apply Hsl.
    + intros (x & Hx & <- & H1 & H2). exists (slot_of x). split; [done|].
      apply list_elem_of_filter. split; [by split|].
      by apply list_elem_of_fmap_2.
  - unfold _generate_optimized_schedule in E. cbv zeta in E. rewrite E in Hout.
    destruct Hout as (t & sid & -> & Ht & Hsid & Hnone).
    exists t, sid. repeat (split; [done|]).
    rewrite empty_schedules_lookup in Hnone. by apply fmap_None in Hnone.
Qed.

(** X14: what [_generate_optimized_schedule] returns. Whenever it returns,
    every section on a route is a section of the set; the result has one
    schedule per section id of the set and none for other keys, marked
    optimized and without conflicts; the slots of a section are the visits of
    the trains to it, train by train in list order, each with the times of the
    replayed route; and a train id is reported by [get_occupancy_at_time]
    exactly when one of these visits covers the time asked for, both ends
    included. Whenever it raises a [KeyError], the key is a section id on the
    route of some train of the list that no section of the set carries. *)
Theorem optimized_schedule_contents (trains : list Train) (sections : list TrackSection) :
  (∀ sch, _generate_optimized_schedule trains sections = Ok sch →
     known_routes (section_dict_of sections) trains ∧
     (∀ k, sch !! k
           = (λ s, mkSchedule k (slot_of <$> all_route_entries trains k) [] true)
               <$> section_dict_of sections !! k) ∧
     (∀ k s check_time tid,
        sch !! k = Some s →
        tid ∈ get_occupancy_at_time s check_time ↔
        ∃ x, x ∈ all_route_entries trains k ∧ train_id x.1.1 = tid ∧
             x.1.2 ≤ check_time ∧ check_time ≤ x.2)) ∧
  (∀ sid, _generate_optimized_schedule trains sections = Raise (KeyError sid) →
     ∃ t, t ∈ trains ∧ sid ∈ route t ∧ section_dict_of sections !! sid = None).
Proof.
  pose proof (_generate_optimized_schedule_outcome trains sections) as H.
  split.
  - intros sch E. rewrite E in H. exact H.
  - intros sid E. rewrite E in H.
    destruct H as (t & sid' & [= <-] & Ht & Hsid & Hnone). by exists t.
Qed.

(** ** The detector, seen from its callers *)

(** X1: the outcomes of [detect_conflicts]. Whenever it returns, every
    section id on every route is the id of a section of the set; whenever it
    raises a [KeyError], the key is a section id on the route of some train
    of the list that no section of the set carries; and for an empty train
    list it returns the empty list. *)
Theorem detect_conflicts_known_sections (margin : Z) (trains : list Train)
    (sections : list TrackSection) :
  (∀ cs, detect_conflicts margin trains sections = Ok cs →
         known_routes (section_dict_of sections) trains) ∧
  (∀ sid, detect_conflicts margin trains sections = Raise (KeyError sid) →
          ∃ t, t ∈ trains ∧ sid ∈ route t ∧
               section_dict_of sections !! sid = None) ∧
  detect_conflicts margin [] sections = Ok [].
Proof.
  pose proof (detect_conflicts_outcome margin trains sections) as H.
  split; [|split].
  - intros cs E. rewrite E in H. exact H.
  - intros sid E. rewrite E in H.
    destruct H as (t & sid' & [= <-] & Ht & Hsid & Hnone). by exists t.
  - reflexivity.
Qed.

(** X2: every conflict of a detection run is between two trains of the list in a
    section that lies on both routes and belongs to the section set; its
    window is not empty, its duration in whole minutes is not negative, and
    it carries no resolution. *)
Theorem detected_conflicts_well_formed (margin : Z) (trains : list Train)
    (sections : list TrackSection) (cs : list Conflict) :
  detect_conflicts margin trains sections = Ok cs →
  Forall (well_formed_conflict trains sections) cs.
Proof. apply detect_conflicts_well_formed. Qed.

Lemma detected_conflicts_well_formed_witness :
  ∃ cs, detect_conflicts 5 sample_trains sample_sections = Ok cs ∧
        length cs = 1%nat ∧
        Forall (well_formed_conflict sample_trains sample_sections) cs.
Proof.
  destruct (detect_conflicts 5 sample_trains sample_sections) as [cs|e] eqn:E;
    [|vm_compute in E; discriminate E].
  exists cs. split; [reflexivity|]. split.
  - vm_compute in E. injection E as <-. reflexivity.
  - exact (detected_conflicts_well_formed 5 sample_trains sample_sections cs E).
Defined.

(** X3: a detection run reports a pair of train ids at most once per section,
    in whichever order the two trains appear: no two entries of the result
    are the same conflict in the sense of [_conflict_exists]. *)
Theorem detected_conflicts_distinct (margin : Z) (trains : list Train)
    (sections : list TrackSection) (cs : list Conflict) :
  detect_conflicts margin trains sections = Ok cs →
  ∀ (i j : nat) (ci cj : Conflict),
    cs !! i = Some ci → cs !! j = Some cj → same_conflict ci cj = true → i = j.
Proof. apply detect_conflicts_no_duplicate. Qed.

Lemma detected_conflicts_distinct_witness :
  ∃ cs c, detect_conflicts 5 sample_trains sample_sections = Ok cs ∧
          cs !! 0%nat = Some c ∧
          ∀ j cj, cs !! j = Some cj → same_conflict c cj = true → 0%nat = j.
Proof.
  destruct (detect_conflicts 5 sample_trains sample_sections) as [cs|e] eqn:E;
    [|vm_compute in E; discriminate E].
  destruct (cs !! 0%nat) as [c|] eqn:Hc.
  - exists cs, c. split; [reflexivity|]. split; [exact Hc|].
    intros j cj.
    exact (detected_conflicts_distinct 5 sample_trains sample_sections cs E
             0%nat j c cj Hc).
  - vm_compute in E. injection E as <-. discriminate Hc.
Defined.

(** X4: a train alone has no conflicts: for a single train whose section
    times are not negative, whenever the detector returns it returns the empty
    list, also when the route visits a section more than once. *)
Theorem single_train_no_conflicts (margin : Z) (t : Train)
    (sections : list TrackSection) (cs : list Conflict) :
  (∀ sid, sid ∈ route t → 0 ≤ section_time t sid) →
  detect_conflicts margin [t] sections = Ok cs → cs = [].
Proof.
  intros Htimes E.
  assert (Hknown : ∀ sid, sid ∈ route t → is_Some (section_dict_of sections !! sid)).
  { pose proof (detect_conflicts_outcome margin [t] sections) as H.
    rewrite E in H. intros sid Hsid. apply (H t); [by left | done]. }
  pose proof (detect_conflicts_alone margin t Htimes sections Hknown) as E'.
  congruence.
Qed.

Lemma single_train_no_conflicts_witness :
  ∃ cs, detect_conflicts 5 [plain_train "A" MEDIUM ["S1"; "S2"; "S1"] 0 (hours 1)]
          two_platforms = Ok cs ∧ cs = [].
Proof.
  destruct (detect_conflicts 5 [plain_train "A" MEDIUM ["S1"; "S2"; "S1"] 0 (hours 1)]
              two_platforms) as [cs|e] eqn:E; [|vm_compute in E; discriminate E].
  exists cs. split; [reflexivity|].
  apply (single_train_no_conflicts 5
           (plain_train "A" MEDIUM ["S1"; "S2"; "S1"] 0 (hours 1)) two_platforms cs);
    [|exact E].
  intros sid Hsid. unfold plain_train.
  rewrite section_time_post_init. unfold section_time.
  cbn [estimated_section_times]. rewrite lookup_empty. simpl. lia.
Defined.

(** X5: the timelines that the detector builds: the keys are the section ids that
    occur on some route, each once; the timeline of a section holds the
    visits of the trains to it, none lost and none added, and is in the order
    of the start times. *)
Theorem section_timelines (trains : list Train) (sd : gmap string TrackSection) :
  NoDup (_generate_section_schedules trains sd).*1 ∧
  (∀ k, k ∈ (_generate_section_schedules trains sd).*1 ↔
        ∃ t, t ∈ trains ∧ k ∈ route t) ∧
  ∀ sid,
    odict_get sid (_generate_section_schedules trains sd)
    ≡ₚ all_route_entries trains sid ∧
    ordered (λ a b : Occupancy, a.1.2 ≤ b.1.2)
      (odict_get sid (_generate_section_schedules trains sd)).
Proof.
  split; [apply section_schedules_keys_NoDup|].
  split; [apply section_schedules_keys|].
  intros sid. split; [apply section_schedules_get|].
  unfold _generate_section_schedules. cbv zeta.
  rewrite (odict_get_fmap (stable_sort (λ a b : Occupancy, a.1.2 <=? b.1.2))) by done.
  eapply ordered_impl;
    [|apply (stable_sort_ordered (λ a b : Occupancy, a.1.2 <=? b.1.2))].
  - intros a b. apply Z.leb_le.
  - intros x y H. apply Z.leb_gt in H. apply Z.leb_le. lia.
  - intros x y z H1%Z.leb_le H2%Z.leb_le. apply Z.leb_le. lia.
Qed.

(** ** The optimizer on the sample data *)

Lemma optimize_schedule_metrics_witness :
  ∃ r, optimize_schedule 5 sample_trains sample_sections = Ok r ∧
       total_trains (metrics r) = 3 ∧
       optimized_conflicts (metrics r) = Z.of_nat (length (conflicts_remaining r)) ∧
       0 ≤ additional_delay_introduced (metrics r) ∧
       (punctuality_percentage (metrics r) <= 100)%Q.
Proof.
  destruct (optimize_schedule 5 sample_trains sample_sections) as [r|e] eqn:E;
    [|vm_compute in E; discriminate E].
  destruct (optimize_schedule_metrics 5 sample_trains sample_sections r E)
    as (H1 & _ & H3 & _ & _ & _ & H7 & _ & H9).
  exists r. split; [reflexivity|]. split; [exact H1|]. split; [exact H3|].
  split; [exact H7 | exact H9].
Defined.

Lemma strongest_trains_unchanged_witness :
  ∃ r, optimize_schedule 5 sample_trains sample_sections = Ok r ∧
       Forall2 (λ w o, (∀ s, s ∈ sample_trains → value (priority w) ≤ value (priority s))
                       → o = w)
               (stable_sort train_key_leb sample_trains) (optimized_trains r).
Proof.
  destruct (optimize_schedule 5 sample_trains sample_sections) as [r|e] eqn:E;
    [|vm_compute in E; discriminate E].
  exists r. split; [reflexivity|].
  exact (strongest_trains_unchanged 5 sample_trains sample_sections r E).
Defined.

Lemma equal_priority_no_delay_witness :
  ∃ r, optimize_schedule 5 [plain_train "A" MEDIUM ["S1"; "S2"] 0 (hours 1);
                            plain_train "B" MEDIUM ["S1"; "S2"] 0 (hours 1)]
         two_platforms = Ok r ∧
       current_delay_minutes <$> optimized_trains r = [0; 0] ∧
       additional_delay_introduced (metrics r) = 0.
Proof.
  destruct (optimize_schedule 5 [plain_train "A" MEDIUM ["S1"; "S2"] 0 (hours 1);
                                 plain_train "B" MEDIUM ["S1"; "S2"] 0 (hours 1)]
              two_platforms) as [r|e] eqn:E;
    [|vm_compute in E; discriminate E].
  destruct (equal_priority_no_delay 5 _ _ r MEDIUM E) as [Hopt Hadd].
  { repeat constructor. }
  exists r. split; [reflexivity|]. split; [|exact Hadd].
  rewrite Hopt. vm_compute. reflexivity.
Defined.

Lemma optimized_trains_by_priority_witness :
  ∃ r, optimize_schedule 5 sample_trains sample_sections = Ok r ∧
       priority <$> optimized_trains r = [HIGH; MEDIUM; LOW] ∧
       ∀ i j a b, (i < j)%nat →
                  optimized_trains r !! i = Some a → optimized_trains r !! j = Some b →
                  value (priority a) ≤ value (priority b).
Proof.
  destruct (optimize_schedule 5 sample_trains sample_sections) as [r|e] eqn:E;
    [|vm_compute in E; discriminate E].
  destruct (optimized_trains_by_priority 5 sample_trains sample_sections r E)
    as [_ Hord].
  exists r. split; [reflexivity|]. split; [|exact Hord].
  vm_compute in E. injection E as <-. vm_compute. reflexivity.
Defined.

(** ** More on the what-if analysis *)

Lemma sum_list_Z_cons (x : Z) (l : list Z) : sum_list_Z (x :: l) = x + sum_list_Z l.
Proof. done. Qed.

Lemma delay_first_match_sum (tid : string) (extra : Z) (trains : list Train) :
  sum_list_Z (current_delay_minutes <$> delay_first_match tid extra trains)
  = sum_list_Z (current_delay_minutes <$> trains)
    + (if decide (tid ∈ train_id <$> trains) then extra else 0).
Proof.
  induction trains as [|t l IH].
  - cbn [delay_first_match]. rewrite fmap_nil.
    destruct (decide (tid ∈ [])) as [H%elem_of_nil|_]; [done|]. unfold sum_list_Z; simpl. lia.
  - cbn [delay_first_match]. destruct (decide (train_id t = tid)) as [Heq|Hne].
    + rewrite !fmap_cons, !sum_list_Z_cons. cbn [current_delay_minutes set_delay].
      destruct (decide (tid ∈ train_id t :: (train_id <$> l))) as [_|Hn]; [lia|].
      destruct Hn. apply elem_of_cons. by left.
    + rewrite !fmap_cons, !sum_list_Z_cons, IH.
      destruct (decide (tid ∈ train_id <$> l)) as [Hin|Hnin];
        destruct (decide (tid ∈ train_id t :: (train_id <$> l)))
          as [Hin'|Hnin']; try lia.
      * destruct Hnin'. by right.
      * apply elem_of_cons in Hin' as [->|Hin']; done.
Qed.

Lemma delay_first_match_length (tid : string) (extra : Z) (trains : list Train) :
  length (delay_first_match tid extra trains) = length trains.
Proof.
  induction trains as [|t l IH]; [done|]. cbn [delay_first_match].
  destruct (decide (train_id t = tid)); [done|]. simpl. by rewrite IH.
Qed.

Lemma reprioritise_first_match_spec (tid : string) (p : TrainPriority)
    (trains : list Train) :
  match (reprioritise_first_match tid p trains).1 with
  | Some q => ∃ t, t ∈ trains ∧ train_id t = tid ∧ priority t = q
  | None => tid ∉ train_id <$> trains
  end ∧
  current_delay_minutes <$> (reprioritise_first_match tid p trains).2
  = current_delay_minutes <$> trains ∧
  length (reprioritise_first_match tid p trains).2 = length trains.
Proof.
  induction trains as [|t l (IH1 & IH2 & IH3)].
  - cbn. split; [by intros ?%elem_of_nil | done].
  - cbn [reprioritise_first_match]. destruct (decide (train_id t = tid)) as [Heq|Hne].
    + cbn [fst snd]. split; [|done]. exists t. split; [by left | done].
    + destruct (reprioritise_first_match tid p l) as [o l'] eqn:E. cbn [fst snd] in *.
      split; [|split].
      * destruct o as [q|].
        -- destruct IH1 as (t' & Ht' & Hid & Hq). exists t'. split; [by right | done].
        -- rewrite fmap_cons. intros [->|Hin]%elem_of_cons; done.
      * rewrite !fmap_cons. by rewrite IH2.
      * simpl. by rewrite IH3.
Qed.

Lemma reprioritise_first_match_same (tid : string) (p : TrainPriority)
    (trains : list Train) :
  tid ∈ train_id <$> trains →
  (∀ t, t ∈ trains → train_id t = tid → priority t = p) →
  reprioritise_first_match tid p trains = (Some p, trains).
Proof.
  induction trains as [|t l IH]; [by intros ?%elem_of_nil|].
  rewrite fmap_cons. intros Hin Hp. cbn [reprioritise_first_match].
  destruct (decide (train_id t = tid)) as [Heq|Hne].
  - rewrite <- (Hp t) by (done || by left). f_equal. f_equal. by destruct t.
  - rewrite IH; [done| |].
    + apply elem_of_cons in Hin as [->|Hin]; done.
    + intros t' Ht'. apply Hp. by right.
Qed.

Section WhatIfMore.
Variable margin : Z.

Lemma optimize_schedule_totals (trains : list Train) (sections : list TrackSection)
    (r : OptimizeResult) :
  optimize_schedule margin trains sections = Ok r →
  total_trains (metrics r) = Z.of_nat (length trains) ∧
  original_total_delay (metrics r) = sum_list_Z (current_delay_minutes <$> trains) ∧
  optimized_total_delay (metrics r)
  = original_total_delay (metrics r) + additional_delay_introduced (metrics r).
Proof.
  intros (opt & sch & m & cr & _ & _ & Hm & _ & ->)%optimize_schedule_Ok.
  apply _calculate_metrics_Ok in Hm
    as (oc & rc & th & _ & _ & _ & Htt & _ & _ & Hod & Hpd & Had & _).
  cbn [metrics]. rewrite Htt, Hod, Hpd, Had, !py_sum_sum. repeat split. lia.
Qed.

(** X16: a priority scenario that changes nothing: when some train carries the id
    and every train with the id already has the new priority, the analysis
    fails exactly as the optimizer does on the train set, and otherwise its
    report carries the metrics of that set twice, all three changes zero, and
    a description that names the same priority twice. *)
Theorem same_priority_scenario (trains : list Train) (sections : list TrackSection)
    (tid : string) (p : TrainPriority) :
  tid ∈ train_id <$> trains →
  (∀ t, t ∈ trains → train_id t = tid → priority t = p) →
  match optimize_schedule margin trains sections with
  | Ok r =>
      ∃ rep, analyze_priority_change margin trains sections tid p = Ok rep ∧
             original_metrics rep = metrics r ∧
             scenario_metrics rep = metrics r ∧
             conflicts_change (impact rep) = 0 ∧
             delay_change (impact rep) = 0 ∧
             (punctuality_change (impact rep) == 0)%Q ∧
             scenario_description rep
             = "Train " +:+ tid +:+ " priority changed from " +:+ priority_name p
                 +:+ " to " +:+ priority_name p
  | Raise e => analyze_priority_change margin trains sections tid p = Raise e
  end.
Proof.
  intros Hin Hp. unfold analyze_priority_change.
  rewrite (reprioritise_first_match_same tid p trains Hin Hp).
  destruct (optimize_schedule margin trains sections) as [r|e]; [|done].
  cbn [mbind result_bind name_of]. eexists. split; [reflexivity|].
  cbn [original_metrics scenario_metrics impact conflicts_change delay_change
         punctuality_change scenario_description].
  repeat split; try lia. ring.
Qed.

(** X17: what a priority scenario compares. [analyze_priority_change] returns a
    report only for an id that some train carries; the report's two metrics
    then count the same trains and the same input delay total, and the
    reported delay change is the change in the delay the optimizer adds. *)
Theorem priority_scenario_totals (trains : list Train) (sections : list TrackSection)
    (tid : string) (p : TrainPriority) (rep : Report PriorityImpact) :
  analyze_priority_change margin trains sections tid p = Ok rep →
  tid ∈ train_id <$> trains ∧
  total_trains (scenario_metrics rep) = total_trains (original_metrics rep) ∧
  original_total_delay (scenario_metrics rep)
  = original_total_delay (original_metrics rep) ∧
  delay_change (impact rep)
  = additional_delay_introduced (scenario_metrics rep)
    - additional_delay_introduced (original_metrics rep).
Proof.
  unfold analyze_priority_change.
  destruct (reprioritise_first_match_spec tid p trains) as (Ho & Hd & Hl).
  destruct (reprioritise_first_match tid p trains) as [o scenario].
  cbn [fst snd] in *.
  intros (r1 & Hr1 & (r2 & Hr2 & (nm & Hnm & [= <-])%bind_Ok)%bind_Ok)%bind_Ok.
  destruct o as [q|]; [|done].
  destruct Ho as (t & Ht & Hid & _).
  apply optimize_schedule_totals in Hr1 as (Ht1 & Ho1 & Hp1).
  apply optimize_schedule_totals in Hr2 as (Ht2 & Ho2 & Hp2).
  rewrite Hl in Ht2. rewrite Hd in Ho2.
  cbn [scenario_metrics original_metrics impact delay_change].
  split; [|repeat split; lia].
  rewrite <- Hid. by apply list_elem_of_fmap_2.
Qed.

End WhatIfMore.

Lemma same_priority_scenario_witness :
  ∃ rep, analyze_priority_change 5 sample_trains sample_sections "T001" HIGH = Ok rep ∧
         scenario_description rep = "Train T001 priority changed from HIGH to HIGH" ∧
         delay_change (impact rep) = 0.
Proof.
  assert (Hin : "T001" ∈ train_id <$> sample_trains) by (vm_compute; left).
  assert (Hp : ∀ t, t ∈ sample_trains → train_id t = "T001" → priority t = HIGH).
  { intros t Ht Hid. unfold sample_trains in Ht.
    apply elem_of_cons in Ht as [->|Ht]; [reflexivity|].
    apply elem_of_cons in Ht as [->|Ht]; [vm_compute in Hid; discriminate Hid|].
    apply elem_of_cons in Ht as [->|Ht]; [vm_compute in Hid; discriminate Hid|].
    apply elem_of_nil in Ht. destruct Ht. }
  pose proof (same_priority_scenario 5 sample_trains sample_sections "T001" HIGH
                Hin Hp) as H.
  destruct (optimize_schedule 5 sample_trains sample_sections) as [r|e] eqn:E;
    [|vm_compute in E; discriminate E].
  destruct H as (rep & Hrep & _ & _ & _ & Hd & _ & Hdesc).
  exists rep. split; [exact Hrep|]. split; [exact Hdesc | exact Hd].
Defined.

Lemma priority_scenario_totals_witness :
  ∃ rep, analyze_priority_change 5 sample_trains sample_sections "T001" LOW = Ok rep ∧
         "T001" ∈ train_id <$> sample_trains ∧
         total_trains (scenario_metrics rep) = total_trains (original_metrics rep).
Proof.
  destruct (analyze_priority_change 5 sample_trains sample_sections "T001" LOW)
    as [rep|e] eqn:E; [|vm_compute in E; discriminate E].
  destruct (priority_scenario_totals 5 sample_trains sample_sections "T001" LOW rep E)
    as (H1 & H2 & _).
  exists rep. split; [reflexivity|]. split; [exact H1 | exact H2].
Defined.

(** ** Resolution suggestions *)

(** X20: the train that a delay suggestion holds back never has the stronger
    priority of the two: its priority value is at least that of the train
    given precedence. The two are the two trains of the conflict, and on
    equal priorities it is [train1] that is held back. *)
Theorem delay_suggestion_precedence (conflict : Conflict) :
  value (priority (higher_priority_train conflict))
  ≤ value (priority (lower_priority_train conflict)) ∧
  ((lower_priority_train conflict = train1 conflict ∧
    higher_priority_train conflict = train2 conflict) ∨
   (lower_priority_train conflict = train2 conflict ∧
    higher_priority_train conflict = train1 conflict)) ∧
  (value (priority (train1 conflict)) = value (priority (train2 conflict)) →
   lower_priority_train conflict = train1 conflict).
Proof.
  unfold higher_priority_train, lower_priority_train.
  destruct (decide (value (priority (train1 conflict))
                    < value (priority (train2 conflict)))) as [Hlt|Hge].
  - rewrite decide_True by done. split; [lia|]. split; [by right | lia].
  - destruct (decide (train1 conflict = train2 conflict)) as [Heq|Hne].
    + split; [lia|]. split; [by left | done].
    + split; [lia|]. split; [by left | done].
Qed.

Lemma NoDup_fst_unique {A B} (l : list (A * B)) (k : A) (a b : B) :
  NoDup l.*1 → (k, a) ∈ l → (k, b) ∈ l → a = b.
Proof.
  induction l as [|[k' c] l IH]; [by intros _ ?%elem_of_nil|].
  rewrite fmap_cons. cbn [fst]. intros [Hk Hl]%NoDup_cons Ha Hb.
  apply elem_of_cons in Ha as [Ha|Ha]; apply elem_of_cons in Hb as [Hb|Hb].
  - congruence.
  - destruct Hk. injection Ha as <- _. by apply (list_elem_of_fmap_2 fst l (k, b)).
  - destruct Hk. injection Hb as <- _. by apply (list_elem_of_fmap_2 fst l (k, a)).
  - by apply IH.
Qed.

Lemma suggest_resolutions_lookup (conflicts : list (string * Conflict))
    (m : gmap string (list string)) (cid : string) :
  foldl (λ resolutions '(conflict_id, conflict),
           <[conflict_id := suggestions_for conflict]> resolutions)
        m conflicts !! cid
  = match last (filter (λ x, x.1 = cid) conflicts) with
    | Some x => Some (suggestions_for x.2)
    | None => m !! cid
    end.
Proof.
  revert m; induction conflicts as [|[k c] l IH]; intros m; [done|].
  cbn [foldl]. rewrite IH, filter_cons. cbn [fst].
  destruct (decide (k = cid)) as [->|Hne].
  - rewrite last_cons. destruct (last (filter _ l)); [done|].
    by rewrite lookup_insert_eq.
  - destruct (last (filter _ l)); [done|]. by rewrite lookup_insert_ne.
Qed.

(** X21: what [suggest_resolutions] returns: an entry for each conflict id
    of the list and for nothing else; the entry of an id is the suggestion
    list of the last conflict of the list that carries the id, so with
    distinct ids every conflict has its own; each suggestion list has two
    suggestions, the delay suggestion among them, first for a severity of 4
    or 5 and second otherwise. *)
Theorem suggest_resolutions_contents (conflicts : list (string * Conflict)) :
  (∀ cid, is_Some (suggest_resolutions conflicts !! cid) ↔ cid ∈ conflicts.*1) ∧
  (∀ cid, suggest_resolutions conflicts !! cid
          = (λ x, suggestions_for x.2)
              <$> last (filter (λ x : string * Conflict, x.1 = cid) conflicts)) ∧
  (NoDup conflicts.*1 →
   ∀ cid c, (cid, c) ∈ conflicts →
            suggest_resolutions conflicts !! cid = Some (suggestions_for c)) ∧
  (∀ c, length (suggestions_for c) = 2%nat ∧
        (4 ≤ severity c →
         suggestions_for c
         = _suggest_delay_resolution c ++ _suggest_route_resolution c) ∧
        (severity c < 4 →
         suggestions_for c
         = _suggest_speed_resolution c ++ _suggest_delay_resolution c)).
Proof.
  assert (Hlast : ∀ cid x,
            last (filter (λ x : string * Conflict, x.1 = cid) conflicts) = Some x →
            x ∈ conflicts ∧ x.1 = cid).
  { intros cid x Hx. apply last_Some in Hx as [l' Hl'].
    assert (Hin : x ∈ filter (λ x : string * Conflict, x.1 = cid) conflicts).
    { rewrite Hl'. apply elem_of_app. right. by left. }
    apply list_elem_of_filter in Hin as [? ?]. done. }
  unfold suggest_resolutions. split; [|split; [|split]].
  - intros cid. rewrite suggest_resolutions_lookup, lookup_empty.
    destruct (last _) as [x|] eqn:Hx.
    + apply Hlast in Hx as [Hin <-]. split; [|by eexists].
      intros _. by apply list_elem_of_fmap_2.
    + split; [by intros [? ?]|]. intros ([k c] & -> & Hin)%list_elem_of_fmap.
      apply last_None in Hx.
      assert (Hf : (k, c) ∈ filter (λ x : string * Conflict, x.1 = (k, c).1) conflicts)
        by (by apply list_elem_of_filter).
      rewrite Hx in Hf. by apply elem_of_nil in Hf.
  - intros cid. rewrite suggest_resolutions_lookup, lookup_empty.
    by destruct (last _).
  - intros Hnd cid c Hin. rewrite suggest_resolutions_lookup, lookup_empty.
    destruct (last _) as [[k c']|] eqn:Hx.
    + apply Hlast in Hx as [Hin' Hk]. cbn in Hk. subst k. cbn [snd].
      do 2 f_equal. by apply (NoDup_fst_unique conflicts cid).
    + apply last_None in Hx.
      assert (Hf : (cid, c) ∈ filter (λ x : string * Conflict, x.1 = cid) conflicts)
        by (by apply list_elem_of_filter).
      rewrite Hx in Hf. by apply elem_of_nil in Hf.
  - intros c. unfold suggestions_for. cbv zeta. rewrite !app_nil_l.
    destruct (decide (severity c >= 4)); (split; [done|]); split; intros; (done || lia).
Qed.

(** ** The section controller *)

Lemma section_dict_of_lookup (sections : list TrackSection)
    (m : gmap string TrackSection) (sid : string) :
  foldl (λ m s, <[section_id s := s]> m) m sections !! sid
  = match last (filter (λ s, section_id s = sid) sections) with
    | Some s => Some s
    | None => m !! sid
    end.
Proof.
  revert m; induction sections as [|s l IH]; intros m; [done|].
  cbn [foldl]. rewrite IH, filter_cons.
  destruct (decide (section_id s = sid)) as [<-|Hne].
  - rewrite last_cons. destruct (last (filter _ l)); [done|].
    by rewrite lookup_insert_eq.
  - destruct (last (filter _ l)); [done|]. by rewrite lookup_insert_ne.
Qed.

Lemma filter_key_NoDup {A} (f : A → string) (k : string) (l : list A) :
  NoDup (f <$> l) → (length (filter (λ x, f x = k) l) ≤ 1)%nat.
Proof.
  induction l as [|x l IH]; [simpl; lia|].
  rewrite fmap_cons. intros [Hx Hl]%NoDup_cons. rewrite filter_cons.
  destruct (decide (f x = k)) as [<-|Hne]; [|by apply IH].
  rewrite (filter_none (λ y, f y = f x) l); [simpl; lia|].
  apply Forall_forall. intros y Hy Heq. apply Hx. rewrite <- Heq.
  by apply list_elem_of_fmap_2.
Qed.

(** X22: looking a section up through the controller: the answer is the first
    section of the list with the id, and [None] when there is none. It is
    there exactly when the dictionary of the detector and the optimizer has
    the id, and with distinct section ids the two lookups give the same
    section (with repeated ids the dictionary holds the last one). *)
Theorem get_section_by_id_spec (c : SectionController.t) (sid : string) :
  match SectionController.get_section_by_id c sid with
  | Some s =>
      section_id s = sid ∧
      ∃ l1 l2, SectionController.sections c = l1 ++ s :: l2 ∧
               Forall (λ s', section_id s' ≠ sid) l1
  | None => Forall (λ s', section_id s' ≠ sid) (SectionController.sections c)
  end ∧
  (is_Some (SectionController.get_section_by_id c sid) ↔
   is_Some (section_dict_of (SectionController.sections c) !! sid)) ∧
  (NoDup (section_id <$> SectionController.sections c) →
   SectionController.get_section_by_id c sid
   = section_dict_of (SectionController.sections c) !! sid).
Proof.
  unfold SectionController.get_section_by_id, section_dict_of.
  generalize (SectionController.sections c). intros sections.
  rewrite section_dict_of_lookup, lookup_empty.
  split; [|split].
  - induction sections as [|s l IH]; [constructor|].
    rewrite filter_cons. destruct (decide (section_id s = sid)) as [Heq|Hne].
    + cbn [head]. split; [done|]. exists [], l. by split.
    + destruct (head (filter _ l)) as [s'|].
      * destruct IH as (Hid & l1 & l2 & -> & Hl1). split; [done|].
        exists (s :: l1), l2. split; [done|]. by constructor.
      * by constructor.
  - destruct (filter (λ s, section_id s = sid) sections) as [|s l] using rev_ind.
    + split; by intros [? ?].
    + rewrite last_snoc. destruct l; split; intros _; by eexists.
  - intros Hnd. pose proof (filter_key_NoDup section_id sid sections Hnd) as Hlen.
    destruct (filter (λ s, section_id s = sid) sections) as [|s [|s' l]]; [done..|].
    simpl in Hlen. lia.
Qed.

(** X23: adding a train and then removing its id: the trains that carried the id
    before are gone as well, so the controller is back as it was exactly when
    no active train had the id. After [remove_train] the active trains are
    those of before with another id, in their order, and the rest of the
    controller is untouched. *)
Theorem add_then_remove_train (c : SectionController.t) (train : Train) (tid : string) :
  SectionController.remove_train (SectionController.add_train c train) (train_id train)
  = SectionController.remove_train c (train_id train) ∧
  (SectionController.remove_train (SectionController.add_train c train) (train_id train)
   = c ↔
   Forall (λ t, train_id t ≠ train_id train) (SectionController.active_trains c)) ∧
  (∀ t, t ∈ SectionController.active_trains (SectionController.remove_train c tid) ↔
        t ∈ SectionController.active_trains c ∧ train_id t ≠ tid) ∧
  SectionController.active_trains (SectionController.remove_train c tid)
  `sublist_of` SectionController.active_trains c ∧
  SectionController.sections (SectionController.remove_train c tid)
  = SectionController.sections c.
Proof.
  destruct c as [cid nm secs act sch].
  unfold SectionController.remove_train, SectionController.add_train.
  cbn [SectionController.controller_id SectionController.name
         SectionController.sections SectionController.active_trains
         SectionController.schedule].
  assert (Hfilter : filter (λ t, train_id t ≠ train_id train) (act ++ [train])
                    = filter (λ t, train_id t ≠ train_id train) act).
  { rewrite filter_app, filter_cons, decide_False by (by intros H; apply H).
    by rewrite filter_nil, app_nil_r. }
  rewrite Hfilter. split; [done|]. split; [|split; [|split]].
  - split.
    + intros [= H]. rewrite <- H. apply Forall_forall.
      by intros t [Ht _]%list_elem_of_filter.
    + intros H. by rewrite filter_all.
  - intros t. rewrite list_elem_of_filter. tauto.
  - apply sublist_filter.
  - done.
Qed.

(** ** Building a train *)

(** X24: [__post_init__] on the section times: a table that is not empty is kept;
    an empty one becomes ten minutes for each section of the route; either
    way every section time that the engine reads stays what it was, ten
    minutes where the table has no entry. *)
Theorem post_init_section_times (t : Train) :
  (estimated_section_times t ≠ ∅ → post_init t = t) ∧
  (estimated_section_times t = ∅ →
   ∀ sid, estimated_section_times (post_init t) !! sid
          = if decide (sid ∈ route t) then Some 10 else None) ∧
  (∀ sid, section_time (post_init t) sid = section_time t sid) ∧
  route (post_init t) = route t ∧
  current_delay_minutes (post_init t) = current_delay_minutes t.
Proof.
  split; [|split; [|split; [|split]]].
  - intros Hne. unfold post_init. by rewrite decide_False.
  - intros He sid. unfold post_init. rewrite decide_True by done.
    cbn [estimated_section_times].
    assert (H : ∀ (m : gmap string Z) l,
              foldl (λ m sid, <[sid := 10]> m) m l !! sid
              = if decide (sid ∈ l) then Some 10 else m !! sid).
    { intros m l; revert m; induction l as [|x l IH]; intros m.
      - cbn [foldl]. destruct (decide (sid ∈ [])) as [?%elem_of_nil|]; done.
      - cbn [foldl]. rewrite IH.
        destruct (decide (sid ∈ l)) as [Hin|Hnin].
        + rewrite decide_True; [done | by right].
        + destruct (decide (x = sid)) as [->|Hne].
          * rewrite lookup_insert_eq, decide_True; [done | by left].
          * rewrite lookup_insert_ne by done.
            rewrite decide_False; [done|].
            intros [->|?]%elem_of_cons; done. }
    rewrite H, lookup_empty. done.
  - intros sid. apply section_time_post_init.
  - unfold post_init. by case_decide.
  - unfold post_init. by case_decide.
Qed.

(** ** The analyzer and the caller's objects *)

(** X18: [analyze_delay_scenario] works on a deep copy: the extra delay is written
    to the copy, and the two optimizer runs write to copies of their own, so
    every train object that exists before the call is the same after it,
    whether or not the call returns a report. *)
Theorem delay_scenario_keeps_trains (margin : Z) (trains : list loc)
    (sections : list TrackSection) (tid : string) (extra : Z) (h : heap) :
  ∀ (l : loc) (t : Train),
    h !! l = Some t →
    (analyze_delay_scenario_refs margin trains sections tid extra h).2 !! l = Some t.
Proof. apply analyze_delay_scenario_refs_frame. Qed.

Lemma delay_scenario_keeps_trains_witness :
  sample_trains !! 0%nat = Some sample_T001 ∧
  (analyze_delay_scenario_refs 5 [0; 1; 2]%nat sample_sections "T001" 30
     sample_trains).2 !! 0%nat = Some sample_T001.
Proof.
  split; [reflexivity|].
  apply (delay_scenario_keeps_trains 5 [0; 1; 2]%nat sample_sections "T001" 30
           sample_trains 0%nat sample_T001).
  reflexivity.
Defined.

(** X19: the optimizer reads the trains it is given and nothing else of the store:
    run on references, it returns what it returns on the list of the objects
    behind them, also when the list holds an object more than once, and the
    optimized trains it hands back are the objects of that result. *)
Theorem optimize_schedule_reads_values (margin : Z) (trains : list loc)
    (sections : list TrackSection) (h : heap) (r : result OptimizeResultRefs)
    (h' : heap) :
  Forall (λ l, (l < length h)%nat) trains →
  optimize_schedule_refs margin trains sections h = (r, h') →
  optimize_result <$> r = optimize_schedule margin (deref h <$> trains) sections ∧
  (∀ res, r = Ok res →
     deref h' <$> optimized_train_refs res = optimized_trains (optimize_result res)).
Proof. apply optimize_schedule_refs_values. Qed.

Lemma optimize_schedule_reads_values_witness :
  optimize_result <$> (optimize_schedule_refs 5 [1; 0; 1]%nat sample_sections
                         sample_trains).1
  = optimize_schedule 5 [sample_T002; sample_T001; sample_T002] sample_sections.
Proof.
  destruct (optimize_schedule_refs 5 [1; 0; 1]%nat sample_sections sample_trains)
    as [r h'] eqn:E.
  destruct (optimize_schedule_reads_values 5 [1; 0; 1]%nat sample_sections
              sample_trains r h') as [H _].
  - repeat constructor.
  - exact E.
  - exact H.
Defined.

(** ** Which conflict of a pair is kept *)

Lemma same_conflict_trans (a b c : Conflict) :
  same_conflict a b = true → same_conflict b c = true → same_conflict a c = true.
Proof.
  unfold same_conflict. rewrite !bool_decide_eq_true.
  intros [[[-> ->]|[-> ->]] ->] [[[-> ->]|[-> ->]] ->]; tauto.
Qed.

Lemma filter_ext_Forall {A} (P Q : A → Prop) `{!∀ x, Decision (P x)}
    `{!∀ x, Decision (Q x)} (l : list A) :
  Forall (λ x, P x ↔ Q x) l → filter P l = filter Q l.
Proof.
  induction 1 as [|x l Hx _ IH]; [done|].
  rewrite !filter_cons, IH.
  destruct (decide (P x)), (decide (Q x)); tauto || done.
Qed.

Lemma first_of_each_pair_snoc (p : list Conflict) (c : Conflict) :
  first_of_each_pair (p ++ [c])
  = first_of_each_pair p
    ++ (if decide (Forall (λ c', same_conflict c' c = false) p) then [c] else []).
Proof.
  unfold first_of_each_pair. rewrite imap_app, filter_app, fmap_app. f_equal.
  - f_equal. apply filter_ext_Forall. apply Forall_forall.
    intros [k x] Hkx. apply elem_of_lookup_imap in Hkx as (i & y & [= -> ->] & Hi).
    cbn [fst snd]. rewrite take_app_le; [done|].
    apply lookup_lt_Some in Hi. lia.
  - cbn [imap]. rewrite filter_cons, filter_nil. cbn [fst snd].
    rewrite Nat.add_0_r, take_app_length.
    by destruct (decide (Forall (λ c', same_conflict c' c = false) p)).
Qed.

Lemma first_of_each_pair_elem (p : list Conflict) (c : Conflict) :
  c ∈ first_of_each_pair p → c ∈ p.
Proof.
  unfold first_of_each_pair.
  intros ([k x] & -> & [_ Hkx]%list_elem_of_filter)%list_elem_of_fmap.
  apply elem_of_lookup_imap in Hkx as (i & y & [= -> ->] & Hi).
  by eapply list_elem_of_lookup_2.
Qed.

Lemma first_of_each_pair_covers (p : list Conflict) (c : Conflict) :
  (∃ c', c' ∈ p ∧ same_conflict c' c = true) →
  ∃ c', c' ∈ first_of_each_pair p ∧ same_conflict c' c = true.
Proof.
  revert c. induction p as [|d q IH] using rev_ind; intros c (c' & Hin & Hsame).
  - by apply elem_of_nil in Hin.
  - rewrite first_of_each_pair_snoc.
    assert (Hq : ∀ e, (∃ c', c' ∈ q ∧ same_conflict c' e = true) →
                      ∃ c', c' ∈ first_of_each_pair q
                              ++ (if decide (Forall (λ c', same_conflict c' d = false) q)
                                  then [d] else [])
                            ∧ same_conflict c' e = true).
    { intros e He. destruct (IH e He) as (c'' & Hc'' & Hs).
      exists c''. split; [|done]. apply elem_of_app. by left. }
    apply elem_of_app in Hin as [Hin|Hin%list_elem_of_singleton].
    + apply Hq. by exists c'.
    + subst c'. destruct (decide (Forall (λ c', same_conflict c' d = false) q))
        as [Hnone|Hsome].
      * exists d. split; [|done]. apply elem_of_app. right. by left.
      * apply not_Forall_Exists in Hsome; [|intros x; apply _].
        apply Exists_exists in Hsome as (e & He & Hed).
        apply Hq. exists e. split; [done|].
        apply (same_conflict_trans e d c); [|done].
        by apply not_false_iff_true.
Qed.

Lemma keep_first_step (p : list Conflict) (c : Conflict) :
  (if _conflict_exists (first_of_each_pair p) c then first_of_each_pair p
   else first_of_each_pair p ++ [c])
  = first_of_each_pair (p ++ [c]).
Proof.
  rewrite first_of_each_pair_snoc.
  destruct (_conflict_exists (first_of_each_pair p) c) eqn:E.
  - apply _conflict_exists_true in E as (c0 & Hc0%first_of_each_pair_elem & Hs).
    rewrite decide_False; [by rewrite app_nil_r|].
    intros Hall. apply (proj1 (Forall_forall _ _) Hall) in Hc0. congruence.
  - rewrite decide_True; [done|]. apply Forall_forall. intros c' Hc'.
    destruct (same_conflict c' c) eqn:Hs; [|done].
    destruct (first_of_each_pair_covers p c) as (c'' & Hc'' & Hs'');
      [by exists c'|].
    assert (_conflict_exists (first_of_each_pair p) c = true)
      by (apply _conflict_exists_true; by exists c'').
    congruence.
Qed.

Lemma keep_first_loop (p l : list Conflict) :
  foldl (λ acc c, if _conflict_exists acc c then acc else acc ++ [c])
        (first_of_each_pair p) l
  = first_of_each_pair (p ++ l).
Proof.
  revert p; induction l as [|c l IH]; intros p.
  - by rewrite app_nil_r.
  - cbn [foldl]. rewrite keep_first_step, IH. by rewrite <- app_assoc.
Qed.

Lemma add_conflicts_keep_first (train1 : Train) (start1 end1 : datetime)
    (section : TrackSection) (overlapping_trains : list Occupancy)
    (conflicts : list Conflict) :
  add_conflicts train1 start1 end1 section overlapping_trains conflicts
  = foldl (λ acc c, if _conflict_exists acc c then acc else acc ++ [c]) conflicts
      (omap (λ y : Occupancy,
               _create_conflict train1 y.1.1 section start1 end1 y.1.2 y.2)
         overlapping_trains).
Proof.
  unfold add_conflicts. revert conflicts.
  induction overlapping_trains as [|[[t2 s2] e2] l IH]; intros conflicts; [done|].
  cbn [foldl omap list_omap]. rewrite IH. unfold add_conflict_step. cbn [fst snd].
  by destruct (_create_conflict train1 t2 section start1 end1 s2 e2).
Qed.

Lemma detect_loop_keep_first (margin : Z) (train_times : list Occupancy)
    (section : TrackSection) (g : nat → nat) (l : list Occupancy)
    (conflicts : list Conflict) :
  foldl (detect_entry margin train_times section) conflicts
        (imap (λ i x, (g i, x)) l)
  = foldl (λ acc c, if _conflict_exists acc c then acc else acc ++ [c]) conflicts
      (mjoin (imap (λ (i : nat) (x : Occupancy),
                      let overlapping_trains :=
                        overlapping_from margin (g i) 0 x.1.2 x.2 train_times in
                      if decide (Z.of_nat (length overlapping_trains)
                                 >= capacity section)
                      then omap (λ y : Occupancy,
                                   _create_conflict x.1.1 y.1.1 section
                                     x.1.2 x.2 y.1.2 y.2)
                             overlapping_trains
                      else [])
                   l)).
Proof.
  revert g conflicts; induction l as [|[[t1 s1] e1] l IH]; intros g conflicts; [done|].
  cbn [imap foldl mjoin list_join]. rewrite foldl_app.
  rewrite (IH (g ∘ S)). f_equal.
  unfold detect_entry. cbn [fst snd]. cbv zeta.
  destruct (decide (Z.of_nat (length (overlapping_from margin (g 0%nat) 0 s1 e1
                                        train_times)) >= capacity section)); [|done].
  apply add_conflicts_keep_first.
Qed.

Lemma _detect_section_conflicts_keep_first (margin : Z) (train_times : list Occupancy)
    (section : TrackSection) :
  _detect_section_conflicts margin train_times section
  = first_of_each_pair (candidate_conflicts margin train_times section).
Proof.
  unfold _detect_section_conflicts, candidate_conflicts.
  rewrite (detect_loop_keep_first margin train_times section id).
  apply (keep_first_loop []).
Qed.

(** C2 (amended): in a section's timeline a Conflict is emitted for entry [i]
    and an overlapping entry [j] exactly when the number of entries other than
    [i] that overlap it (within the margin) reaches the capacity and the two
    actual windows overlap, up to the removal of duplicates: of the conflicts
    that the traversal comes to, in its order, one is kept exactly when no
    earlier one names the same unordered pair of train ids, so each pair
    yields at most one Conflict per section. In particular, for a safety
    margin that is not negative and two trains whose routes visit no section
    twice and which share a section of capacity 1 in which their windows
    really overlap: whenever the detector returns for the two trains in both
    orders, each result has exactly one Conflict in that section, on the same
    window and with the same severity in whichever order the two trains are
    supplied. *)
Theorem conflict_emission (margin : Z) (train_times : list Occupancy)
    (section : TrackSection) :
  Forall (emitted_by margin train_times section)
    (_detect_section_conflicts margin train_times section) ∧
  (∀ c', emitted_by margin train_times section c' →
         ∃ c, c ∈ _detect_section_conflicts margin train_times section ∧
              same_conflict c c' = true) ∧
  no_duplicate_pairs (_detect_section_conflicts margin train_times section) ∧
  _detect_section_conflicts margin train_times section
  = first_of_each_pair (candidate_conflicts margin train_times section) ∧
  (∀ (x y : Train) (sid : string) (sections : list TrackSection)
     (cs cs' : list Conflict),
     0 ≤ margin →
     NoDup (route x) → NoDup (route y) → sid ∈ route x → sid ∈ route y →
     section_dict_of sections !! sid = Some section → capacity section = 1 →
     Z.max (scheduled_window x sid).1 (scheduled_window y sid).1
       < Z.min (scheduled_window x sid).2 (scheduled_window y sid).2 →
     detect_conflicts margin [x; y] sections = Ok cs →
     detect_conflicts margin [y; x] sections = Ok cs' →
     ∃ c c',
       filter (λ c, conflict_section_id c = sid) cs = [c] ∧
       filter (λ c, conflict_section_id c = sid) cs' = [c'] ∧
       same_conflict c c' = true ∧
       conflict_start_time c = conflict_start_time c' ∧
       conflict_end_time c = conflict_end_time c' ∧
       severity c = severity c').
Proof.
  split; [apply _detect_section_conflicts_sound|].
  split; [apply _detect_section_conflicts_complete|].
  split; [apply _detect_section_conflicts_no_duplicate|].
  split; [apply _detect_section_conflicts_keep_first|].
  intros x y sid sections cs0 cs0' Hm Hx Hy Hinx Hiny Hs Hcap Hov Hcs0 Hcs0'.
  assert (Hroutes : Forall (λ s, is_Some (section_dict_of sections !! s))
                      (route x ++ route y)).
  { pose proof (detect_conflicts_outcome margin [x; y] sections) as Hk.
    rewrite Hcs0 in Hk. apply Forall_app. split; apply Forall_forall; intros s Hin.
    - apply (Hk x); [by left | done].
    - apply (Hk y); [by right; left | done]. }
  destruct (two_trains_shared_section margin Hm x y sid section sections)
    as (cs & c & Hcs & Hc & Hpair & Hsec & Hst & Hen & Hsev); try done.
  destruct (two_trains_shared_section margin Hm y x sid section sections)
    as (cs' & c' & Hcs' & Hc' & Hpair' & Hsec' & Hst' & Hen' & Hsev');
    try done; [by apply Forall_app, and_comm, Forall_app | lia |].
  assert (cs0 = cs) as -> by congruence.
  assert (cs0' = cs') as -> by congruence.
  exists c, c'. repeat split; try done; try lia.
  - unfold same_conflict. apply bool_decide_eq_true.
    split; [|congruence].
    destruct Hpair as [[-> ->]|[-> ->]], Hpair' as [[-> ->]|[-> ->]]; tauto.
  - rewrite Hsev, Hsev', Hst, Hen, Hst', Hen'.
    rewrite severity_sym. f_equal; lia.
Qed.

Lemma conflict_emission_witness :
  ∃ cs cs' c c',
    detect_conflicts 5 [sample_T001; sample_T002] sample_sections = Ok cs ∧
    detect_conflicts 5 [sample_T002; sample_T001] sample_sections = Ok cs' ∧
    filter (λ c, conflict_section_id c = "SEC_004") cs = [c] ∧
    filter (λ c, conflict_section_id c = "SEC_004") cs' = [c'] ∧
    same_conflict c c' = true ∧
    conflict_start_time c = conflict_start_time c' ∧
    conflict_end_time c = conflict_end_time c' ∧
    severity c = severity c'.
Proof.
  destruct (conflict_emission 5 [] sample_SEC_004) as (_ & _ & _ & _ & H).
  specialize (H sample_T001 sample_T002 "SEC_004" sample_sections).
  destruct (detect_conflicts 5 [sample_T001; sample_T002] sample_sections)
    as [cs|e] eqn:E; [|vm_compute in E; discriminate E].
  destruct (detect_conflicts 5 [sample_T002; sample_T001] sample_sections)
    as [cs'|e] eqn:E'; [|vm_compute in E'; discriminate E'].
  destruct (H cs cs') as (c & c' & H1 & H2 & H3 & H4 & H5 & H6);
    try (apply (bool_decide_unpack _); vm_compute; exact I);
    try (vm_compute; reflexivity);
    try reflexivity.
  exists cs, cs', c, c'.
  split; [reflexivity|]. split; [reflexivity|]. split; [exact H1|].
  split; [exact H2|]. split; [exact H3|]. split; [exact H4|].
  split; [exact H5 | exact H6].
Defined.

(** ** How the optimizer fails *)

Lemma bind_Raise {A B} (m : result A) (k : A → result B) (e : exn) :
  (m ≫= k) = Raise e ↔ m = Raise e ∨ ∃ a, m = Ok a ∧ k a = Raise e.
Proof.
  destruct m as [a|e']; simpl; split.
  - intros H. right. by exists a.
  - intros [?|(a' & [= ->] & H)]; done.
  - intros [= ->]. by left.
  - intros [[= ->]|(a' & ? & _)]; done.
Qed.

Lemma delayed_elem (ws os : list Train) (o : Train) :
  Forall2 delayed ws os → o ∈ os → ∃ w, w ∈ ws ∧ route o = route w.
Proof.
  induction 1 as [|w o' ws os Hd _ IH]; [by intros ?%elem_of_nil|].
  intros [->|Hin]%elem_of_cons.
  - exists w. split; [by left | by apply delayed_route].
  - destruct (IH Hin) as (w' & Hw' & Hr). exists w'. split; [by right | done].
Qed.

Section OptimizerFailures.
Variable margin : Z.

Lemma route_loop_raise (train : Train) (scheduled : list Train)
    (sd : gmap string TrackSection) (rt : list string) (st : datetime * Z) (e : exn) :
  foldM (optimize_section margin train scheduled sd) rt st = Raise e →
  ∃ sid, e = KeyError sid ∧ sid ∈ rt ∧ sd !! sid = None.
Proof.
  revert st; induction rt as [|sid rt IH]; intros st; cbn [foldM]; [done|].
  intros [Hstep|(st' & _ & Hrest)]%bind_Raise.
  - revert Hstep. unfold optimize_section. destruct st as [ca total].
    destruct (sd !! sid) as [section|] eqn:Hs.
    + rewrite (getitem_Some _ _ _ Hs). cbn [mbind result_bind]. cbv zeta.
      by case_decide.
    + rewrite (getitem_None _ _ Hs). cbn [mbind result_bind].
      intros [= <-]. exists sid. split; [done|]. split; [by left | done].
  - destruct (IH _ Hrest) as (sid' & -> & Hin & Hnone).
    exists sid'. split; [done|]. split; [by right | done].
Qed.

Lemma _optimize_single_train_raise (train : Train) (scheduled : list Train)
    (sd : gmap string TrackSection) (e : exn) :
  _optimize_single_train margin train scheduled sd = Raise e →
  ∃ sid, e = KeyError sid ∧ sid ∈ route train ∧ sd !! sid = None.
Proof.
  unfold _optimize_single_train, route_delay. cbv zeta.
  intros [[Hloop|(st & _ & [=])]%bind_Raise|(total & _ & H)]%bind_Raise.
  - by apply route_loop_raise in Hloop.
  - revert H. by case_decide.
Qed.

Lemma greedy_loop_raise (sd : gmap string TrackSection) (its : list (nat * Train))
    (acc : list Train) (e : exn) :
  foldM (greedy_step margin sd) its acc = Raise e →
  ∃ t sid, e = KeyError sid ∧ t ∈ snd <$> its ∧ sid ∈ route t ∧ sd !! sid = None.
Proof.
  revert acc; induction its as [|[i t] its IH]; intros acc; cbn [foldM]; [done|].
  intros [Hstep|(acc' & _ & Hrest)]%bind_Raise.
  - revert Hstep. unfold greedy_step. case_decide; [done|].
    intros [Hone|(o & _ & [=])]%bind_Raise.
    apply _optimize_single_train_raise in Hone as (sid & -> & Hin & Hnone).
    exists t, sid. split; [done|]. split; [|done]. rewrite fmap_cons. by left.
  - destruct (IH _ Hrest) as (t' & sid & -> & Hin & Hsid & Hnone).
    exists t', sid. split; [done|]. split; [|done]. rewrite fmap_cons. by right.
Qed.

Lemma _calculate_metrics_raise (original optimized : list Train)
    (sections : list TrackSection) (e : exn) :
  _calculate_metrics margin original optimized sections = Raise e →
  detect_conflicts margin original sections = Raise e ∨
  detect_conflicts margin optimized sections = Raise e ∨
  (∃ oc, detect_conflicts margin original sections = Ok oc) ∧
  throughput_of original = Raise e.
Proof.
  intros H.
  destruct (detect_conflicts margin original sections) as [oc|e1] eqn:Hoc.
  - destruct (detect_conflicts margin optimized sections) as [rc|e2] eqn:Hrc.
    + destruct (throughput_of original) as [th|e3] eqn:Hth.
      * destruct (_calculate_metrics_total margin original optimized sections
                    oc rc th Hoc Hrc Hth) as [m Hm]. congruence.
      * right. right. split; [by exists oc|].
        revert H. unfold _calculate_metrics. cbv zeta.
        rewrite Hoc, Hrc, Hth. cbn [mbind result_bind]. congruence.
    + right. left. revert H. unfold _calculate_metrics. cbv zeta.
      rewrite Hoc, Hrc. cbn [mbind result_bind]. congruence.
  - left. revert H. unfold _calculate_metrics. cbv zeta.
    rewrite Hoc. cbn [mbind result_bind]. congruence.
Qed.

Lemma optimize_schedule_raise (trains : list Train) (sections : list TrackSection)
    (e : exn) :
  optimize_schedule margin trains sections = Raise e →
  (∃ t sid, e = KeyError sid ∧ t ∈ trains ∧ sid ∈ route t ∧
            section_dict_of sections !! sid = None) ∨
  (e = ZeroDivisionError ∧ known_routes (section_dict_of sections) trains ∧
   trains ≠ [] ∧ time_span trains = 0).
Proof.
  assert (Hsorted : ∀ t, t ∈ stable_sort train_key_leb trains → t ∈ trains).
  { intros t. by rewrite (stable_sort_perm train_key_leb trains). }
  assert (Hdetect : ∀ l e',
            (∀ t, t ∈ l → ∃ w, w ∈ trains ∧ route t = route w) →
            detect_conflicts margin l sections = Raise e' →
            ∃ t sid, e' = KeyError sid ∧ t ∈ trains ∧ sid ∈ route t ∧
                     section_dict_of sections !! sid = None).
  { intros l e' Hl E. pose proof (detect_conflicts_outcome margin l sections) as H.
    rewrite E in H. destruct H as (t & sid & -> & Ht & Hsid & Hnone).
    destruct (Hl t Ht) as (w & Hw & Hr). exists w, sid. by rewrite <- Hr. }
  unfold optimize_schedule. cbv zeta.
  intros [Hgreedy|(opt & Hopt & H)]%bind_Raise.
  - left. unfold _apply_greedy_optimization in Hgreedy. cbv zeta in Hgreedy.
    apply greedy_loop_raise in Hgreedy as (t & sid & -> & Ht & Hsid & Hnone).
    rewrite (snd_imap_pair id) in Ht. exists t, sid. split; [done|].
    split; [by apply Hsorted | done].
  - pose proof (_apply_greedy_optimization_delayed margin _ _ _ Hopt) as Hdel.
    assert (Hopt_elem : ∀ t, t ∈ opt → ∃ w, w ∈ trains ∧ route t = route w).
    { intros t Ht. destruct (delayed_elem _ _ t Hdel Ht) as (w & Hw & Hr).
      exists w. split; [by apply Hsorted | done]. }
    apply bind_Raise in H as [Hgen|(sch & _ & H)].
    + left. pose proof (_generate_optimized_schedule_outcome opt sections) as Hout.
      rewrite Hgen in Hout. destruct Hout as (t & sid & -> & Ht & Hsid & Hnone).
      destruct (Hopt_elem t Ht) as (w & Hw & Hr). exists w, sid. by rewrite <- Hr.
    + apply bind_Raise in H as [Hm|(m & Hm & H)].
      * apply _calculate_metrics_raise in Hm as [Ho|[Ho|([oc Hoc] & Hth)]].
        -- left. apply (Hdetect trains); [|done]. intros t Ht. by exists t.
        -- left. by apply (Hdetect opt).
        -- right.
           assert (e = ZeroDivisionError) as ->.
           { revert Hth. destruct trains as [|t l]; [done|].
             unfold throughput_of, py_div. cbv zeta.
             destruct (Qeq_bool _ 0); congruence. }
           apply throughput_of_raises in Hth as [Hne Hspan].
           split; [done|]. split; [|split; [done|unfold time_span; lia]].
           pose proof (detect_conflicts_outcome margin trains sections) as Hk.
           by rewrite Hoc in Hk.
      * apply bind_Raise in H as [Hcr|(cr & _ & [=])].
        apply _calculate_metrics_Ok in Hm as (_ & rc & _ & _ & Hrc & _).
        congruence.
Qed.

(** X8: the outcomes of [optimize_schedule]. Whenever it returns, every
    section id on every route is the id of a section of the set, and the
    train list is empty or its time span (latest actual departure minus
    earliest actual arrival) is not zero. Whenever it raises
    [ZeroDivisionError], every route section is known and the list is not
    empty and has a time span of zero. Whenever it raises a [KeyError], the
    key is a section id on the route of some train of the list that no section
    of the set carries. *)
Theorem optimize_schedule_outcomes (trains : list Train) (sections : list TrackSection) :
  (∀ r, optimize_schedule margin trains sections = Ok r →
        known_routes (section_dict_of sections) trains ∧
        (trains = [] ∨ time_span trains ≠ 0)) ∧
  (optimize_schedule margin trains sections = Raise ZeroDivisionError →
   known_routes (section_dict_of sections) trains ∧
   trains ≠ [] ∧ time_span trains = 0) ∧
  (∀ sid, optimize_schedule margin trains sections = Raise (KeyError sid) →
          ∃ t, t ∈ trains ∧ sid ∈ route t ∧
               section_dict_of sections !! sid = None).
Proof.
  split; [|split].
  - intros r E.
    destruct (optimize_schedule_total margin trains sections) as [[Hto _] _].
    apply Hto. by exists r.
  - intros E. apply optimize_schedule_raise in E
      as [(t & sid & [=] & _)|(_ & Hk & Hne & Hspan)]. done.
  - intros sid E. apply optimize_schedule_raise in E
      as [(t & sid' & [= <-] & Ht & Hsid & Hnone)|([=] & _)]. by exists t.
Qed.

End OptimizerFailures.

(** ** The delay scenario on the objects *)

Lemma deref_frame (h h' : heap) (l : loc) :
  frame h h' → (l < length h)%nat → deref h' l = deref h l.
Proof.
  intros Hf Hl. destruct (lookup_lt_is_Some_2 h l Hl) as [t Ht].
  unfold deref. rewrite !list_lookup_total_alt, Ht, (Hf l t Ht). done.
Qed.

Lemma deepcopy_trains_sharing (trains : list loc) (memo : gmap loc loc) (h : heap)
    (copies : list loc) (h' : heap) :
  (∀ k1 k2 v, memo !! k1 = Some v → memo !! k2 = Some v → k1 = k2) →
  (∀ k v, memo !! k = Some v → (v < length h)%nat) →
  deepcopy_trains trains memo h = (copies, h') →
  ∃ memo' : gmap loc loc,
    memo ⊆ memo' ∧
    (∀ k1 k2 v, memo' !! k1 = Some v → memo' !! k2 = Some v → k1 = k2) ∧
    (∀ k v, memo' !! k = Some v → (v < length h')%nat) ∧
    Forall2 (λ l c, memo' !! l = Some c) trains copies.
Proof.
  revert memo h copies h'.
  induction trains as [|l rest IH]; intros memo h copies h' Hinj Hval; simpl.
  - intros [= <- <-]. exists memo. by repeat split.
  - destruct (memo !! l) as [l'|] eqn:Hl.
    + destruct (deepcopy_trains rest memo h) as [cs h1] eqn:Hrec.
      intros [= <- <-].
      destruct (IH _ _ _ _ Hinj Hval Hrec) as (memo' & Hsub & Hinj' & Hval' & Hall).
      exists memo'. repeat split; try done. constructor; [|done].
      by eapply lookup_weaken.
    + unfold alloc.
      destruct (deepcopy_trains rest (<[l:=length h]> memo) (h ++ [deref h l]))
        as [cs h1] eqn:Hrec.
      intros [= <- <-].
      destruct (IH (<[l:=length h]> memo) (h ++ [deref h l]) cs h1)
        as (memo' & Hsub & Hinj' & Hval' & Hall); [| |done|].
      * intros k1 k2 v.
        destruct (decide (k1 = l)) as [->|Hk1], (decide (k2 = l)) as [->|Hk2];
          rewrite ?lookup_insert_eq, ?lookup_insert_ne by done; try done.
        -- intros [= <-] Hk. apply Hval in Hk. lia.
        -- intros Hk [= <-]. apply Hval in Hk. lia.
        -- apply Hinj.
      * intros k v. destruct (decide (k = l)) as [->|Hk];
          rewrite ?lookup_insert_eq, ?lookup_insert_ne by done;
          rewrite length_app; simpl.
        -- intros [= <-]. lia.
        -- intros Hk'. apply Hval in Hk'. lia.
      * exists memo'. split; [|split; [done|split; [done|]]].
        -- etrans; [|exact Hsub]. by apply insert_subseteq.
        -- constructor; [|done]. eapply lookup_weaken; [|exact Hsub].
           by rewrite lookup_insert_eq.
Qed.

Lemma delay_first_match_refs_spec (tid : string) (extra : Z) (scenario : list loc)
    (h : heap) :
  delay_first_match_refs tid extra scenario h
  = match first_with_id h tid scenario with
    | Some c0 => store_delay c0 (current_delay_minutes (deref h c0) + extra) h
    | None => h
    end.
Proof.
  unfold first_with_id. induction scenario as [|c rest IH]; [done|].
  cbn [delay_first_match_refs]. rewrite filter_cons.
  by destruct (decide (train_id (deref h c) = tid)).
Qed.

Lemma first_with_id_elem (h : heap) (tid : string) (ls : list loc) (l0 : loc) :
  first_with_id h tid ls = Some l0 → l0 ∈ ls ∧ train_id (deref h l0) = tid.
Proof.
  unfold first_with_id. intros H.
  assert (Hin : l0 ∈ filter (λ l, train_id (deref h l) = tid) ls).
  { destruct (filter _ ls) as [|x l]; [done|]. injection H as ->. by left. }
  apply list_elem_of_filter in Hin as [? ?]. done.
Qed.

Lemma first_with_id_None (h : heap) (tid : string) (ls : list loc) :
  first_with_id h tid ls = None ↔ tid ∉ (train_id ∘ deref h) <$> ls.
Proof.
  unfold first_with_id. rewrite head_None. split.
  - intros Hnil (l & Hid & Hl)%list_elem_of_fmap.
    assert (l ∈ filter (λ l, train_id (deref h l) = tid) ls)
      by (by apply list_elem_of_filter).
    rewrite Hnil in *. by apply elem_of_nil in H.
  - intros Hnot. apply filter_none. apply Forall_forall. intros l Hl Hid.
    apply Hnot. apply list_elem_of_fmap. by exists l.
Qed.

Lemma first_with_id_copies (memo : gmap loc loc) (h h1 : heap) (tid : string)
    (trains copies : list loc) :
  Forall2 (λ l c, memo !! l = Some c ∧ deref h1 c = deref h l) trains copies →
  option_Forall2 (λ l c, memo !! l = Some c)
    (first_with_id h tid trains) (first_with_id h1 tid copies).
Proof.
  unfold first_with_id. induction 1 as [|l c ls cs [Hm Hd] _ IH]; [constructor|].
  rewrite !filter_cons, Hd.
  destruct (decide (train_id (deref h l) = tid)); [by constructor | done].
Qed.

Lemma count_copies (memo : gmap loc loc) (trains copies : list loc) (l0 c0 : loc) :
  (∀ k1 k2 v, memo !! k1 = Some v → memo !! k2 = Some v → k1 = k2) →
  memo !! l0 = Some c0 →
  Forall2 (λ l c, memo !! l = Some c) trains copies →
  length (filter (λ c, c = c0) copies) = length (filter (λ l, l = l0) trains).
Proof.
  intros Hinj H0. induction 1 as [|l c ls cs Hm _ IH]; [done|].
  rewrite !filter_cons.
  destruct (decide (c = c0)) as [->|Hc], (decide (l = l0)) as [->|Hl]; simpl.
  - by rewrite IH.
  - destruct Hl. by eapply Hinj.
  - congruence.
  - done.
Qed.

Lemma store_delay_sum (h : heap) (c0 : loc) (extra : Z) (ls : list loc) :
  (c0 < length h)%nat →
  sum_list_Z (current_delay_minutes
                <$> (deref (store_delay c0 (current_delay_minutes (deref h c0) + extra) h)
                       <$> ls))
  = sum_list_Z (current_delay_minutes <$> (deref h <$> ls))
    + extra * Z.of_nat (length (filter (λ c, c = c0) ls)).
Proof.
  intros Hc0. induction ls as [|c ls IH].
  - unfold sum_list_Z; simpl. lia.
  - rewrite !fmap_cons, !sum_list_Z_cons, IH, filter_cons.
    destruct (decide (c = c0)) as [->|Hne].
    + rewrite deref_store_delay_eq by done. cbn [current_delay_minutes set_delay].
      cbn [length]. lia.
    + rewrite deref_store_delay_ne by done. lia.
Qed.

Section StoreScenario.
Variable margin : Z.

(** The report of the store model is the report of the value model on the
    values of the scenario list after the delay has been written. *)
Lemma analyze_delay_scenario_refs_report (trains : list loc)
    (sections : list TrackSection) (tid : string) (extra : Z) (h : heap)
    (rep : Report DelayImpact) (h' : heap) :
  valid h trains →
  analyze_delay_scenario_refs margin trains sections tid extra h = (Ok rep, h') →
  ∃ (V : list Train) (r1 r2 : OptimizeResult),
    optimize_schedule margin (deref h <$> trains) sections = Ok r1 ∧
    optimize_schedule margin V sections = Ok r2 ∧
    rep = delay_report tid extra r1 r2 ∧
    length V = length trains ∧
    sum_list_Z (current_delay_minutes <$> V)
    = sum_list_Z (current_delay_minutes <$> (deref h <$> trains))
      + extra * delayed_entries h tid trains.
Proof.
  intros Hv. unfold analyze_delay_scenario_refs.
  destruct (deepcopy_trains trains ∅ h) as [scenario h1] eqn:Hcopy.
  destruct (deepcopy_trains_values trains ∅ h scenario h1 Hv (map_Forall_empty _) Hcopy)
    as (Hlen1 & Hext1 & Hvs & Hvals).
  destruct (deepcopy_trains_frame h trains ∅ h scenario h1 (frame_refl h)
              (map_Forall_empty _) Hcopy) as (_ & _ & Hfresh).
  destruct (deepcopy_trains_sharing trains ∅ h scenario h1)
    as (memo & _ & Hinj & _ & Hshare); [by intros ? ? ? ?%lookup_empty_Some
                                       | by intros ? ? ?%lookup_empty_Some | done |].
  assert (Hshare' : Forall2 (λ l c, memo !! l = Some c ∧ deref h1 c = deref h l)
                      trains scenario).
  { apply list_eq_Forall2, Forall2_fmap in Hvals.
    apply Forall2_flip in Hvals.
    revert Hvals. clear -Hshare. induction Hshare as [|l c ls cs Hm _ IH];
      [constructor|].
    intros [Hd Hr]%Forall2_cons. constructor; [by split | by apply IH]. }
  rewrite delay_first_match_refs_spec.
  set (h2 := match first_with_id h1 tid scenario with
             | Some c0 =>
                 store_delay c0 (current_delay_minutes (deref h1 c0) + extra) h1
             | None => h1
             end).
  assert (Hlen2 : length h2 = length h1).
  { unfold h2. destruct (first_with_id h1 tid scenario); [|done].
    apply length_store_delay. }
  assert (Hold : ∀ l, (l < length h)%nat → deref h2 l = deref h l).
  { intros l Hl. rewrite <- (Hext1 l Hl). unfold h2.
    destruct (first_with_id h1 tid scenario) as [c0|] eqn:Hc0; [|done].
    apply deref_store_delay_ne. intros ->.
    apply first_with_id_elem in Hc0 as [Hin _].
    apply (proj1 (Forall_forall _ _) Hfresh) in Hin as [Hnone _].
    apply lookup_ge_None in Hnone. lia. }
  assert (Hsum : sum_list_Z (current_delay_minutes <$> (deref h2 <$> scenario))
                 = sum_list_Z (current_delay_minutes <$> (deref h <$> trains))
                   + extra * delayed_entries h tid trains).
  { rewrite <- Hvals. unfold h2, delayed_entries.
    pose proof (first_with_id_copies memo h h1 tid trains scenario Hshare') as Hfirst.
    destruct (first_with_id h tid trains) as [l0|] eqn:El,
             (first_with_id h1 tid scenario) as [c0|] eqn:Ec;
      inversion Hfirst as [? ? Hm|]; subst; [|lia].
    rewrite store_delay_sum.
    - by rewrite (count_copies memo trains scenario l0 c0 Hinj Hm Hshare).
    - apply first_with_id_elem in Ec as [Hin _].
      by apply (proj1 (Forall_forall _ _) Hvs). }
  assert (Hv2 : valid h2 trains).
  { eapply valid_mono; [exact Hv|]. rewrite Hlen2. lia. }
  destruct (optimize_schedule_refs margin trains sections h2) as [r3 h3] eqn:H3.
  destruct (optimize_schedule_refs_values margin trains sections h2 r3 h3 Hv2 H3)
    as [Hr3 _].
  apply optimize_schedule_refs_frame in H3 as [Hf3 _].
  rewrite (fmap_deref_ext h h2 trains Hold Hv) in Hr3.
  destruct r3 as [res3|e3]; [|intros [= ? ?]; done].
  assert (Hv3 : valid h3 scenario).
  { eapply valid_mono; [exact Hvs|]. rewrite <- Hlen2. by apply frame_length. }
  destruct (optimize_schedule_refs margin scenario sections h3) as [r4 h4] eqn:H4.
  destruct (optimize_schedule_refs_values margin scenario sections h3 r4 h4 Hv3 H4)
    as [Hr4 _].
  assert (Hscen : deref h3 <$> scenario = deref h2 <$> scenario).
  { apply Forall_fmap_ext. eapply Forall_impl; [exact Hvs|].
    intros c Hc. apply deref_frame; [done|]. rewrite Hlen2. exact Hc. }
  rewrite Hscen in Hr4.
  destruct r4 as [res4|e4]; [|intros [= ? ?]; done].
  intros [= <- <-].
  exists (deref h2 <$> scenario), (optimize_result res3), (optimize_result res4).
  split; [by rewrite <- Hr3|]. split; [by rewrite <- Hr4|]. split; [done|].
  split; [|exact Hsum].
  rewrite length_fmap. apply (f_equal length) in Hvals.
  by rewrite !length_fmap in Hvals.
Qed.

Lemma delayed_entries_spec (h : heap) (tid : string) (trains : list loc) :
  (0 < delayed_entries h tid trains ↔ tid ∈ (train_id ∘ deref h) <$> trains) ∧
  (NoDup trains →
   delayed_entries h tid trains
   = if decide (tid ∈ (train_id ∘ deref h) <$> trains) then 1 else 0).
Proof.
  unfold delayed_entries.
  destruct (first_with_id h tid trains) as [l0|] eqn:E.
  - pose proof (first_with_id_elem _ _ _ _ E) as [Hin Hid].
    assert (Hmem : tid ∈ (train_id ∘ deref h) <$> trains).
    { apply list_elem_of_fmap. by exists l0. }
    assert (Hpos : l0 ∈ filter (λ l, l = l0) trains) by (by apply list_elem_of_filter).
    split.
    + split; [done|]. intros _.
      destruct (filter (λ l, l = l0) trains); [by apply elem_of_nil in Hpos|].
      simpl. lia.
    + intros Hnd. rewrite decide_True by done.
      assert (Hle : (length (filter (λ l, id l = l0) trains) ≤ 1)%nat).
      { clear -Hnd. induction Hnd as [|x l Hx _ IH]; [simpl; lia|].
        rewrite filter_cons. destruct (decide (id x = l0)) as [Heq|]; [|done].
        rewrite (filter_none (λ y, id y = l0) l); [simpl; lia|].
        apply Forall_forall. intros y Hy Hy'. simpl in *. congruence. }
      unfold id in Hle.
      destruct (filter (λ l, l = l0) trains) as [|? [|? ?]];
        [by apply elem_of_nil in Hpos | done | simpl in Hle; lia].
  - apply first_with_id_None in E. split; [split; [lia | done]|].
    intros _. by rewrite decide_False.
Qed.

(** X15: what a delay scenario compares, on the train objects of the caller.
    When [analyze_delay_scenario] returns, the two metrics count the same
    trains; the input delay total of the scenario is that of the original plus
    the extra delay once for every entry of the list that is the same object
    as the first train carrying the id: not at all when no train carries the
    id, exactly once when the list holds each object once (the loop stops at
    the first train with the id), and once per occurrence when the list holds
    that object several times; and the reported additional system delay is
    that injected delay plus the change in the delay the optimizer adds. *)
Theorem delay_scenario_totals (trains : list loc) (sections : list TrackSection)
    (tid : string) (extra : Z) (h : heap) (rep : Report DelayImpact) (h' : heap) :
  Forall (λ l, (l < length h)%nat) trains →
  analyze_delay_scenario_refs margin trains sections tid extra h = (Ok rep, h') →
  total_trains (scenario_metrics rep) = total_trains (original_metrics rep) ∧
  original_total_delay (scenario_metrics rep)
  = original_total_delay (original_metrics rep)
    + extra * delayed_entries h tid trains ∧
  additional_system_delay (impact rep)
  = extra * delayed_entries h tid trains
    + (additional_delay_introduced (scenario_metrics rep)
       - additional_delay_introduced (original_metrics rep)) ∧
  (0 < delayed_entries h tid trains ↔ tid ∈ (train_id ∘ deref h) <$> trains) ∧
  (NoDup trains →
   delayed_entries h tid trains
   = if decide (tid ∈ (train_id ∘ deref h) <$> trains) then 1 else 0).
Proof.
  intros Hv E.
  destruct (analyze_delay_scenario_refs_report trains sections tid extra h rep h' Hv E)
    as (V & r1 & r2 & Hr1 & Hr2 & -> & Hlen & Hsum).
  apply optimize_schedule_totals in Hr1 as (Ht1 & Ho1 & Hp1).
  apply optimize_schedule_totals in Hr2 as (Ht2 & Ho2 & Hp2).
  rewrite Hlen in Ht2. rewrite length_fmap in Ht1. rewrite Hsum in Ho2.
  unfold delay_report.
  cbn [scenario_metrics original_metrics impact additional_system_delay].
  split; [lia|]. split; [lia|]. split; [lia|]. apply delayed_entries_spec.
Qed.

End StoreScenario.

Lemma delay_scenario_totals_witness :
  ∃ rep rep',
    (analyze_delay_scenario_refs 5 [0; 1; 2]%nat sample_sections "T001" 30
       sample_trains).1 = Ok rep ∧
    original_total_delay (scenario_metrics rep) = 30 ∧
    (analyze_delay_scenario_refs 5 [0; 0; 1]%nat sample_sections "T001" 30
       sample_trains).1 = Ok rep' ∧
    original_total_delay (scenario_metrics rep') = 60.
Proof.
  assert (Hv : ∀ ls, ls = [0; 1; 2]%nat ∨ ls = [0; 0; 1]%nat →
                     Forall (λ l, (l < length sample_trains)%nat) ls).
  { intros ls [->| ->]; repeat constructor. }
  assert (H0 : ∀ ls, ls = [0; 1; 2]%nat ∨ ls = [0; 0; 1]%nat →
                     sum_list_Z (current_delay_minutes <$> (deref sample_trains <$> ls))
                     = 0).
  { intros ls [->| ->]; vm_compute; reflexivity. }
  assert (Hd1 : delayed_entries sample_trains "T001" [0; 1; 2]%nat = 1)
    by (vm_compute; reflexivity).
  assert (Hd2 : delayed_entries sample_trains "T001" [0; 0; 1]%nat = 2)
    by (vm_compute; reflexivity).
  destruct (analyze_delay_scenario_refs 5 [0; 1; 2]%nat sample_sections "T001" 30
              sample_trains) as [[rep|e] h1] eqn:E1;
    [|apply (f_equal fst) in E1; vm_compute in E1; discriminate E1].
  destruct (analyze_delay_scenario_refs 5 [0; 0; 1]%nat sample_sections "T001" 30
              sample_trains) as [[rep'|e] h2] eqn:E2;
    [|apply (f_equal fst) in E2; vm_compute in E2; discriminate E2].
  destruct (delay_scenario_totals 5 _ _ _ _ _ _ _ (Hv _ (or_introl eq_refl)) E1)
    as (_ & Ho1 & _).
  destruct (delay_scenario_totals 5 _ _ _ _ _ _ _ (Hv _ (or_intror eq_refl)) E2)
    as (_ & Ho2 & _).
  exists rep, rep'. split; [reflexivity|]. split; [|split; [reflexivity|]].
  - rewrite Ho1, Hd1.
    assert (original_total_delay (original_metrics rep) = 0) as ->; [|reflexivity].
    apply (f_equal fst) in E1. vm_compute in E1. injection E1 as <-. reflexivity.
  - rewrite Ho2, Hd2.
    assert (original_total_delay (original_metrics rep') = 0) as ->; [|reflexivity].
    apply (f_equal fst) in E2. vm_compute in E2. injection E2 as <-. reflexivity.
Defined.
